(** * Cred-It curriculum comparison service

    A shallow embedding of [MainServer/curriculum/services.py]
    (class [CurriculumService]) and the properties of its matching and
    evaluation engine.

    Conventions of the embedding:
    - Python strings are [string]; the scorer works on their characters
      ([list ascii]), and [str.lower] is the ASCII lower-casing.
    - Python numbers that may be fractional (grades, units, scores) are
      rationals [Q].  The constants the code compares against (1.0, 2.9,
      3.0, 5.0, 20.0, 50, 80) separate binary doubles as they separate
      rationals (no double lies between the double 2.9 and 29/10), and a
      score [2.0 * M / T * 100] of strings of any realistic length is below
      20.0, 50.0 or 80.0 exactly when [200 * M / T] is, so comparisons are
      those of the code.
    - A nullable numeric attribute is [option Q]; using [None] where Python
      needs a number raises [TypeError].
    - Database access is explicit state passing over the table of
      [CompareResultTOR] rows; exceptions are values. *)

From Stdlib Require Import List String Ascii ZArith QArith Lia Bool Arith Lqa.
From Stdlib Require Import DecimalString.
Import ListNotations.

Set Implicit Arguments.

Local Open Scope string_scope.
Local Open Scope nat_scope.

(** ** Numbers *)

(** Python's [int(x)] on a number: truncation toward zero. *)
Definition int_of (x : Q) : Z := Z.quot (Qnum x) (Zpos (Qden x)).

(** [x < y] and [x <= y] on numbers, as booleans. *)
Definition Qltb (x y : Q) : bool :=
  match (x ?= y)%Q with Lt => true | _ => false end.

Definition Qleb (x y : Q) : bool :=
  match (x ?= y)%Q with Gt => false | _ => true end.

(** [round(x, 2)]: the nearest multiple of 1/100, ties to the even one. *)
Definition round2 (x : Q) : Q :=
  let n := (Qnum x * 100)%Z in
  let d := Zpos (Qden x) in
  let q := (n / d)%Z in
  let r := (n mod d)%Z in
  let up :=
    match (2 * r ?= d)%Z with
    | Lt => false
    | Gt => true
    | Eq => Z.odd q
    end in
  Qred ((if up then q + 1 else q)%Z # 100)%Q.

(** ** Strings *)

(** [c.lower()] for one ASCII character. *)
Definition lower_ascii (c : ascii) : ascii :=
  let n := nat_of_ascii c in
  if (65 <=? n) && (n <=? 90) then ascii_of_nat (n + 32) else c.

(** [s.lower()], as the sequence of characters of the result. *)
Definition lower (s : string) : list ascii :=
  map lower_ascii (list_ascii_of_string s).

(** [sep.join(parts)]. *)
Fixpoint join (sep : string) (parts : list string) : string :=
  match parts with
  | [] => EmptyString
  | [p] => p
  | p :: rest => (p ++ sep ++ join sep rest)%string
  end.

(** Python truthiness of a string: [not s] holds of the empty string. *)
Definition falsy (s : string) : bool :=
  match s with EmptyString => true | _ => false end.

(** ** The sequence matcher *)

Module Difflib.

(** Modelled from the spec: [SequenceMatcher] is imported from Python's
    [difflib], which is not under the repository sources.  Section 4.1
    describes its ratio as [2 * M / T], with [M] the total length of the
    matching blocks found by a greedy longest-common-substring recursion
    and [T] the combined length.  The order in which equally long blocks
    are preferred (the block that ends first in the first sequence, then
    first in the second) and the "popular element" heuristic for a second
    sequence of 200 or more elements are the library's.  A block
    [(m_a, m_b, m_size)] says that [a[m_a : m_a + m_size]] equals
    [b[m_b : m_b + m_size]]. *)
Record Match := mkMatch { m_a : nat; m_b : nat; m_size : nat }.

Section Matcher.

Variables a b : list ascii.

Definition dflt : ascii := Ascii.zero.

(** Positions of [c] in [l], ascending, counted from [pos]. *)
Fixpoint indices_from (pos : nat) (c : ascii) (l : list ascii) : list nat :=
  match l with
  | [] => []
  | x :: l' =>
      if Ascii.eqb x c then pos :: indices_from (S pos) c l'
      else indices_from (S pos) c l'
  end.

(** [bpopular]: with [n = len(b) >= 200], the elements that occur more
    than [n // 100 + 1] times. *)
Definition is_popular (c : ascii) : bool :=
  let n := List.length b in
  (200 <=? n) && (n / 100 + 1 <? List.length (indices_from 0 c b)).

(** [b2j.get(c, [])]: popular elements have been purged. *)
Definition b2j (c : ascii) : list nat :=
  if is_popular c then [] else indices_from 0 c b.

(** [j2len.get(j, 0)] on a dictionary kept as an association list. *)
Fixpoint j2lenget (j2len : list (nat * nat)) (j : nat) : nat :=
  match j2len with
  | [] => 0
  | (j', k) :: rest => if j' =? j then k else j2lenget rest j
  end.

(** The inner loop of [find_longest_match], over the positions [js] of
    [a[i]] in [b]. *)
Fixpoint inner_loop (i blo bhi : nat) (j2len : list (nat * nat))
    (js : list nat) (newj2len : list (nat * nat)) (best : Match)
    : list (nat * nat) * Match :=
  match js with
  | [] => (newj2len, best)
  | j :: js' =>
      if j <? blo then inner_loop i blo bhi j2len js' newj2len best
      else if bhi <=? j then (newj2len, best)
      else
        let k := match j with
                 | 0 => 0
                 | S j' => j2lenget j2len j'
                 end + 1 in
        let best' :=
          if m_size best <? k then mkMatch (i + 1 - k) (j + 1 - k) k
          else best in
        inner_loop i blo bhi j2len js' ((j, k) :: newj2len) best'
  end.

(** The outer loop, over the positions [alo <= i < ahi] of [a]. *)
Fixpoint outer_loop (blo bhi : nat) (rng : list nat)
    (j2len : list (nat * nat)) (best : Match) : Match :=
  match rng with
  | [] => best
  | i :: rng' =>
      let '(newj2len, best') :=
        inner_loop i blo bhi j2len (b2j (nth i a dflt)) [] best in
      outer_loop blo bhi rng' newj2len best'
  end.

(** Extending the best block to the left while the elements agree. *)
Fixpoint extend_left (fuel alo blo : nat) (best : Match) : Match :=
  match fuel with
  | 0 => best
  | S fuel' =>
      if (alo <? m_a best) && (blo <? m_b best)
         && Ascii.eqb (nth (m_a best - 1) a dflt) (nth (m_b best - 1) b dflt)
      then extend_left fuel' alo blo
             (mkMatch (m_a best - 1) (m_b best - 1) (m_size best + 1))
      else best
  end.

(** Extending it to the right. *)
Fixpoint extend_right (fuel ahi bhi : nat) (best : Match) : Match :=
  match fuel with
  | 0 => best
  | S fuel' =>
      if (m_a best + m_size best <? ahi) && (m_b best + m_size best <? bhi)
         && Ascii.eqb (nth (m_a best + m_size best) a dflt)
                      (nth (m_b best + m_size best) b dflt)
      then extend_right fuel' ahi bhi
             (mkMatch (m_a best) (m_b best) (m_size best + 1))
      else best
  end.

(** Modelled from the spec: [find_longest_match(alo, ahi, blo, bhi)] of
    the library, the longest block of section 4.1.  No junk predicate is
    given by the caller, so the two loops that absorb junk never run. *)
Definition find_longest_match (alo ahi blo bhi : nat) : Match :=
  let best := outer_loop blo bhi (seq alo (ahi - alo)) [] (mkMatch alo blo 0) in
  let best := extend_left (m_a best) alo blo best in
  extend_right (ahi - (m_a best + m_size best)) ahi bhi best.

(** Modelled from the spec: the recursion of section 4.1 (the library runs
    it with a work list).  Total size of the matching blocks of
    [a[alo:ahi]] against [b[blo:bhi]]: the longest block, then the same to
    its left and to its right.  [None] when the fuel runs out, which
    [matching_size_returns] excludes for the fuel [matches] gives. *)
Fixpoint matching_size (fuel alo ahi blo bhi : nat) : option nat :=
  match fuel with
  | 0 => None
  | S fuel' =>
      let x := find_longest_match alo ahi blo bhi in
      let i := m_a x in
      let j := m_b x in
      let k := m_size x in
      if k =? 0 then Some 0
      else
        match
          (if (alo <? i) && (blo <? j)
           then matching_size fuel' alo i blo j else Some 0),
          (if (i + k <? ahi) && (j + k <? bhi)
           then matching_size fuel' (i + k) ahi (j + k) bhi else Some 0)
        with
        | Some l, Some r => Some (k + l + r)
        | _, _ => None
        end
  end.

(** [sum(triple[-1] for triple in get_matching_blocks())]. *)
Definition matches : nat :=
  match matching_size (S (List.length a)) 0 (List.length a) 0 (List.length b) with
  | Some m => m
  | None => 0
  end.

End Matcher.

(** Modelled from the spec: [SequenceMatcher(None, a, b).ratio()], the
    [2 * M / T] of section 4.1; the library gives 1 when both sequences
    are empty. *)
Definition ratio (a b : list ascii) : Q :=
  let length := List.length a + List.length b in
  match length with
  | 0 => 1%Q
  | _ => Qred (Z.of_nat (2 * matches a b) # Pos.of_nat length)%Q
  end.

End Difflib.

(** ** Similarity *)

(** [CurriculumService.calculate_similarity]. *)
Definition calculate_similarity (text1 text2 : string) : Q :=
  if falsy text1 || falsy text2 then 0%Q
  else Qred (Difflib.ratio (lower text1) (lower text2) * 100)%Q.

(** ** Data model *)

(** [CompareResultTOR.CreditEvaluation]. *)
Inductive CreditEvaluation := ACCEPTED | DENIED | VOID | INVESTIGATE.

(** The three markers a report line starts with: a check mark, a warning
    sign, a cross. *)
Inductive marker := Good | Warn | Bad.

(** The lines [generate_summary] can emit.  Each constructor stands for one
    format string of the source and carries the values it interpolates. *)
Inductive summary_line :=
| SubjectCodeNoMatches
| SubjectCodeExact
| SubjectCodeMultiple (match_count : nat)
| DescriptionMatch (best_match : Q) (best_match_subject : option string)
| DescriptionReview (best_match : Q) (best_match_subject : option string)
| DescriptionLow (best_match : Q)
| UnitsMatch (units : Z)
| UnitsVerify (units : Z)
| GradePassing (final_grade : option Q)
| GradeNotPassing (final_grade : option Q).

Definition marker_of (l : summary_line) : marker :=
  match l with
  | SubjectCodeNoMatches => Warn
  | SubjectCodeExact => Good
  | SubjectCodeMultiple _ => Warn
  | DescriptionMatch _ _ => Good
  | DescriptionReview _ _ => Warn
  | DescriptionLow _ => Bad
  | UnitsMatch _ => Good
  | UnitsVerify _ => Warn
  | GradePassing _ => Good
  | GradeNotPassing _ => Bad
  end.

(** The text of the [summary] attribute: stored text that was not produced
    here, the report of [generate_summary] (its lines joined by newlines),
    or one of the two texts of [sync_curriculum_matching]. *)
Inductive summary_text :=
| Text (s : string)
| Report (lines : list summary_line)
| MatchFound (cit_subject : string) (similarity : Z)
             (student_units cit_units : Z)
| NoMatchFound (best_match : option string) (similarity : Z).

Module CompareResultTOR.
Record t := mk {
  id : nat;
  account_id : string;
  subject_code : string;
  subject_description : string;
  total_academic_units : option Q;
  final_grade : option Q;
  remarks : string;
  summary : summary_text;
  credit_evaluation : CreditEvaluation;
  notes : string;
  updated_at : nat
}.

Definition set_remarks (v : string) (e : t) : t :=
  mk (id e) (account_id e) (subject_code e) (subject_description e)
     (total_academic_units e) (final_grade e) v (summary e)
     (credit_evaluation e) (notes e) (updated_at e).

Definition set_summary (v : summary_text) (e : t) : t :=
  mk (id e) (account_id e) (subject_code e) (subject_description e)
     (total_academic_units e) (final_grade e) (remarks e) v
     (credit_evaluation e) (notes e) (updated_at e).

Definition set_credit_evaluation (v : CreditEvaluation) (e : t) : t :=
  mk (id e) (account_id e) (subject_code e) (subject_description e)
     (total_academic_units e) (final_grade e) (remarks e) (summary e)
     v (notes e) (updated_at e).

Definition set_updated_at (v : nat) (e : t) : t :=
  mk (id e) (account_id e) (subject_code e) (subject_description e)
     (total_academic_units e) (final_grade e) (remarks e) (summary e)
     (credit_evaluation e) (notes e) v.
End CompareResultTOR.

Module CitTorContent.
Record t := mk {
  subject_code : string;
  description : list string;
  units : Z;
  is_active : bool
}.
End CitTorContent.

Module TorTransferee.
Record t := mk {
  account_id : string;
  subject_code : string;
  subject_description : string;
  total_academic_units : option Q;
  final_grade : option Q;
  remarks : option string
}.
End TorTransferee.

(** The columns of the [CompareResultTOR] table. *)
Inductive column :=
| account_id_col | subject_code_col | subject_description_col
| total_academic_units_col | final_grade_col | remarks_col | summary_col
| credit_evaluation_col | notes_col | updated_at_col.

Definition all_columns : list column :=
  [account_id_col; subject_code_col; subject_description_col;
   total_academic_units_col; final_grade_col; remarks_col; summary_col;
   credit_evaluation_col; notes_col; updated_at_col].

(** ** Exceptions, results, and the database *)

Inductive exn :=
| ValidationException (message : string)
| ResourceNotFoundException (resource identifier : string)
| MultipleObjectsReturned
| AttributeError
| TypeError.

Inductive result (A : Type) :=
| Ok (a : A)
| Raise (e : exn).
Arguments Ok {A} a.
Arguments Raise {A} e.

Definition rbind {A B} (c : result A) (k : A -> result B) : result B :=
  match c with
  | Ok a => k a
  | Raise e => Raise e
  end.

(** The database: the three tables the service touches, the sequence that
    numbers new [CompareResultTOR] rows, and a journal of the cells
    (row id, column) that statements have written, in order. *)
Record db := mkdb {
  compare_result_tor : list CompareResultTOR.t;
  cit_tor_content : list CitTorContent.t;
  tor_transferee : list TorTransferee.t;
  next_id : nat;
  written : list (nat * column)
}.

(** A computation that reads and writes the database and may raise: on an
    exception the database is the one reached when it was raised. *)
Definition M (A : Type) : Type := db -> result A * db.

Definition ret {A} (a : A) : M A := fun d => (Ok a, d).

Definition raise {A} (e : exn) : M A := fun d => (Raise e, d).

Definition bind {A B} (c : M A) (k : A -> M B) : M B :=
  fun d =>
    match c d with
    | (Ok a, d') => k a d'
    | (Raise e, d') => (Raise e, d')
    end.

Definition lift {A} (r : result A) : M A := fun d => (r, d).

Declare Scope monad_scope.
Delimit Scope monad_scope with monad.
Notation "x <- c ;; k" := (bind c (fun x => k))
  (at level 100, c at next level, right associativity) : monad_scope.
Notation "c ;; k" := (bind c (fun _ => k))
  (at level 100, right associativity) : monad_scope.
Notation "x <~ c ;; k" := (rbind c (fun x => k))
  (at level 100, c at next level, right associativity) : monad_scope.
Local Open Scope monad_scope.

(** Modelled from the spec: the decorator [atomic_transaction] comes from
    [core.decorators], which is not under the repository sources.  Section 5
    has one invocation be one all-or-nothing transaction: when the wrapped
    call raises, the database is the one it started from. *)
Definition atomic_transaction {A} (c : M A) : M A :=
  fun d =>
    match c d with
    | (Ok a, d') => (Ok a, d')
    | (Raise e, _) => (Raise e, d)
    end.

(** *** Queries on [CompareResultTOR] *)

(** [CompareResultTOR.objects.filter(account_id=account_id)], evaluated. *)
Definition filter_account (account_id : string)
    (rows : list CompareResultTOR.t) : list CompareResultTOR.t :=
  filter (fun r => String.eqb (CompareResultTOR.account_id r) account_id) rows.

Definition objects_filter (account_id : string) : M (list CompareResultTOR.t) :=
  fun d => (Ok (filter_account account_id (compare_result_tor d)), d).

(** [CitTorContent.objects.filter(is_active=True)], evaluated. *)
Definition active_cit : M (list CitTorContent.t) :=
  fun d => (Ok (filter CitTorContent.is_active (cit_tor_content d)), d).

(** Copying one column of the in-memory object [o] onto the row [r]. *)
Definition write_column (o : CompareResultTOR.t) (r : CompareResultTOR.t)
    (c : column) : CompareResultTOR.t :=
  match c with
  | remarks_col => CompareResultTOR.set_remarks (CompareResultTOR.remarks o) r
  | summary_col => CompareResultTOR.set_summary (CompareResultTOR.summary o) r
  | credit_evaluation_col =>
      CompareResultTOR.set_credit_evaluation (CompareResultTOR.credit_evaluation o) r
  | updated_at_col =>
      CompareResultTOR.set_updated_at (CompareResultTOR.updated_at o) r
  | _ => r
  end.

(** The row [r] after [bulk_update(objs, fields)]: the listed columns of the
    object with the same primary key, when there is one. *)
Definition bulk_update_row (objs : list CompareResultTOR.t) (fields : list column)
    (r : CompareResultTOR.t) : CompareResultTOR.t :=
  match find (fun o => CompareResultTOR.id o =? CompareResultTOR.id r) objs with
  | Some o => fold_left (write_column o) fields r
  | None => r
  end.

(** [CompareResultTOR.objects.bulk_update(objs, fields, batch_size=100)]. *)
Definition bulk_update (objs : list CompareResultTOR.t) (fields : list column)
    : M unit :=
  fun d =>
    (Ok tt,
     mkdb (map (bulk_update_row objs fields) (compare_result_tor d))
          (cit_tor_content d) (tor_transferee d) (next_id d)
          (written d ++
           flat_map (fun o => map (fun c => (CompareResultTOR.id o, c)) fields) objs)).

(** ** The service *)

(** Grading thresholds and the similarity threshold (class attributes). *)
Definition STANDARD_PASSING_MIN : Q := 1.
Definition STANDARD_PASSING_MAX : Q := 29 # 10.
Definition STANDARD_FAILING_MIN : Q := 3.
Definition STANDARD_FAILING_MAX : Q := 5.
Definition SIMILARITY_THRESHOLD : Q := 20.

(** The chained comparison [lo <= g <= hi]; comparing with [None] raises. *)
Definition between (lo : Q) (g : option Q) (hi : Q) : result bool :=
  match g with
  | None => Raise TypeError
  | Some g => Ok (Qleb lo g && Qleb g hi)
  end.

(** [int(u)] on a nullable number. *)
Definition int_units (u : option Q) : result Z :=
  match u with
  | None => Raise TypeError
  | Some u => Ok (int_of u)
  end.

(** A [for] loop whose body updates one object at a time and may raise;
    the objects are collected in order. *)
Fixpoint for_each {A B} (body : A -> result B) (l : list A) : result (list B) :=
  match l with
  | [] => Ok []
  | x :: l' =>
      y <~ body x ;;
      ys <~ for_each body l' ;;
      Ok (y :: ys)
  end.

(** The remarks of the standard scale (the first [if] of the loop body of
    [apply_standard_grading]). *)
Definition standard_remarks (final_grade : option Q) : result string :=
  passing <~ between STANDARD_PASSING_MIN final_grade STANDARD_PASSING_MAX ;;
  if passing then Ok "PASSED"
  else
    failing <~ between STANDARD_FAILING_MIN final_grade STANDARD_FAILING_MAX ;;
    if failing then Ok "FAILED" else Ok "INVALID GRADE".

(** The remarks of the reverse scale (the first [if] of the loop body of
    [apply_reverse_grading]). *)
Definition reverse_remarks (final_grade : option Q) : result string :=
  passing <~ between STANDARD_FAILING_MIN final_grade STANDARD_FAILING_MAX ;;
  if passing then Ok "PASSED"
  else
    failing <~ between STANDARD_PASSING_MIN final_grade STANDARD_PASSING_MAX ;;
    if failing then Ok "FAILED" else Ok "INVALID GRADE".

Section CurriculumService.

(** The property [is_passing_grade] of the model class, which is declared
    with the model and not with the service. *)
Variable is_passing_grade : CompareResultTOR.t -> bool.

(** What a new row gets in the columns [get_or_create] is given no
    default for. *)
Variable default_notes : string.
Variable now : nat.

(** *** [generate_summary] *)

Definition subject_code_line (entry : CompareResultTOR.t)
    (cit_entries : list CitTorContent.t) : summary_line :=
  let matches :=
    filter (fun cit => String.eqb (CitTorContent.subject_code cit)
                                  (CompareResultTOR.subject_code entry))
           cit_entries in
  let match_count := List.length matches in
  if match_count =? 0 then SubjectCodeNoMatches
  else if match_count =? 1 then SubjectCodeExact
  else SubjectCodeMultiple match_count.

(** The body of the inner loop [for desc in cit.description]. *)
Definition description_step (entry : CompareResultTOR.t)
    (cit : CitTorContent.t) (best : Q * option string) (desc : string)
    : Q * option string :=
  let similarity :=
    calculate_similarity (CompareResultTOR.subject_description entry) desc in
  if Qltb (fst best) similarity
  then (similarity, Some (CitTorContent.subject_code cit))
  else best.

(** The two nested loops: [(best_match, best_match_subject)] at the end. *)
Definition best_description (entry : CompareResultTOR.t)
    (cit_entries : list CitTorContent.t) : Q * option string :=
  fold_left
    (fun best cit =>
       fold_left (description_step entry cit) (CitTorContent.description cit) best)
    cit_entries (0%Q, None).

Definition description_line (entry : CompareResultTOR.t)
    (cit_entries : list CitTorContent.t) : summary_line :=
  let '(best_match, best_match_subject) := best_description entry cit_entries in
  if Qleb 80 best_match then DescriptionMatch best_match best_match_subject
  else if Qleb 50 best_match then DescriptionReview best_match best_match_subject
  else DescriptionLow best_match.

Definition units_line (entry : CompareResultTOR.t)
    (cit_entries : list CitTorContent.t) : result summary_line :=
  units <~ int_units (CompareResultTOR.total_academic_units entry) ;;
  let units_match :=
    existsb (fun cit => (CitTorContent.units cit =? units)%Z) cit_entries in
  if units_match then Ok (UnitsMatch units) else Ok (UnitsVerify units).

Definition grade_line (entry : CompareResultTOR.t) : summary_line :=
  if is_passing_grade entry
  then GradePassing (CompareResultTOR.final_grade entry)
  else GradeNotPassing (CompareResultTOR.final_grade entry).

Definition generate_summary (entry : CompareResultTOR.t)
    (cit_entries : list CitTorContent.t) : result summary_text :=
  let code := subject_code_line entry cit_entries in
  let desc := description_line entry cit_entries in
  units <~ units_line entry cit_entries ;;
  let grade := grade_line entry in
  Ok (Report [code; desc; units; grade]).

(** *** [apply_standard_grading] and [apply_reverse_grading] *)

(** One turn of the loop: remarks, then the summary of the entry as it is
    by then. *)
Definition grading_entry (scale : option Q -> result string)
    (cit_entries : list CitTorContent.t) (entry : CompareResultTOR.t)
    : result CompareResultTOR.t :=
  r <~ scale (CompareResultTOR.final_grade entry) ;;
  let entry := CompareResultTOR.set_remarks r entry in
  s <~ generate_summary entry cit_entries ;;
  Ok (CompareResultTOR.set_summary s entry).

Definition grading_body (scale : option Q -> result string)
    (account_id : string) : M (list CompareResultTOR.t) :=
  if falsy account_id then raise (ValidationException "Account ID is required")
  else
    entries <- objects_filter account_id ;;
    match entries with
    | [] => raise (ResourceNotFoundException "TOR entries" account_id)
    | _ =>
        cit_entries <- active_cit ;;
        updated_entries <- lift (for_each (grading_entry scale cit_entries) entries) ;;
        bulk_update updated_entries [remarks_col; summary_col; updated_at_col] ;;
        ret updated_entries
    end.

(** The function under its decorators, and the decorated function. *)
Definition apply_standard_grading_body := grading_body standard_remarks.
Definition apply_standard_grading (account_id : string) :=
  atomic_transaction (apply_standard_grading_body account_id).

Definition apply_reverse_grading_body := grading_body reverse_remarks.
Definition apply_reverse_grading (account_id : string) :=
  atomic_transaction (apply_reverse_grading_body account_id).

(** *** [copy_tor_entries] *)

(** [CompareResultTOR.objects.get_or_create(account_id=..., subject_code=...,
    defaults=...)] for one intake row: the row with that pair when there
    is exactly one, a new row built from the defaults when there is none,
    and [MultipleObjectsReturned] otherwise. *)
Definition get_or_create (entry : TorTransferee.t) : M (CompareResultTOR.t * bool) :=
  fun d =>
    match
      filter (fun r =>
                String.eqb (CompareResultTOR.account_id r) (TorTransferee.account_id entry)
                && String.eqb (CompareResultTOR.subject_code r) (TorTransferee.subject_code entry))
             (compare_result_tor d)
    with
    | [r] => (Ok (r, false), d)
    | [] =>
        let r :=
          CompareResultTOR.mk (next_id d)
            (TorTransferee.account_id entry)
            (TorTransferee.subject_code entry)
            (TorTransferee.subject_description entry)
            (TorTransferee.total_academic_units entry)
            (TorTransferee.final_grade entry)
            (match TorTransferee.remarks entry with
             | Some r => r
             | None => ""
             end)
            (Text "")
            VOID
            default_notes
            now in
        (Ok (r, true),
         mkdb (compare_result_tor d ++ [r]) (cit_tor_content d)
              (tor_transferee d) (S (next_id d))
              (written d ++ map (fun c => (next_id d, c)) all_columns))
    | _ => (Raise MultipleObjectsReturned, d)
    end.

(** The loop of [copy_tor_entries]: [(compare_entries, created_count)]. *)
Fixpoint copy_loop (transferee_entries : list TorTransferee.t)
    (compare_entries : list CompareResultTOR.t) (created_count : nat)
    : M (list CompareResultTOR.t * nat) :=
  match transferee_entries with
  | [] => ret (compare_entries, created_count)
  | entry :: rest =>
      p <- get_or_create entry ;;
      copy_loop rest (compare_entries ++ [fst p])
                (if snd p then created_count + 1 else created_count)
  end.

(** The function under its decorators; the count it logs is returned
    next to the list it returns. *)
Definition copy_tor_entries_body (account_id : string)
    : M (list CompareResultTOR.t * nat) :=
  if falsy account_id then raise (ValidationException "Account ID is required")
  else
    fun d =>
      let transferee_entries :=
        filter (fun e => String.eqb (TorTransferee.account_id e) account_id)
               (tor_transferee d) in
      match transferee_entries with
      | [] => raise (ResourceNotFoundException "Transferee TOR entries" account_id) d
      | _ => copy_loop transferee_entries [] 0 d
      end.

Definition copy_tor_entries (account_id : string) :=
  atomic_transaction (copy_tor_entries_body account_id).

(** *** [sync_curriculum_matching] *)

(** The inner loop over the catalog: [(best_match, best_accuracy)]. *)
Definition find_best_match (tor : CompareResultTOR.t)
    (cit_contents : list CitTorContent.t) : option CitTorContent.t * Q :=
  fold_left
    (fun best cit =>
       let combined_desc := join " " (CitTorContent.description cit) in
       let accuracy :=
         calculate_similarity (CompareResultTOR.subject_description tor)
                              combined_desc in
       if Qltb (snd best) accuracy then (Some cit, accuracy) else best)
    cit_contents (None, 0%Q).

(** One row of the list the function returns. *)
Record sync_row := mk_sync_row {
  row_subject_code : string;
  row_subject_description : string;
  row_total_academic_units : option Q;
  row_final_grade : option Q;
  row_remarks : string;
  row_summary : summary_text;
  row_credit_evaluation : CreditEvaluation;
  row_match_accuracy : Z;
  row_matched_subject : option string
}.

(** The summary and the evaluation one entry is given. *)
Definition evaluate_entry (tor : CompareResultTOR.t)
    (best_match : option CitTorContent.t) (best_accuracy : Q)
    : result CompareResultTOR.t :=
  if Qleb SIMILARITY_THRESHOLD best_accuracy then
    match best_match with
    | None => Raise AttributeError
    | Some cit =>
        units <~ int_units (CompareResultTOR.total_academic_units tor) ;;
        let tor :=
          CompareResultTOR.set_summary
            (MatchFound (CitTorContent.subject_code cit) (int_of best_accuracy)
                        units (CitTorContent.units cit))
            tor in
        if Qleb 80 best_accuracy && is_passing_grade tor
        then Ok (CompareResultTOR.set_credit_evaluation ACCEPTED tor)
        else if Qleb 50 best_accuracy
        then Ok (CompareResultTOR.set_credit_evaluation VOID tor)
        else Ok (CompareResultTOR.set_credit_evaluation DENIED tor)
    end
  else
    let tor :=
      CompareResultTOR.set_summary
        (NoMatchFound (option_map CitTorContent.subject_code best_match)
                      (int_of best_accuracy))
        tor in
    Ok (CompareResultTOR.set_credit_evaluation INVESTIGATE tor).

(** One turn of the outer loop: the updated entry and its result row. *)
Definition sync_entry (cit_contents : list CitTorContent.t)
    (tor : CompareResultTOR.t) : result (CompareResultTOR.t * sync_row) :=
  let '(best_match, best_accuracy) := find_best_match tor cit_contents in
  tor <~ evaluate_entry tor best_match best_accuracy ;;
  Ok (tor,
      mk_sync_row
        (CompareResultTOR.subject_code tor)
        (CompareResultTOR.subject_description tor)
        (CompareResultTOR.total_academic_units tor)
        (CompareResultTOR.final_grade tor)
        (CompareResultTOR.remarks tor)
        (CompareResultTOR.summary tor)
        (CompareResultTOR.credit_evaluation tor)
        (match best_match with Some _ => int_of best_accuracy | None => 0%Z end)
        (option_map CitTorContent.subject_code best_match)).

Definition sync_curriculum_matching_body (account_id : string)
    : M (list sync_row) :=
  if falsy account_id then raise (ValidationException "Account ID is required")
  else
    tor_entries <- objects_filter account_id ;;
    match tor_entries with
    | [] => raise (ResourceNotFoundException "TOR entries" account_id)
    | _ =>
        cit_contents <- active_cit ;;
        results <- lift (for_each (sync_entry cit_contents) tor_entries) ;;
        let updated_entries := map fst results in
        let result_data := map snd results in
        bulk_update updated_entries
                    [summary_col; credit_evaluation_col; updated_at_col] ;;
        ret result_data
    end.

Definition sync_curriculum_matching (account_id : string) :=
  atomic_transaction (sync_curriculum_matching_body account_id).

(** *** [update_tor_results] *)

(** [filter(account_id=..., subject_code__in=failed_subjects).delete()]:
    the number of rows deleted. *)
Definition delete_failed (account_id : string) (failed_subjects : list string)
    : M nat :=
  fun d =>
    let doomed r :=
      String.eqb (CompareResultTOR.account_id r) account_id
      && existsb (String.eqb (CompareResultTOR.subject_code r)) failed_subjects in
    (Ok (List.length (filter doomed (compare_result_tor d))),
     mkdb (filter (fun r => negb (doomed r)) (compare_result_tor d))
          (cit_tor_content d) (tor_transferee d) (next_id d) (written d)).

(** [filter(account_id=..., subject_code=...).update(remarks=...,
    updated_at=F('updated_at'))]: the number of rows matched. *)
Definition update_remarks (account_id subject_code remarks : string) : M nat :=
  fun d =>
    let hit r :=
      String.eqb (CompareResultTOR.account_id r) account_id
      && String.eqb (CompareResultTOR.subject_code r) subject_code in
    (Ok (List.length (filter hit (compare_result_tor d))),
     mkdb (map (fun r => if hit r then CompareResultTOR.set_remarks remarks r else r)
               (compare_result_tor d))
          (cit_tor_content d) (tor_transferee d) (next_id d)
          (written d ++
           flat_map (fun r => [(CompareResultTOR.id r, remarks_col);
                               (CompareResultTOR.id r, updated_at_col)])
                    (filter hit (compare_result_tor d)))).

(** The loop over [passed_subjects], each a pair of the values under the
    keys ["subject_code"] and ["remarks"]. *)
Fixpoint update_loop (account_id : string)
    (passed_subjects : list (string * string)) (updated_count : nat) : M nat :=
  match passed_subjects with
  | [] => ret updated_count
  | subject :: rest =>
      updated <- update_remarks account_id (fst subject) (snd subject) ;;
      update_loop account_id rest (updated_count + updated)
  end.

(** The dictionary returned: [(deleted, updated)]. *)
Definition update_tor_results_body (account_id : string)
    (failed_subjects : list string) (passed_subjects : list (string * string))
    : M (nat * nat) :=
  if falsy account_id then raise (ValidationException "Account ID is required")
  else
    deleted_count <- delete_failed account_id failed_subjects ;;
    updated_count <- update_loop account_id passed_subjects 0 ;;
    ret (deleted_count, updated_count).

Definition update_tor_results (account_id : string)
    (failed_subjects : list string) (passed_subjects : list (string * string)) :=
  atomic_transaction
    (update_tor_results_body account_id failed_subjects passed_subjects).

(** *** [get_comparison_statistics] *)

(** The values of the statistics dictionary. *)
Inductive stat :=
| Count (n : nat)
| Number (x : Q).

Definition CreditEvaluation_eqb (x y : CreditEvaluation) : bool :=
  match x, y with
  | ACCEPTED, ACCEPTED | DENIED, DENIED | VOID, VOID
  | INVESTIGATE, INVESTIGATE => true
  | _, _ => false
  end.

(** [entries.filter(credit_evaluation=v).count()]. *)
Definition count_evaluation (v : CreditEvaluation)
    (entries : list CompareResultTOR.t) : nat :=
  List.length
    (filter (fun r => CreditEvaluation_eqb (CompareResultTOR.credit_evaluation r) v)
            entries).

(** [entries.filter(remarks=v).count()]. *)
Definition count_remarks (v : string) (entries : list CompareResultTOR.t) : nat :=
  List.length (filter (fun r => String.eqb (CompareResultTOR.remarks r) v) entries).

(** [entries.aggregate(Avg('final_grade'))['final_grade__avg']]: the mean
    of the grades that are not null, [None] when there is none. *)
Definition avg_final_grade (entries : list CompareResultTOR.t) : option Q :=
  let grades :=
    flat_map (fun r => match CompareResultTOR.final_grade r with
                       | Some g => [g]
                       | None => []
                       end) entries in
  match grades with
  | [] => None
  | _ => Some (Qred (fold_left Qplus grades 0 / inject_Z (Z.of_nat (List.length grades))))%Q
  end.

(** [sum(entry.total_academic_units for entry in entries)]. *)
Fixpoint sum_units (entries : list CompareResultTOR.t) (acc : Q) : result Q :=
  match entries with
  | [] => Ok acc
  | entry :: rest =>
      match CompareResultTOR.total_academic_units entry with
      | None => Raise TypeError
      | Some u => sum_units rest (Qred (acc + u))
      end
  end.

(** Dictionaries with string keys, in insertion order. *)
Fixpoint dict_get {V} (k : string) (dict : list (string * V)) : option V :=
  match dict with
  | [] => None
  | (k', v) :: rest => if String.eqb k' k then Some v else dict_get k rest
  end.

Definition get_comparison_statistics (account_id : string)
    : M (list (string * stat)) :=
  entries <- objects_filter account_id ;;
  let stats :=
    [("total", Count (List.length entries));
     ("accepted", Count (count_evaluation ACCEPTED entries));
     ("denied", Count (count_evaluation DENIED entries));
     ("void", Count (count_evaluation VOID entries));
     ("passed", Count (count_remarks "PASSED" entries));
     ("failed", Count (count_remarks "FAILED" entries))] in
  let average_grade :=
    match avg_final_grade entries with
    | Some avg_grade => if Qeq_bool avg_grade 0 then 0%Q else round2 avg_grade
    | None => 0%Q
    end in
  let stats := (stats ++ [("average_grade", Number average_grade)])%list in
  total_units <- lift (sum_units entries 0) ;;
  ret (stats ++ [("total_units", Number total_units)])%list.

End CurriculumService.

(** ** Entry points and the cells they write *)

(** The cells a computation writes, started on [d]: what it appends to the
    journal. *)
Definition cells_written {A} (c : M A) (d : db) : list (nat * column) :=
  skipn (List.length (written d)) (written (snd (c d))).

(** The computation writes column [col] of the row [i]. *)
Definition writes {A} (c : M A) (d : db) (i : nat) (col : column) : Prop :=
  In (i, col) (cells_written c d).

(** ** Notions the properties are stated with *)

(** The score of one catalog subject against an entry, as the matcher of
    [sync_curriculum_matching] computes it. *)
Definition match_score (tor : CompareResultTOR.t) (cit : CitTorContent.t) : Q :=
  calculate_similarity (CompareResultTOR.subject_description tor)
                       (join " " (CitTorContent.description cit)).

(** The entry points that change [CompareResultTOR] rows. *)
Inductive entry_point :=
| ApplyStandardGrading (account_id : string)
| ApplyReverseGrading (account_id : string)
| SyncCurriculumMatching (account_id : string)
| CopyTorEntries (account_id : string)
| UpdateTorResults (account_id : string) (failed_subjects : list string)
                   (passed_subjects : list (string * string)).

(** The cells one call of an entry point writes. *)
Definition cells_of (is_passing_grade : CompareResultTOR.t -> bool)
    (default_notes : string) (now : nat) (p : entry_point) (d : db)
    : list (nat * column) :=
  match p with
  | ApplyStandardGrading a =>
      cells_written (apply_standard_grading is_passing_grade a) d
  | ApplyReverseGrading a =>
      cells_written (apply_reverse_grading is_passing_grade a) d
  | SyncCurriculumMatching a =>
      cells_written (sync_curriculum_matching is_passing_grade a) d
  | CopyTorEntries a =>
      cells_written (copy_tor_entries default_notes now a) d
  | UpdateTorResults a failed passed =>
      cells_written (update_tor_results a failed passed) d
  end.

(** A journal in which a row has its summary written exactly when it has
    its remarks written. *)
Definition together (journal : list (nat * column)) : Prop :=
  forall i, In (i, summary_col) journal <-> In (i, remarks_col) journal.

(** The description line as section 4.4 (a) of the specification words it:
    the best similarity over the subjects that share the entry's subject
    code. *)
Definition description_line_same_code (entry : CompareResultTOR.t)
    (cit_entries : list CitTorContent.t) : summary_line :=
  description_line entry
    (filter (fun cit => String.eqb (CitTorContent.subject_code cit)
                                   (CompareResultTOR.subject_code entry))
            cit_entries).

(** The similarity of one description variant to an entry's description. *)
Definition variant_score (entry : CompareResultTOR.t) (desc : string) : Q :=
  calculate_similarity (CompareResultTOR.subject_description entry) desc.

(** The row [r] has the (account id, subject code) of the intake row [e]. *)
Definition has_key (e : TorTransferee.t) (r : CompareResultTOR.t) : bool :=
  String.eqb (CompareResultTOR.account_id r) (TorTransferee.account_id e)
  && String.eqb (CompareResultTOR.subject_code r) (TorTransferee.subject_code e).

(** Two rows with the same (account id, subject code). *)
Definition same_key (r c : CompareResultTOR.t) : Prop :=
  CompareResultTOR.account_id r = CompareResultTOR.account_id c
  /\ CompareResultTOR.subject_code r = CompareResultTOR.subject_code c.

(** The key of the statistics dictionary a disposition would be counted
    under. *)
Definition evaluation_key (v : CreditEvaluation) : string :=
  match v with
  | ACCEPTED => "accepted"
  | DENIED => "denied"
  | VOID => "void"
  | INVESTIGATE => "investigate"
  end.

(** The statistics query returns, for the account, a count under the key
    of each of the four dispositions. *)
Definition counts_every_disposition (account_id : string) (d : db) : Prop :=
  exists stats,
    fst (get_comparison_statistics account_id d) = Ok stats
    /\ forall v,
         dict_get (evaluation_key v) stats
         = Some (Count (count_evaluation v
                          (filter_account account_id (compare_result_tor d)))).

(** A block that lies within [a[alo:ahi]] and [b[blo:bhi]]. *)
Definition within (alo ahi blo bhi : nat) (m : Difflib.Match) : Prop :=
  alo <= Difflib.m_a m
  /\ Difflib.m_a m + Difflib.m_size m <= ahi
  /\ blo <= Difflib.m_b m
  /\ Difflib.m_b m + Difflib.m_size m <= bhi.

(** The lengths recorded for the position before [i] of the first
    sequence: no block recorded reaches back past [alo] or [blo]. *)
Definition row_ok (alo blo i : nat) (j2len : list (nat * nat)) : Prop :=
  forall j k, In (j, k) j2len -> k + alo <= i /\ k + blo <= j + 1.

(** Every entry point, on every database, writes the summary of a row
    exactly when it writes its remarks. *)
Definition always_together (is_passing_grade : CompareResultTOR.t -> bool)
    (default_notes : string) (now : nat) : Prop :=
  forall p d, together (cells_of is_passing_grade default_notes now p d).

(** The cells [bulk_update(objs, fields)] writes. *)
Definition bulk_cells (objs : list CompareResultTOR.t) (fields : list column)
    : list (nat * column) :=
  flat_map (fun o => map (fun c => (CompareResultTOR.id o, c)) fields) objs.

(** *** Sample data *)

(** An entry of account S100 with 3.5 units, and a catalog whose only
    subject has another code, the same description and 3 units. *)
Definition sample_entry : CompareResultTOR.t :=
  CompareResultTOR.mk 1 "S100" "CS101" "Data Structures"
    (Some (7 # 2)%Q) (Some (3 # 2)%Q) "PASSED" (Text "") VOID "" 0.

Definition sample_catalog : list CitTorContent.t :=
  [CitTorContent.mk "IT200" ["Data Structures"] 3 true].

(** An entry is passing when its remarks say so. *)
Definition passing_by_remarks (e : CompareResultTOR.t) : bool :=
  String.eqb (CompareResultTOR.remarks e) "PASSED".

(** A database with that entry and catalog, and two intake rows for S100:
    one for the subject the entry is about, one for another subject. *)
Definition sample_db : db :=
  mkdb [sample_entry] sample_catalog
       [TorTransferee.mk "S100" "CS101" "Data Structures"
          (Some (7 # 2)%Q) (Some (3 # 2)%Q) (Some "PASSED");
        TorTransferee.mk "S100" "MATH1" "Calculus" (Some 3%Q) (Some 2%Q) None]
       2 [].

(** The entries returned by copying the intake of S100 at time 7, and the
    database afterwards. *)
Definition sample_copied : list CompareResultTOR.t :=
  [sample_entry;
   CompareResultTOR.mk 2 "S100" "MATH1" "Calculus" (Some 3%Q) (Some 2%Q) ""
     (Text "") VOID "" 7].

Definition sample_db_copied : db :=
  mkdb sample_copied sample_catalog (tor_transferee sample_db) 3
       (map (fun c => (2, c)) all_columns).

(** A database whose only entry is to be investigated. *)
Definition investigate_db : db :=
  mkdb [CompareResultTOR.set_credit_evaluation INVESTIGATE sample_entry]
       sample_catalog [] 2 [].

(** A database with two entries for S100, the second without a grade. *)
Definition ungraded_db : db :=
  mkdb [sample_entry;
        CompareResultTOR.mk 2 "S100" "MATH1" "Calculus" (Some 3%Q) None ""
          (Text "") VOID "" 0]
       sample_catalog [] 3 [].

(** * The rest of the service *)

(** [str(n)] for a non-negative integer. *)
Definition str_of_nat (n : nat) : string :=
  NilEmpty.string_of_uint (Nat.to_uint n).

Definition set_notes (v : string) (e : CompareResultTOR.t) : CompareResultTOR.t :=
  CompareResultTOR.mk (CompareResultTOR.id e) (CompareResultTOR.account_id e)
    (CompareResultTOR.subject_code e) (CompareResultTOR.subject_description e)
    (CompareResultTOR.total_academic_units e) (CompareResultTOR.final_grade e)
    (CompareResultTOR.remarks e) (CompareResultTOR.summary e)
    (CompareResultTOR.credit_evaluation e) v (CompareResultTOR.updated_at e).

Section Evaluation.

(** The members of [CompareResultTOR.CreditEvaluation] with their values, in
    the order of their declaration: the enumeration is declared with the
    model, not with the service. *)
Variable evaluation_choices : list (CreditEvaluation * string).

(** What a row saved with [updated_at] among its [update_fields] gets in
    that column, from what it had: the model decides (the time of the
    call, if the field is refreshed on save). *)
Variable saved_at : nat -> nat.

(** [[choice.value for choice in CompareResultTOR.CreditEvaluation]]. *)
Definition valid_evaluations : list string := map snd evaluation_choices.

(** The member a valid value stands for. *)
Definition evaluation_of (evaluation : string) : option CreditEvaluation :=
  option_map fst
    (find (fun c => String.eqb (snd c) evaluation) evaluation_choices).

(** [entry.save(update_fields=['credit_evaluation', 'notes', 'updated_at'])]. *)
Definition save_evaluation (entry : CompareResultTOR.t) : M unit :=
  fun d =>
    (Ok tt,
     mkdb (map (fun r =>
                  if CompareResultTOR.id r =? CompareResultTOR.id entry
                  then CompareResultTOR.set_credit_evaluation
                         (CompareResultTOR.credit_evaluation entry)
                         (set_notes (CompareResultTOR.notes entry)
                            (CompareResultTOR.set_updated_at
                               (saved_at (CompareResultTOR.updated_at entry)) r))
                  else r)
               (compare_result_tor d))
          (cit_tor_content d) (tor_transferee d) (next_id d)
          (written d ++
           [(CompareResultTOR.id entry, credit_evaluation_col);
            (CompareResultTOR.id entry, notes_col);
            (CompareResultTOR.id entry, updated_at_col)])).

(** [CurriculumService.update_credit_evaluation]: the entry is looked up
    first, the evaluation is validated next. *)
Definition update_credit_evaluation (entry_id : nat) (evaluation : string)
    (notes : option string) : M CompareResultTOR.t :=
  fun d =>
    match filter (fun r => CompareResultTOR.id r =? entry_id)
                 (compare_result_tor d) with
    | [] =>
        (Raise (ResourceNotFoundException "CompareResultTOR" (str_of_nat entry_id)), d)
    | [entry] =>
        match evaluation_of evaluation with
        | None =>
            (Raise (ValidationException
                      ("Invalid evaluation. Must be one of: "
                       ++ join ", " valid_evaluations)), d)
        | Some v =>
            let entry := CompareResultTOR.set_credit_evaluation v entry in
            let entry :=
              match notes with
              | Some n => set_notes n entry
              | None => entry
              end in
            match save_evaluation entry d with
            | (Ok _, d') =>
                (Ok (CompareResultTOR.set_updated_at
                       (saved_at (CompareResultTOR.updated_at entry)) entry), d')
            | (Raise e, d') => (Raise e, d')
            end
        end
    | _ => (Raise MultipleObjectsReturned, d)
    end.

End Evaluation.

(** One dictionary of [get_tracker_accreditation]. *)
Record tracker_row := mk_tracker_row {
  tracker_account_id : string;
  tracker_subject_code : string;
  tracker_subject_description : string;
  tracker_credit_evaluation : CreditEvaluation
}.

(** [CurriculumService.get_tracker_accreditation]. *)
Definition get_tracker_accreditation (account_id : string) : M (list tracker_row) :=
  results <- objects_filter account_id ;;
  ret (map (fun r =>
              mk_tracker_row (CompareResultTOR.account_id r)
                (CompareResultTOR.subject_code r)
                (CompareResultTOR.subject_description r)
                (CompareResultTOR.credit_evaluation r))
           results).

(** ** Notions the further properties are stated with *)

(** Primary keys: the ids of the rows are distinct and below the next id
    the sequence gives. *)
Definition ids_fresh (d : db) : Prop :=
  NoDup (map CompareResultTOR.id (compare_result_tor d))
  /\ forall r, In r (compare_result_tor d) -> CompareResultTOR.id r < next_id d.

(** The row [get_or_create] builds for an intake row, under the id [n]. *)
Definition new_row (default_notes : string) (now : nat) (n : nat)
    (e : TorTransferee.t) : CompareResultTOR.t :=
  CompareResultTOR.mk n
    (TorTransferee.account_id e) (TorTransferee.subject_code e)
    (TorTransferee.subject_description e)
    (TorTransferee.total_academic_units e) (TorTransferee.final_grade e)
    (match TorTransferee.remarks e with Some r => r | None => "" end)
    (Text "") VOID default_notes now.

(** PASSED and FAILED exchanged. *)
Definition swap_remarks (r : result string) : result string :=
  match r with
  | Ok s =>
      if String.eqb s "PASSED" then Ok "FAILED"
      else if String.eqb s "FAILED" then Ok "PASSED"
      else Ok s
  | Raise e => Raise e
  end.

(** The remarks a row ends with after the updates of [passed_subjects], in
    order: those of the last listing of its subject. *)
Definition final_remarks (account_id : string)
    (passed_subjects : list (string * string)) (r : CompareResultTOR.t) : string :=
  fold_left
    (fun remarks subject =>
       if String.eqb (CompareResultTOR.account_id r) account_id
          && String.eqb (CompareResultTOR.subject_code r) (fst subject)
       then snd subject else remarks)
    passed_subjects (CompareResultTOR.remarks r).

(** A row is deleted by [update_tor_results]. *)
Definition doomed (account_id : string) (failed_subjects : list string)
    (r : CompareResultTOR.t) : bool :=
  String.eqb (CompareResultTOR.account_id r) account_id
  && existsb (String.eqb (CompareResultTOR.subject_code r)) failed_subjects.

(** The values of the enumeration, as a deployment may declare them. *)
Definition sample_choices : list (CreditEvaluation * string) :=
  [(ACCEPTED, "Accepted"); (DENIED, "Denied"); (VOID, "Void");
   (INVESTIGATE, "Investigate")].

(** *** Further sample data *)

(** The sample database after standard grading of S100, and what the call
    returns. *)
Definition sample_graded_db : db :=
  snd (apply_standard_grading passing_by_remarks "S100" sample_db).

Definition sample_graded : list CompareResultTOR.t :=
  [CompareResultTOR.set_summary
     (Report [SubjectCodeNoMatches; DescriptionMatch 100 (Some "IT200");
              UnitsMatch 3; GradePassing (Some (3 # 2)%Q)])
     sample_entry].

(** The sample database after matching S100, the entry as stored, and the
    row returned. *)
Definition sample_synced_db : db :=
  snd (sync_curriculum_matching passing_by_remarks "S100" sample_db).

Definition sample_synced_entry : CompareResultTOR.t :=
  CompareResultTOR.set_credit_evaluation ACCEPTED
    (CompareResultTOR.set_summary (MatchFound "IT200" 100 3 3) sample_entry).

Definition sample_sync_row : sync_row :=
  mk_sync_row "CS101" "Data Structures" (Some (7 # 2)%Q) (Some (3 # 2)%Q)
    "PASSED" (MatchFound "IT200" 100 3 3) ACCEPTED 100 (Some "IT200").

(** The statistics of S100 on the sample database. *)
Definition sample_stats : list (string * stat) :=
  [("total", Count 1); ("accepted", Count 0); ("denied", Count 0);
   ("void", Count 1); ("passed", Count 1); ("failed", Count 0);
   ("average_grade", Number (3 # 2)%Q); ("total_units", Number (7 # 2)%Q)].

(** * The profile service

    A shallow embedding of [MainServer/profiles/services.py] (class
    [ProfileService]), without [save_profile], whose reflective
    [hasattr]/[setattr] over arbitrary keyword names depends on every
    attribute of the model class, and without [get_profile_statistics],
    which averages a property of the model. *)

Module Profile.
Record t := mk {
  id : nat;
  user_id : string;
  name : option string;
  school_name : option string;
  email : option string;
  phone : option string;
  address : option string;
  date_of_birth : option string;
  is_complete : bool
}.

Definition set_id (v : nat) (p : t) : t :=
  mk v (user_id p) (name p) (school_name p) (email p) (phone p) (address p)
     (date_of_birth p) (is_complete p).
End Profile.

(** The exceptions of the profile service. *)
Inductive profile_exn :=
| ProfileValidation (message : string)
| ProfileNotFound (resource identifier : string)
| ProfileDuplicate (resource identifier : string)
| ProfileMultipleObjectsReturned.

Inductive profile_result (A : Type) :=
| POk (a : A)
| PRaise (e : profile_exn).
Arguments POk {A} a.
Arguments PRaise {A} e.

(** The [Profile] table and the sequence that numbers its rows. *)
Record profile_db := mk_profile_db {
  profiles : list Profile.t;
  next_profile_id : nat
}.

Definition PM (A : Type) : Type := profile_db -> profile_result A * profile_db.

(** The values of the profile statistics dictionary: Python integers and
    floats. *)
Inductive profile_stat :=
| PInt (n : Z)
| PFloat (x : Q).

(** Modelled from the spec: [atomic_transaction] of [core.decorators], on
    the profile table (section 5: one invocation is one all-or-nothing
    transaction). *)
Definition atomic_profile {A} (c : PM A) : PM A :=
  fun s =>
    match c s with
    | (POk a, s') => (POk a, s')
    | (PRaise e, _) => (PRaise e, s)
    end.

Section ProfileService.

(** What the model stores when an instance is saved: the model class, with
    its [save] method and the default of [is_complete], is declared
    elsewhere. *)
Variable model_save : Profile.t -> Profile.t.
Variable is_complete_default : bool.

(** The search of [name__icontains] and the like, which the database
    evaluates: [icontains field search]. *)
Variable icontains : option string -> string -> bool.

(** [Profile.objects.filter(user_id=user_id)], evaluated. *)
Definition profiles_of (user_id : string) (s : profile_db) : list Profile.t :=
  filter (fun p => String.eqb (Profile.user_id p) user_id) (profiles s).

(** [Profile.objects.get(user_id=user_id)], with [DoesNotExist] turned into
    [ResourceNotFoundException] as every caller does. *)
Definition get_profile (user_id : string) : PM Profile.t :=
  fun s =>
    match profiles_of user_id s with
    | [] => (PRaise (ProfileNotFound "Profile" user_id), s)
    | [p] => (POk p, s)
    | _ => (PRaise ProfileMultipleObjectsReturned, s)
    end.

(** [ProfileService.check_profile_exists]. *)
Definition check_profile_exists (user_id : string) (s : profile_db) : bool :=
  match profiles_of user_id s with
  | [] => false
  | _ => true
  end.

(** [ProfileService.create_profile], under its decorators.  The helper
    [_normalize] it defines is never called. *)
Definition create_profile_body (user_id : string)
    (name school_name email phone address date_of_birth : option string)
    : PM Profile.t :=
  fun s =>
    if falsy user_id then (PRaise (ProfileValidation "user_id is required"), s)
    else if check_profile_exists user_id s
    then (PRaise (ProfileDuplicate "Profile" user_id), s)
    else
      let profile :=
        Profile.set_id (next_profile_id s)
          (model_save
             (Profile.mk 0 user_id name school_name email phone address
                date_of_birth is_complete_default)) in
      (POk profile,
       mk_profile_db (profiles s ++ [profile]) (S (next_profile_id s))).

Definition create_profile (user_id : string)
    (name school_name email phone address date_of_birth : option string) :=
  atomic_profile
    (create_profile_body user_id name school_name email phone address
       date_of_birth).

(** [if v is not None: profile.f = v]. *)
Definition provided (v old : option string) : option string :=
  match v with
  | Some _ => v
  | None => old
  end.

(** [profile.save()] on an instance read from the table. *)
Definition save_row (profile : Profile.t) (s : profile_db) : profile_db :=
  mk_profile_db
    (map (fun r => if Profile.id r =? Profile.id profile then profile else r)
         (profiles s))
    (next_profile_id s).

(** [ProfileService.update_profile], under its decorators. *)
Definition update_profile_body (user_id : string)
    (name school_name email phone address date_of_birth : option string)
    : PM Profile.t :=
  fun s =>
    match get_profile user_id s with
    | (PRaise e, s') => (PRaise e, s')
    | (POk p, s') =>
        let profile :=
          Profile.set_id (Profile.id p)
            (model_save
               (Profile.mk (Profile.id p) (Profile.user_id p)
                  (provided name (Profile.name p))
                  (provided school_name (Profile.school_name p))
                  (provided email (Profile.email p))
                  (provided phone (Profile.phone p))
                  (provided address (Profile.address p))
                  (provided date_of_birth (Profile.date_of_birth p))
                  (Profile.is_complete p))) in
        (POk profile, save_row profile s')
    end.

Definition update_profile (user_id : string)
    (name school_name email phone address date_of_birth : option string) :=
  atomic_profile
    (update_profile_body user_id name school_name email phone address
       date_of_birth).

(** [ProfileService.delete_profile]. *)
Definition delete_profile (user_id : string) : PM bool :=
  fun s =>
    match get_profile user_id s with
    | (PRaise e, s') => (PRaise e, s')
    | (POk p, s') =>
        (POk true,
         mk_profile_db
           (filter (fun r => negb (Profile.id r =? Profile.id p)) (profiles s'))
           (next_profile_id s'))
    end.

(** [ProfileService.get_all_profiles]. *)
Definition get_all_profiles (is_complete : option bool) (search : option string)
    (s : profile_db) : list Profile.t :=
  let queryset := profiles s in
  let queryset :=
    match is_complete with
    | Some b => filter (fun p => Bool.eqb (Profile.is_complete p) b) queryset
    | None => queryset
    end in
  match search with
  | Some text =>
      if falsy text then queryset
      else
        filter (fun p =>
                  icontains (Profile.name p) text
                  || icontains (Profile.email p) text
                  || icontains (Profile.school_name p) text
                  || icontains (Some (Profile.user_id p)) text)
               queryset
  | None => queryset
  end.

(** [ProfileService.get_incomplete_profiles]. *)
Definition get_incomplete_profiles (s : profile_db) : list Profile.t :=
  filter (fun p => Bool.eqb (Profile.is_complete p) false) (profiles s).

(** [Profile.completion_percentage], a property of the model class. *)
Variable completion_percentage : Profile.t -> Q.

(** [sum(p.completion_percentage for p in profiles)]. *)
Definition sum_completion (rows : list Profile.t) : Q :=
  fold_left (fun acc p => acc + completion_percentage p)%Q rows 0%Q.

(** [ProfileService.get_profile_statistics].  Both conditional expressions
    give the integer 0 on an empty table and a float otherwise. *)
Definition get_profile_statistics (s : profile_db)
    : list (string * profile_stat) :=
  let total := Z.of_nat (List.length (profiles s)) in
  let complete :=
    Z.of_nat (List.length
                (filter (fun p => Bool.eqb (Profile.is_complete p) true)
                        (profiles s))) in
  let incomplete := (total - complete)%Z in
  let avg_completion :=
    if (0 <? total)%Z
    then PFloat (sum_completion (profiles s) / inject_Z total)%Q
    else PInt 0 in
  [("total", PInt total);
   ("complete", PInt complete);
   ("incomplete", PInt incomplete);
   ("completion_rate",
     if (0 <? total)%Z
     then PFloat (round2 (inject_Z complete / inject_Z total * 100)%Q)
     else PInt 0);
   ("average_completion",
     match avg_completion with
     | PFloat x => PFloat (round2 x)
     | PInt n => PInt n
     end)].

End ProfileService.

(** The profile table has one row per user id, with distinct ids below the
    next id of the sequence. *)
Definition profiles_ok (s : profile_db) : Prop :=
  NoDup (map Profile.user_id (profiles s))
  /\ NoDup (map Profile.id (profiles s))
  /\ forall p, In p (profiles s) -> Profile.id p < next_profile_id s.

(** A model whose [save] keeps the user id of the instance. *)
Definition keeps_user_id (model_save : Profile.t -> Profile.t) : Prop :=
  forall p, Profile.user_id (model_save p) = Profile.user_id p.

(** A profile table with one profile. *)
Definition sample_profiles : profile_db :=
  mk_profile_db
    [Profile.mk 1 "U1" (Some "Ana") None (Some "ana@example.org") None None
       None false]
    2.

(** * Properties *)

(** ** Comparisons of numbers *)

Lemma Qleb_le (x y : Q) : Qleb x y = true <-> (x <= y)%Q.
Proof.
  unfold Qleb. rewrite Qle_alt.
  destruct (x ?= y)%Q; split; intros; congruence.
Qed.

Lemma Qleb_gt (x y : Q) : Qleb x y = false <-> (y < x)%Q.
Proof.
  unfold Qleb. rewrite Qgt_alt.
  destruct (x ?= y)%Q; split; intros; congruence.
Qed.

Lemma Qltb_lt (x y : Q) : Qltb x y = true <-> (x < y)%Q.
Proof.
  unfold Qltb. rewrite Qlt_alt.
  destruct (x ?= y)%Q; split; intros; congruence.
Qed.

Lemma Qltb_ge (x y : Q) : Qltb x y = false <-> (y <= x)%Q.
Proof.
  unfold Qltb. rewrite Qge_alt.
  destruct (x ?= y)%Q; split; intros; congruence.
Qed.

(** ** Grading classification *)

Lemma between_spec (lo hi g : Q) :
  between lo (Some g) hi = Ok true <-> (lo <= g /\ g <= hi)%Q.
Proof.
  unfold between. split.
  - intros H. injection H as H. apply andb_true_iff in H.
    now rewrite !Qleb_le in H.
  - intros [H1 H2]. apply Qleb_le in H1, H2. now rewrite H1, H2.
Qed.

Lemma between_cases (lo hi g : Q) :
  (between lo (Some g) hi = Ok true /\ (lo <= g /\ g <= hi)%Q)
  \/ (between lo (Some g) hi = Ok false /\ ~ (lo <= g /\ g <= hi)%Q).
Proof.
  destruct (between lo (Some g) hi) as [[|]|e] eqn:E.
  - left. split; [reflexivity | now apply between_spec].
  - right. split; [reflexivity|]. intros H. apply between_spec in H. congruence.
  - discriminate.
Qed.

Lemma bands_disjoint (g : Q) :
  (STANDARD_PASSING_MIN <= g /\ g <= STANDARD_PASSING_MAX)%Q ->
  (STANDARD_FAILING_MIN <= g /\ g <= STANDARD_FAILING_MAX)%Q -> False.
Proof.
  unfold STANDARD_PASSING_MIN, STANDARD_PASSING_MAX,
    STANDARD_FAILING_MIN, STANDARD_FAILING_MAX.
  intros [_ H1] [H2 _]. lra.
Qed.

Lemma grading_entry_remarks (is_passing_grade : CompareResultTOR.t -> bool)
    (scale : option Q -> result string) (cit_entries : list CitTorContent.t)
    (entry entry' : CompareResultTOR.t) :
  grading_entry is_passing_grade scale cit_entries entry = Ok entry' ->
  scale (CompareResultTOR.final_grade entry) = Ok (CompareResultTOR.remarks entry')
  /\ generate_summary is_passing_grade
       (CompareResultTOR.set_remarks (CompareResultTOR.remarks entry') entry)
       cit_entries = Ok (CompareResultTOR.summary entry')
  /\ CompareResultTOR.id entry' = CompareResultTOR.id entry.
Proof.
  unfold grading_entry, rbind.
  destruct (scale _) as [r|]; [|discriminate].
  destruct (generate_summary _ _ _) as [s|] eqn:E; [|discriminate].
  intros H. injection H as <-. cbn. auto.
Qed.

(** C4.  Under the standard scale the remarks are PASSED exactly for grades
    in [1.0, 2.9], FAILED exactly for grades in [3.0, 5.0] and INVALID GRADE
    for every other grade; under the reverse scale PASSED and FAILED are
    exchanged.  The boundary grades 2.9 and 3.0 fall in one band each, and
    the remarks an entry leaves a grading turn with are those of its
    grade. *)
Theorem grading_classification (g : Q) :
  (standard_remarks (Some g) = Ok "PASSED" <-> (1 <= g /\ g <= 29 # 10)%Q)
  /\ (standard_remarks (Some g) = Ok "FAILED" <-> (3 <= g /\ g <= 5)%Q)
  /\ (standard_remarks (Some g) = Ok "INVALID GRADE"
      <-> ~ (1 <= g /\ g <= 29 # 10)%Q /\ ~ (3 <= g /\ g <= 5)%Q)
  /\ (reverse_remarks (Some g) = Ok "PASSED" <-> (3 <= g /\ g <= 5)%Q)
  /\ (reverse_remarks (Some g) = Ok "FAILED" <-> (1 <= g /\ g <= 29 # 10)%Q)
  /\ (reverse_remarks (Some g) = Ok "INVALID GRADE"
      <-> ~ (1 <= g /\ g <= 29 # 10)%Q /\ ~ (3 <= g /\ g <= 5)%Q)
  /\ standard_remarks (Some (29 # 10)%Q) = Ok "PASSED"
  /\ standard_remarks (Some 3%Q) = Ok "FAILED"
  /\ reverse_remarks (Some (29 # 10)%Q) = Ok "FAILED"
  /\ reverse_remarks (Some 3%Q) = Ok "PASSED"
  /\ (forall is_passing_grade cit_entries entry,
        CompareResultTOR.final_grade entry = Some g ->
        match grading_entry is_passing_grade standard_remarks cit_entries entry with
        | Ok entry' => standard_remarks (Some g) = Ok (CompareResultTOR.remarks entry')
        | Raise _ => True
        end
        /\ match grading_entry is_passing_grade reverse_remarks cit_entries entry with
           | Ok entry' => reverse_remarks (Some g) = Ok (CompareResultTOR.remarks entry')
           | Raise _ => True
           end).
Proof.
  pose proof (@bands_disjoint g) as D.
  change STANDARD_PASSING_MIN with 1%Q in D.
  change STANDARD_PASSING_MAX with (29 # 10)%Q in D.
  change STANDARD_FAILING_MIN with 3%Q in D.
  change STANDARD_FAILING_MAX with 5%Q in D.
  assert (Hlink : forall is_passing_grade cit_entries entry,
        CompareResultTOR.final_grade entry = Some g ->
        match grading_entry is_passing_grade standard_remarks cit_entries entry with
        | Ok entry' => standard_remarks (Some g) = Ok (CompareResultTOR.remarks entry')
        | Raise _ => True
        end
        /\ match grading_entry is_passing_grade reverse_remarks cit_entries entry with
           | Ok entry' => reverse_remarks (Some g) = Ok (CompareResultTOR.remarks entry')
           | Raise _ => True
           end).
  { intros ip cits entry Hg. split.
    all: match goal with
         | |- match ?t with _ => _ end =>
             destruct t as [e'|] eqn:E; [|exact I];
             apply grading_entry_remarks in E; destruct E as (E & _);
             now rewrite Hg in E
         end. }
  repeat match goal with |- _ /\ _ => split end; try exact Hlink; clear Hlink.
  all: unfold standard_remarks, reverse_remarks, rbind.
  all: change STANDARD_PASSING_MIN with 1%Q;
    change STANDARD_PASSING_MAX with (29 # 10)%Q;
    change STANDARD_FAILING_MIN with 3%Q;
    change STANDARD_FAILING_MAX with 5%Q.
  all: try reflexivity.
  all: destruct (between_cases 1 (29 # 10) g) as [[E1 P]|[E1 P]];
    destruct (between_cases 3 5 g) as [[E2 F]|[E2 F]];
    rewrite ?E1, ?E2; rewrite ?E1, ?E2;
    split; intros; try reflexivity; try tauto; try discriminate.
Qed.

(** ** Loops that keep a strict maximum *)

Section StrictMax.

Variables (S X : Type).
Variable val : S -> Q.
Variable score : X -> Q.
Variable mk : X -> S.
Variable step : S -> X -> S.

Hypothesis step_eq :
  forall s x, step s x = if Qltb (val s) (score x) then mk x else s.
Hypothesis val_mk : forall x, val (mk x) = score x.

(** Either no element beats the initial value and the state is unchanged,
    or the state is that of the first element with the greatest score. *)
Lemma strict_max_fold (l : list X) : forall s,
  (fold_left step l s = s /\ forall x, In x l -> (score x <= val s)%Q)
  \/ (exists l1 c l2,
        l = (l1 ++ c :: l2)%list
        /\ fold_left step l s = mk c
        /\ (val s < score c)%Q
        /\ (forall x, In x l1 -> (score x < score c)%Q)
        /\ (forall x, In x l2 -> (score x <= score c)%Q)).
Proof.
  induction l as [|x l IH]; intros s; cbn [fold_left].
  - left. split; [reflexivity | intros x []].
  - rewrite step_eq. destruct (Qltb (val s) (score x)) eqn:E.
    + apply Qltb_lt in E. right.
      destruct (IH (mk x)) as [[Hf Hall] | (l1 & c & l2 & -> & Hf & Hlt & H1 & H2)].
      * exists [], x, l. rewrite val_mk in Hall. cbn.
        repeat split; auto. intros y [].
      * rewrite val_mk in Hlt. exists (x :: l1), c, l2. cbn.
        repeat split; auto.
        -- lra.
        -- intros y [<- | Hy]; auto.
    + apply Qltb_ge in E.
      destruct (IH s) as [[Hf Hall] | (l1 & c & l2 & -> & Hf & Hlt & H1 & H2)].
      * left. split; [exact Hf|]. intros y [<- | Hy]; auto.
      * right. exists (x :: l1), c, l2. cbn.
        repeat split; auto.
        intros y [<- | Hy]; auto. lra.
Qed.

End StrictMax.

(** ** The curriculum matcher *)

Lemma find_best_match_cases (tor : CompareResultTOR.t)
    (cit_contents : list CitTorContent.t) :
  (find_best_match tor cit_contents = (None, 0%Q)
   /\ forall cit, In cit cit_contents -> (match_score tor cit <= 0)%Q)
  \/ (exists l1 c l2,
        cit_contents = (l1 ++ c :: l2)%list
        /\ find_best_match tor cit_contents = (Some c, match_score tor c)
        /\ (0 < match_score tor c)%Q
        /\ (forall x, In x l1 -> (match_score tor x < match_score tor c)%Q)
        /\ (forall x, In x l2 -> (match_score tor x <= match_score tor c)%Q)).
Proof.
  unfold find_best_match.
  apply (@strict_max_fold (option CitTorContent.t * Q) CitTorContent.t
           snd (match_score tor) (fun c => (Some c, match_score tor c)));
    reflexivity.
Qed.

(** C6.  The matcher keeps the maximum with a strict comparison: when some
    subject scores above zero, the best match is the first subject of the
    catalog, in iteration order, that attains the greatest score (every
    subject before it scores strictly less, every subject after it at most
    as much); when none does, there is no best match and the score is 0. *)
Theorem find_best_match_first_wins (tor : CompareResultTOR.t)
    (cit_contents : list CitTorContent.t) :
  match find_best_match tor cit_contents with
  | (Some c, best_accuracy) =>
      best_accuracy = match_score tor c
      /\ (0 < best_accuracy)%Q
      /\ exists l1 l2,
           cit_contents = (l1 ++ c :: l2)%list
           /\ (forall x, In x l1 -> (match_score tor x < best_accuracy)%Q)
           /\ (forall x, In x l2 -> (match_score tor x <= best_accuracy)%Q)
  | (None, best_accuracy) =>
      best_accuracy = 0%Q
      /\ forall x, In x cit_contents -> (match_score tor x <= 0)%Q
  end.
Proof.
  destruct (find_best_match_cases tor cit_contents)
    as [[-> Hall] | (l1 & c & l2 & Hl & -> & Hpos & H1 & H2)].
  - split; [reflexivity | exact Hall].
  - split; [reflexivity|]. split; [exact Hpos|]. exists l1, l2. auto.
Qed.

(** ** The disposition decision *)

Lemma evaluate_entry_credit (is_passing_grade : CompareResultTOR.t -> bool)
    (tor tor' : CompareResultTOR.t) (best_match : option CitTorContent.t)
    (s : Q) :
  evaluate_entry is_passing_grade tor best_match s = Ok tor' ->
  let passing :=
    is_passing_grade (CompareResultTOR.set_summary (CompareResultTOR.summary tor') tor) in
  ((s < 20)%Q -> CompareResultTOR.credit_evaluation tor' = INVESTIGATE)
  /\ ((20 <= s)%Q -> (80 <= s)%Q -> passing = true ->
      CompareResultTOR.credit_evaluation tor' = ACCEPTED)
  /\ ((20 <= s)%Q -> (50 <= s)%Q -> ~ ((80 <= s)%Q /\ passing = true) ->
      CompareResultTOR.credit_evaluation tor' = VOID)
  /\ ((20 <= s)%Q -> (s < 50)%Q ->
      CompareResultTOR.credit_evaluation tor' = DENIED).
Proof.
  unfold evaluate_entry, SIMILARITY_THRESHOLD, rbind.
  destruct (Qleb 20 s) eqn:E20; [apply Qleb_le in E20 | apply Qleb_gt in E20].
  - destruct best_match as [cit|]; [|discriminate].
    destruct (int_units _) as [u|]; [|discriminate].
    destruct (Qleb 80 s) eqn:E80; [apply Qleb_le in E80 | apply Qleb_gt in E80];
      cbn [andb].
    + destruct (is_passing_grade _) eqn:Ep.
      * intros H. injection H as <-. cbn. rewrite Ep.
        repeat split; intros; try reflexivity; try lra; try tauto.
      * assert (E50 : Qleb 50 s = true) by (apply Qleb_le; lra).
        rewrite E50. intros H. injection H as <-. cbn. rewrite Ep.
        repeat split; intros; try reflexivity; try lra; try discriminate.
    + destruct (Qleb 50 s) eqn:E50; [apply Qleb_le in E50 | apply Qleb_gt in E50];
        intros H; injection H as <-; cbn;
        repeat split; intros; try reflexivity; try lra.
  - intros H. injection H as <-. cbn.
    repeat split; intros; try reflexivity; lra.
Qed.

Lemma evaluate_entry_returns (is_passing_grade : CompareResultTOR.t -> bool)
    (tor : CompareResultTOR.t) (cit_contents : list CitTorContent.t) :
  CompareResultTOR.total_academic_units tor <> None
  \/ (snd (find_best_match tor cit_contents) < 20)%Q ->
  exists tor',
    evaluate_entry is_passing_grade tor (fst (find_best_match tor cit_contents))
                   (snd (find_best_match tor cit_contents)) = Ok tor'.
Proof.
  intros H. unfold evaluate_entry, SIMILARITY_THRESHOLD, rbind.
  destruct (Qleb 20 _) eqn:E20; [apply Qleb_le in E20 | eauto].
  destruct (find_best_match_cases tor cit_contents)
    as [[E _] | (l1 & c & l2 & _ & E & _)]; rewrite E in *; cbn [fst snd] in *.
  - lra.
  - destruct H as [H|H]; [|lra].
    destruct (CompareResultTOR.total_academic_units tor) as [u|]; [|congruence].
    cbn. destruct (_ && _); [eauto|]. destruct (Qleb 50 _); eauto.
Qed.

Lemma for_each_Forall2 {A B} (body : A -> result B) (l : list A) :
  forall ys, for_each body l = Ok ys ->
             Forall2 (fun x y => body x = Ok y) l ys.
Proof.
  induction l as [|x l IH]; cbn; intros ys H.
  - injection H as <-. constructor.
  - unfold rbind in H. destruct (body x) as [y|] eqn:E; [|discriminate].
    destruct (for_each body l) as [ys'|]; [|discriminate].
    injection H as <-. constructor; auto.
Qed.

Lemma for_each_raises {A B} (body : A -> result B) (l : list A) :
  (exists x e, In x l /\ body x = Raise e) ->
  exists e, for_each body l = Raise e.
Proof.
  induction l as [|x l IH]; intros (x0 & e & Hin & Hx).
  - destruct Hin.
  - cbn. unfold rbind. destruct (body x) as [y|e'] eqn:E; [|eauto].
    destruct Hin as [-> | Hin]; [congruence|].
    destruct IH as [e1 ->]; eauto.
Qed.

Lemma for_each_returns {A B} (body : A -> result B) (l : list A) :
  (forall x, In x l -> exists y, body x = Ok y) ->
  exists ys, for_each body l = Ok ys.
Proof.
  induction l as [|x l IH]; intros H; cbn; [eauto|].
  destruct (H x) as [y ->]; [now left|].
  destruct IH as [ys ->]; [intros; apply H; now right|].
  cbn. eauto.
Qed.

(** What [sync_curriculum_matching] does, by cases. *)
Lemma sync_body_cases (is_passing_grade : CompareResultTOR.t -> bool)
    (account_id : string) (d : db) :
  let tor_entries := filter_account account_id (compare_result_tor d) in
  let cit_contents := filter CitTorContent.is_active (cit_tor_content d) in
  sync_curriculum_matching_body is_passing_grade account_id d =
  if falsy account_id
  then (Raise (ValidationException "Account ID is required"), d)
  else
    match tor_entries with
    | [] => (Raise (ResourceNotFoundException "TOR entries" account_id), d)
    | _ =>
        match for_each (sync_entry is_passing_grade cit_contents) tor_entries with
        | Ok results =>
            (Ok (map snd results),
             snd (bulk_update (map fst results)
                    [summary_col; credit_evaluation_col; updated_at_col] d))
        | Raise e => (Raise e, d)
        end
    end.
Proof.
  unfold sync_curriculum_matching_body.
  destruct (falsy account_id); [reflexivity|].
  unfold bind, objects_filter, active_cit, lift, raise, ret. cbn.
  destruct (filter_account account_id (compare_result_tor d)) as [|t ts] eqn:E;
    [reflexivity|].
  destruct (for_each _ _); reflexivity.
Qed.

(** C1.  For an entry that [sync_curriculum_matching] processes, with [s]
    the best score over the catalog it is matched against: the evaluation
    is INVESTIGATE when [s < 20]; ACCEPTED when [s >= 20], [s >= 80] and the
    entry is passing; VOID when [s >= 20] and [s >= 50] but not both
    [s >= 80] and passing; DENIED when [s >= 20] and [s < 50].  Both
    boundaries are inclusive.  The entry is evaluated whenever its units are
    a number or [s < 20], and the rows the call returns are those of its
    entries against the active catalog. *)
Theorem sync_disposition (is_passing_grade : CompareResultTOR.t -> bool)
    (cit_contents : list CitTorContent.t) (tor : CompareResultTOR.t) :
  let s := snd (find_best_match tor cit_contents) in
  (CompareResultTOR.total_academic_units tor <> None \/ (s < 20)%Q ->
   exists tor' row, sync_entry is_passing_grade cit_contents tor = Ok (tor', row))
  /\ (forall tor' row,
        sync_entry is_passing_grade cit_contents tor = Ok (tor', row) ->
        let passing :=
          is_passing_grade
            (CompareResultTOR.set_summary (CompareResultTOR.summary tor') tor) in
        ((s < 20)%Q -> CompareResultTOR.credit_evaluation tor' = INVESTIGATE)
        /\ ((20 <= s)%Q -> (80 <= s)%Q -> passing = true ->
            CompareResultTOR.credit_evaluation tor' = ACCEPTED)
        /\ ((20 <= s)%Q -> (50 <= s)%Q -> ~ ((80 <= s)%Q /\ passing = true) ->
            CompareResultTOR.credit_evaluation tor' = VOID)
        /\ ((20 <= s)%Q -> (s < 50)%Q ->
            CompareResultTOR.credit_evaluation tor' = DENIED)
        /\ row_credit_evaluation row = CompareResultTOR.credit_evaluation tor')
  /\ (forall account_id d result_data d',
        sync_curriculum_matching_body is_passing_grade account_id d
          = (Ok result_data, d') ->
        Forall2
          (fun entry row =>
             exists entry',
               sync_entry is_passing_grade
                 (filter CitTorContent.is_active (cit_tor_content d)) entry
               = Ok (entry', row))
          (filter_account account_id (compare_result_tor d)) result_data).
Proof.
  intros s. split; [|split].
  - intros H. destruct (evaluate_entry_returns is_passing_grade tor cit_contents H)
      as [tor' E].
    unfold sync_entry. destruct (find_best_match tor cit_contents) as [bm acc].
    cbn [fst snd] in E. rewrite E. cbn. eauto.
  - intros tor' row. unfold sync_entry. subst s.
    destruct (find_best_match tor cit_contents) as [bm acc]. cbn [snd].
    unfold rbind. destruct (evaluate_entry _ _ _ _) as [t|] eqn:E; [|discriminate].
    intros H. injection H as <- <-.
    pose proof (evaluate_entry_credit _ _ _ _ E) as (H1 & H2 & H3 & H4).
    cbn [row_credit_evaluation]. repeat split; assumption.
  - intros account_id d result_data d'. rewrite sync_body_cases.
    destruct (falsy account_id); [discriminate|].
    destruct (filter_account _ _) as [|t ts] eqn:Ef; [discriminate|].
    destruct (for_each _ _) as [results|] eqn:E; [|discriminate].
    intros H. injection H as <- _.
    apply for_each_Forall2 in E. clear Ef.
    induction E as [|x [y r] l l' Hxy _ IH]; cbn; constructor; eauto.
Qed.

(** ** The narrative summary *)

Lemma fold_left_variants (entry : CompareResultTOR.t) (cit : CitTorContent.t)
    (descs : list string) : forall best,
  fold_left (fun best p => description_step entry (fst p) best (snd p))
            (map (pair cit) descs) best
  = fold_left (description_step entry cit) descs best.
Proof.
  induction descs as [|d descs IH]; intros best; cbn; [reflexivity | apply IH].
Qed.

(** The two nested loops are one loop over the variants of the catalog. *)
Lemma best_description_flat (entry : CompareResultTOR.t)
    (cit_entries : list CitTorContent.t) :
  best_description entry cit_entries
  = fold_left (fun best p => description_step entry (fst p) best (snd p))
      (flat_map (fun cit => map (pair cit) (CitTorContent.description cit))
                cit_entries)
      (0%Q, None).
Proof.
  unfold best_description. generalize (0%Q, @None string).
  induction cit_entries as [|cit cits IH]; intros best; cbn; [reflexivity|].
  rewrite fold_left_app, fold_left_variants. apply IH.
Qed.

Lemma best_description_cases (entry : CompareResultTOR.t)
    (cit_entries : list CitTorContent.t) :
  (best_description entry cit_entries = (0%Q, None)
   /\ forall cit desc, In cit cit_entries ->
        In desc (CitTorContent.description cit) ->
        (variant_score entry desc <= 0)%Q)
  \/ (exists cit desc,
        In cit cit_entries /\ In desc (CitTorContent.description cit)
        /\ best_description entry cit_entries
           = (variant_score entry desc, Some (CitTorContent.subject_code cit))
        /\ (0 < variant_score entry desc)%Q
        /\ forall cit' desc', In cit' cit_entries ->
             In desc' (CitTorContent.description cit') ->
             (variant_score entry desc' <= variant_score entry desc)%Q).
Proof.
  rewrite best_description_flat.
  set (pairs := flat_map _ cit_entries).
  assert (Hin : forall cit desc,
             In cit cit_entries -> In desc (CitTorContent.description cit) ->
             In (cit, desc) pairs).
  { intros cit desc H1 H2. apply in_flat_map. exists cit. split; [exact H1|].
    now apply in_map. }
  assert (Hni : forall p, In p pairs ->
             In (fst p) cit_entries /\ In (snd p) (CitTorContent.description (fst p))).
  { intros p H. apply in_flat_map in H. destruct H as (cit & H1 & H2).
    apply in_map_iff in H2. destruct H2 as (desc & <- & H2). now cbn. }
  destruct (@strict_max_fold (Q * option string) (CitTorContent.t * string)
              fst (fun p => variant_score entry (snd p))
              (fun p => (variant_score entry (snd p),
                         Some (CitTorContent.subject_code (fst p))))
              (fun best p => description_step entry (fst p) best (snd p))
              (fun s x => eq_refl) (fun x => eq_refl) pairs (0%Q, None))
    as [[Hf Hall] | (l1 & [c dc] & l2 & Hl & Hf & Hlt & H1 & H2)].
  - left. split; [exact Hf|]. intros cit desc Hc Hd.
    apply (Hall (cit, desc)). auto.
  - right. cbn [fst snd] in *. exists c, dc.
    destruct (Hni (c, dc)) as [Hc Hd]; [rewrite Hl; apply in_elt|].
    repeat split; auto.
    intros cit' desc' Hc' Hd'. pose proof (Hin _ _ Hc' Hd') as Hp.
    rewrite Hl in Hp. apply in_app_or in Hp.
    destruct Hp as [Hp | [Hp | Hp]].
    + apply Qlt_le_weak. apply (H1 _ Hp).
    + injection Hp as _ <-. apply Qle_refl.
    + apply (H2 _ Hp).
Qed.

(** C2, as the code has it.  The description line reports the best
    similarity over every description variant of every subject of the
    catalog the summary is generated against, whatever its subject code
    (the first variant attaining the greatest score names the subject); the
    line is the good one from 80, the review one from 50, else the low
    one. *)
Theorem description_line_whole_catalog (entry : CompareResultTOR.t)
    (cit_entries : list CitTorContent.t) :
  let best := fst (best_description entry cit_entries) in
  (forall cit desc,
      In cit cit_entries -> In desc (CitTorContent.description cit) ->
      (variant_score entry desc <= best)%Q)
  /\ (best_description entry cit_entries = (0%Q, None)
      \/ exists cit desc,
           In cit cit_entries /\ In desc (CitTorContent.description cit)
           /\ best_description entry cit_entries
              = (variant_score entry desc, Some (CitTorContent.subject_code cit)))
  /\ ((80 <= best)%Q ->
      description_line entry cit_entries
      = DescriptionMatch best (snd (best_description entry cit_entries))
      /\ marker_of (description_line entry cit_entries) = Good)
  /\ ((50 <= best)%Q -> (best < 80)%Q ->
      description_line entry cit_entries
      = DescriptionReview best (snd (best_description entry cit_entries))
      /\ marker_of (description_line entry cit_entries) = Warn)
  /\ ((best < 50)%Q ->
      description_line entry cit_entries = DescriptionLow best
      /\ marker_of (description_line entry cit_entries) = Bad).
Proof.
  intros best. split; [|split].
  - subst best.
    destruct (best_description_cases entry cit_entries)
      as [[-> Hall] | (c & dc & _ & _ & -> & _ & Hall)]; cbn [fst]; auto.
  - destruct (best_description_cases entry cit_entries)
      as [[E _] | (c & dc & Hc & Hd & E & _)]; [now left|].
    right. exists c, dc. auto.
  - subst best. unfold description_line.
    destruct (best_description entry cit_entries) as [b subj]. cbn [fst snd].
    split; [|split].
    + intros H. apply Qleb_le in H. now rewrite H.
    + intros H H0. apply Qleb_le in H. apply Qleb_gt in H0. now rewrite H0, H.
    + intros H. assert (H80 : Qleb 80 b = false) by (apply Qleb_gt; lra).
      apply Qleb_gt in H. now rewrite H80, H.
Qed.

(** C2 as claimed fails: for an entry whose subject code no catalog subject
    carries, but whose description one of them has word for word, the line
    reports a 100% match with that subject, while the best over the
    subjects of the same code is 0. *)
Lemma description_line_not_same_code :
  description_line sample_entry sample_catalog
  <> description_line_same_code sample_entry sample_catalog.
Proof. vm_compute. discriminate. Qed.

(** ** The units check *)

Lemma int_of_truncates (u : Q) :
  ((0 <= u)%Q -> (inject_Z (int_of u) <= u)%Q /\ (u < inject_Z (int_of u) + 1)%Q)
  /\ ((u <= 0)%Q -> (u <= inject_Z (int_of u))%Q /\ (inject_Z (int_of u) - 1 < u)%Q).
Proof.
  destruct u as [n d]. unfold int_of, Qle, Qlt. cbn.
  pose proof (Z.quot_rem' n (Zpos d)) as E.
  split; intros H.
  - assert (Hn : (0 <= n)%Z) by lia.
    pose proof (Z.rem_bound_pos n (Zpos d) Hn ltac:(lia)). nia.
  - assert (Hn : (n <= 0)%Z) by lia.
    pose proof (Z.rem_bound_pos_neg n (Zpos d) ltac:(lia) Hn). nia.
Qed.

(** C10.  The units check truncates the entry's units toward zero before
    comparing them with the curriculum's unit counts: the third line of the
    summary says the units match exactly when some subject has
    [int(units)] units.  With 3.5 units and a subject of 3 units, the line
    is the matching one, for 3 units. *)
Theorem units_check_truncates (is_passing_grade : CompareResultTOR.t -> bool)
    (entry : CompareResultTOR.t) (cit_entries : list CitTorContent.t) (u : Q) :
  CompareResultTOR.total_academic_units entry = Some u ->
  let line :=
    if existsb (fun cit => (CitTorContent.units cit =? int_of u)%Z) cit_entries
    then UnitsMatch (int_of u) else UnitsVerify (int_of u) in
  units_line entry cit_entries = Ok line
  /\ generate_summary is_passing_grade entry cit_entries
     = Ok (Report [subject_code_line entry cit_entries;
                   description_line entry cit_entries;
                   line;
                   grade_line is_passing_grade entry])
  /\ ((0 <= u)%Q -> (inject_Z (int_of u) <= u)%Q /\ (u < inject_Z (int_of u) + 1)%Q)
  /\ ((u <= 0)%Q -> (u <= inject_Z (int_of u))%Q /\ (inject_Z (int_of u) - 1 < u)%Q)
  /\ units_line sample_entry sample_catalog = Ok (UnitsMatch 3).
Proof.
  intros Hu line.
  assert (E : units_line entry cit_entries = Ok line).
  { unfold units_line. rewrite Hu. cbn. subst line.
    now destruct (existsb _ _). }
  split; [exact E|]. split.
  - unfold generate_summary. now rewrite E.
  - pose proof (int_of_truncates u) as [H1 H2]. repeat split; auto; apply H1 || apply H2; auto.
Qed.

Lemma units_check_truncates_witness :
  CompareResultTOR.total_academic_units sample_entry = Some (7 # 2)%Q
  /\ units_line sample_entry sample_catalog = Ok (UnitsMatch 3).
Proof.
  split; [reflexivity|].
  apply (units_check_truncates passing_by_remarks sample_entry sample_catalog
           (u := (7 # 2)%Q)).
  reflexivity.
Defined.

(** ** Copying entries from the intake *)

Lemma filter_none {A} (f : A -> bool) (l : list A) :
  filter f l = [] <-> forall x, In x l -> f x = false.
Proof.
  induction l as [|x l IH]; cbn.
  - split; [intros _ y [] | reflexivity].
  - destruct (f x) eqn:E; split.
    + discriminate.
    + intros H. specialize (H x (or_introl eq_refl)). congruence.
    + intros H y [<- | Hy]; [exact E | now apply IH].
    + intros H. apply IH. auto.
Qed.

Lemma atomic_transaction_ok {A} (c : M A) (d d' : db) (a : A) :
  c d = (Ok a, d') -> atomic_transaction c d = (Ok a, d').
Proof. unfold atomic_transaction. now intros ->. Qed.

Lemma atomic_transaction_raise {A} (c : M A) (d d' : db) (e : exn) :
  c d = (Raise e, d') -> atomic_transaction c d = (Raise e, d).
Proof. unfold atomic_transaction. now intros ->. Qed.

Section Copy.

Variable default_notes : string.
Variable now : nat.

Lemma has_key_spec (e : TorTransferee.t) (r : CompareResultTOR.t) :
  has_key e r = true
  <-> CompareResultTOR.account_id r = TorTransferee.account_id e
      /\ CompareResultTOR.subject_code r = TorTransferee.subject_code e.
Proof.
  unfold has_key. now rewrite andb_true_iff, !String.eqb_eq.
Qed.

Lemma get_or_create_found (e : TorTransferee.t) (d : db) (r : CompareResultTOR.t) :
  filter (has_key e) (compare_result_tor d) = [r] ->
  get_or_create default_notes now e d = (Ok (r, false), d).
Proof.
  intros H. unfold get_or_create. fold (has_key e). now rewrite H.
Qed.

(** When every intake row finds exactly one row, the loop creates
    nothing and leaves the database as it is. *)
Lemma copy_loop_found (l : list TorTransferee.t) (d : db) :
  forall rs acc cnt,
    Forall2 (fun e r => filter (has_key e) (compare_result_tor d) = [r]) l rs ->
    copy_loop default_notes now l acc cnt d = (Ok ((acc ++ rs)%list, cnt), d).
Proof.
  induction l as [|e l IH]; intros rs acc cnt H; inversion H; subst; cbn.
  - unfold ret. now rewrite app_nil_r.
  - unfold bind. rewrite (get_or_create_found _ _ H2). cbn [fst snd].
    rewrite (IH _ _ _ H4). now rewrite <- app_assoc.
Qed.

(** A successful run of the loop: the table grows by the rows created,
    whose keys were absent, and afterwards every intake row finds exactly
    the row that was returned for it. *)
Lemma copy_loop_first (l : list TorTransferee.t) :
  forall d acc cnt es cnt' d1,
    copy_loop default_notes now l acc cnt d = (Ok (es, cnt'), d1) ->
    exists rs created,
      es = (acc ++ rs)%list
      /\ compare_result_tor d1 = (compare_result_tor d ++ created)%list
      /\ tor_transferee d1 = tor_transferee d
      /\ cit_tor_content d1 = cit_tor_content d
      /\ cnt' = cnt + List.length created
      /\ (forall c r, In c created -> In r (compare_result_tor d) -> ~ same_key r c)
      /\ Forall2 (fun e r => filter (has_key e) (compare_result_tor d1) = [r]) l rs.
Proof.
  induction l as [|e l IH]; intros d acc cnt es cnt' d1; cbn.
  - unfold ret. intros H. injection H as <- <- <-.
    exists [], []. rewrite !app_nil_r, Nat.add_0_r.
    repeat split; auto; try (intros c r []).
  - unfold bind, get_or_create. fold (has_key e).
    destruct (filter (has_key e) (compare_result_tor d)) as [|r [|r' rest]] eqn:Ef.
    + (* created *)
      cbn [fst snd]. intros H. apply IH in H.
      destruct H as (rs & created & -> & Hrows & Htr & Hcit & -> & Hfresh & Hall).
      cbn [compare_result_tor tor_transferee cit_tor_content] in *.
      set (r := CompareResultTOR.mk _ _ _ _ _ _ _ _ _ _ _) in *.
      assert (Hr : has_key e r = true).
      { apply has_key_spec. now cbn. }
      exists (r :: rs), (r :: created).
      rewrite <- app_assoc in Hrows. cbn in Hrows.
      repeat split; auto.
      * now rewrite <- app_assoc.
      * cbn. lia.
      * intros c x [<- | Hc] Hx.
        -- intros [K1 K2]. pose proof (proj1 (filter_none _ _) Ef x Hx) as Hk.
           assert (has_key e x = true); [|congruence].
           apply has_key_spec. apply has_key_spec in Hr. destruct Hr.
           split; congruence.
        -- apply Hfresh; [exact Hc | apply in_or_app; now left].
      * constructor; [|exact Hall].
        rewrite Hrows, filter_app, Ef. cbn. rewrite Hr.
        f_equal. apply filter_none. intros c Hc.
        destruct (has_key e c) eqn:Ek; [|reflexivity]. exfalso.
        apply (Hfresh c r Hc); [apply in_or_app; right; now left|].
        apply has_key_spec in Ek, Hr. destruct Ek, Hr. split; congruence.
    + (* found *)
      cbn [fst snd]. intros H. apply IH in H.
      destruct H as (rs & created & -> & Hrows & Htr & Hcit & -> & Hfresh & Hall).
      exists (r :: rs), created.
      repeat split; auto.
      * now rewrite <- app_assoc.
      * constructor; [|exact Hall].
        rewrite Hrows, filter_app, Ef. cbn. f_equal.
        apply filter_none. intros c Hc.
        destruct (has_key e c) eqn:Ek; [|reflexivity]. exfalso.
        assert (Hr : In r (filter (has_key e) (compare_result_tor d)))
          by (rewrite Ef; now left).
        apply filter_In in Hr. destruct Hr as [Hin Hr].
        apply (Hfresh c r Hc Hin).
        apply has_key_spec in Ek, Hr. destruct Ek, Hr. split; congruence.
    + discriminate.
Qed.

End Copy.

(** C8.  Copying from the intake is idempotent.  A run that succeeds only
    appends the rows it creates (every row that was there stays as it was,
    and the count it logs is the number of rows appended); run again on the
    database it left, whatever the time and the default notes, it returns
    the same entries, creates no row and leaves the database as it is. *)
Theorem copy_tor_entries_idempotent (default_notes : string) (now : nat)
    (account_id : string) (d d1 : db) (entries : list CompareResultTOR.t)
    (created_count : nat) :
  copy_tor_entries default_notes now account_id d
    = (Ok (entries, created_count), d1) ->
  (exists created,
      compare_result_tor d1 = (compare_result_tor d ++ created)%list
      /\ created_count = List.length created)
  /\ (forall default_notes' now',
        copy_tor_entries default_notes' now' account_id d1
          = (Ok (entries, 0), d1)).
Proof.
  unfold copy_tor_entries, atomic_transaction.
  destruct (copy_tor_entries_body default_notes now account_id d)
    as [[[es cnt]|e] d'] eqn:E; [|discriminate].
  intros H. injection H as -> -> ->.
  unfold copy_tor_entries_body in E.
  destruct (falsy account_id) eqn:Ea; [discriminate|].
  destruct (filter _ (tor_transferee d)) as [|t ts] eqn:Ef; [discriminate|].
  apply copy_loop_first in E.
  destruct E as (rs & created & -> & Hrows & Htr & Hcit & -> & Hfresh & Hall).
  split.
  - exists created. auto.
  - intros notes' now'.
    apply atomic_transaction_ok.
    unfold copy_tor_entries_body. rewrite Ea, Htr, Ef.
    apply (copy_loop_found notes' now' _ [] 0 Hall).
Qed.

Lemma copy_tor_entries_idempotent_witness :
  copy_tor_entries "" 7 "S100" sample_db = (Ok (sample_copied, 1), sample_db_copied)
  /\ copy_tor_entries "" 8 "S100" sample_db_copied
     = (Ok (sample_copied, 0), sample_db_copied).
Proof.
  assert (H : copy_tor_entries "" 7 "S100" sample_db
              = (Ok (sample_copied, 1), sample_db_copied)) by reflexivity.
  split; [exact H|].
  apply (proj2 (copy_tor_entries_idempotent "" 7 "S100" sample_db H) "" 8).
Defined.

(** ** Statistics *)

Lemma sum_units_raises (entries : list CompareResultTOR.t) :
  forall acc e,
    sum_units entries acc = Raise e ->
    e = TypeError
    /\ exists entry,
         In entry entries /\ CompareResultTOR.total_academic_units entry = None.
Proof.
  induction entries as [|x l IH]; cbn; intros acc e H; [discriminate|].
  destruct (CompareResultTOR.total_academic_units x) as [u|] eqn:Eu.
  - destruct (IH _ _ H) as (-> & y & Hy & Hn). split; [reflexivity|].
    exists y. auto.
  - injection H as <-. split; [reflexivity|]. exists x. auto.
Qed.

(** C9, as the code has it.  The statistics query leaves the database as
    it is and, unless the units of some entry are null, returns exactly the
    keys total, accepted, denied, void, passed, failed, average_grade and
    total_units: the counts of the entries evaluated ACCEPTED, DENIED and
    VOID, of those remarked PASSED and FAILED, the rounded average grade
    and the sum of the units.  It has no count for INVESTIGATE. *)
Theorem comparison_statistics (account_id : string) (d : db) :
  let entries := filter_account account_id (compare_result_tor d) in
  snd (get_comparison_statistics account_id d) = d
  /\ match fst (get_comparison_statistics account_id d) with
     | Ok stats =>
         map fst stats
         = ["total"; "accepted"; "denied"; "void"; "passed"; "failed";
            "average_grade"; "total_units"]
         /\ dict_get "total" stats = Some (Count (List.length entries))
         /\ dict_get "accepted" stats = Some (Count (count_evaluation ACCEPTED entries))
         /\ dict_get "denied" stats = Some (Count (count_evaluation DENIED entries))
         /\ dict_get "void" stats = Some (Count (count_evaluation VOID entries))
         /\ dict_get "investigate" stats = None
         /\ dict_get "passed" stats = Some (Count (count_remarks "PASSED" entries))
         /\ dict_get "failed" stats = Some (Count (count_remarks "FAILED" entries))
         /\ dict_get "average_grade" stats
            = Some (Number
                      match avg_final_grade entries with
                      | Some avg => if Qeq_bool avg 0 then 0%Q else round2 avg
                      | None => 0%Q
                      end)
         /\ exists total_units,
              sum_units entries 0 = Ok total_units
              /\ dict_get "total_units" stats = Some (Number total_units)
     | Raise e =>
         e = TypeError
         /\ exists entry,
              In entry entries
              /\ CompareResultTOR.total_academic_units entry = None
     end.
Proof.
  intros entries. unfold get_comparison_statistics, bind, objects_filter, lift, ret.
  cbn [fst snd]. fold entries.
  destruct (sum_units entries 0) as [u|e] eqn:E; cbn [fst snd].
  - split; [reflexivity|]. cbn. repeat split; eauto.
  - split; [reflexivity|]. eapply sum_units_raises; eauto.
Qed.

(** C9 as claimed fails: for an account whose only entry is to be
    investigated, the dictionary returned has no count for INVESTIGATE. *)
Lemma statistics_lack_investigate :
  ~ counts_every_disposition "S100" investigate_db.
Proof.
  intros (stats & Hs & Hall).
  specialize (Hall INVESTIGATE).
  vm_compute in Hs. injection Hs as <-.
  vm_compute in Hall. discriminate.
Qed.

(** ** The journal of written cells *)

Lemma skipn_length_app {A} (l x : list A) : skipn (List.length l) (l ++ x) = x.
Proof. induction l; cbn; auto. Qed.

Lemma skipn_length {A} (l : list A) : skipn (List.length l) l = [].
Proof. induction l; cbn; auto. Qed.

Lemma cells_written_ext {A} (c : M A) (d : db) (journal : list (nat * column)) :
  written (snd (c d)) = (written d ++ journal)%list ->
  cells_written c d = journal.
Proof. unfold cells_written. intros ->. apply skipn_length_app. Qed.

Lemma cells_written_same {A} (c : M A) (d : db) :
  snd (c d) = d -> cells_written c d = [].
Proof. unfold cells_written. intros ->. apply skipn_length. Qed.

Lemma cells_written_atomic {A} (c : M A) (d : db) :
  cells_written (atomic_transaction c) d
  = match fst (c d) with
    | Ok _ => cells_written c d
    | Raise _ => []
    end.
Proof.
  unfold cells_written, atomic_transaction.
  destruct (c d) as [[a|e] d']; cbn; [reflexivity | apply skipn_length].
Qed.

Lemma in_bulk_cells (objs : list CompareResultTOR.t) (fields : list column)
    (i : nat) (c : column) :
  In (i, c) (bulk_cells objs fields)
  <-> (exists o, In o objs /\ CompareResultTOR.id o = i) /\ In c fields.
Proof.
  unfold bulk_cells. rewrite in_flat_map. split.
  - intros (o & Ho & H). apply in_map_iff in H. destruct H as (c' & E & Hc).
    injection E as <- <-. split; [exists o|]; auto.
  - intros [(o & Ho & <-) Hc]. exists o. split; [exact Ho|].
    apply in_map_iff. exists c. auto.
Qed.

Lemma bulk_update_cells (objs : list CompareResultTOR.t) (fields : list column)
    (d : db) :
  cells_written (bulk_update objs fields) d = bulk_cells objs fields.
Proof. now apply cells_written_ext. Qed.

Lemma together_nil : together [].
Proof. intros i. cbn. tauto. Qed.

Lemma together_app (j1 j2 : list (nat * column)) :
  together j1 -> together j2 -> together (j1 ++ j2).
Proof.
  intros H1 H2 i. rewrite !in_app_iff. specialize (H1 i). specialize (H2 i). tauto.
Qed.

Lemma for_each_ids {A} (body : A -> result CompareResultTOR.t) (key : A -> nat)
    (l : list A) (ys : list CompareResultTOR.t) :
  (forall x y, body x = Ok y -> CompareResultTOR.id y = key x) ->
  for_each body l = Ok ys ->
  map CompareResultTOR.id ys = map key l.
Proof.
  intros Hid H. apply for_each_Forall2 in H.
  induction H as [|x y l l' Hxy _ IH]; cbn; [reflexivity|].
  rewrite (Hid _ _ Hxy). now f_equal.
Qed.

(** What the grading functions do, by cases. *)
Lemma grading_body_cases (is_passing_grade : CompareResultTOR.t -> bool)
    (scale : option Q -> result string) (account_id : string) (d : db) :
  let entries := filter_account account_id (compare_result_tor d) in
  let cit_entries := filter CitTorContent.is_active (cit_tor_content d) in
  grading_body is_passing_grade scale account_id d =
  if falsy account_id
  then (Raise (ValidationException "Account ID is required"), d)
  else
    match entries with
    | [] => (Raise (ResourceNotFoundException "TOR entries" account_id), d)
    | _ =>
        match for_each (grading_entry is_passing_grade scale cit_entries) entries with
        | Ok updated_entries =>
            (Ok updated_entries,
             snd (bulk_update updated_entries
                    [remarks_col; summary_col; updated_at_col] d))
        | Raise e => (Raise e, d)
        end
    end.
Proof.
  unfold grading_body.
  destruct (falsy account_id); [reflexivity|].
  unfold bind, objects_filter, active_cit, lift, raise, ret. cbn.
  destruct (filter_account account_id (compare_result_tor d)) as [|t ts] eqn:E;
    [reflexivity|].
  destruct (for_each _ _); reflexivity.
Qed.

(** The cells a grading call writes: the three columns of every entry it
    updated, or none when it raises. *)
Lemma grading_cells (is_passing_grade : CompareResultTOR.t -> bool)
    (scale : option Q -> result string) (account_id : string) (d : db) :
  match fst (grading_body is_passing_grade scale account_id d) with
  | Ok updated_entries =>
      cells_written (atomic_transaction
                       (grading_body is_passing_grade scale account_id)) d
      = bulk_cells updated_entries [remarks_col; summary_col; updated_at_col]
      /\ map CompareResultTOR.id updated_entries
         = map CompareResultTOR.id
             (filter_account account_id (compare_result_tor d))
  | Raise _ =>
      cells_written (atomic_transaction
                       (grading_body is_passing_grade scale account_id)) d = []
      /\ snd (grading_body is_passing_grade scale account_id d) = d
  end.
Proof.
  rewrite cells_written_atomic.
  generalize (grading_body_cases is_passing_grade scale account_id d).
  cbv zeta.
  destruct (falsy account_id); [now intros ->|].
  destruct (filter_account account_id (compare_result_tor d)) as [|t ts];
    [now intros ->|].
  destruct (for_each _ _) as [upd|e] eqn:E; intros C; rewrite C;
    cbn [fst snd]; [|now split].
  split; [apply cells_written_ext; rewrite C; reflexivity|].
  refine (for_each_ids _ CompareResultTOR.id _ _ E).
  intros x y Hxy. now apply grading_entry_remarks in Hxy.
Qed.

Lemma evaluate_entry_id (is_passing_grade : CompareResultTOR.t -> bool)
    (tor tor' : CompareResultTOR.t) (best_match : option CitTorContent.t) (s : Q) :
  evaluate_entry is_passing_grade tor best_match s = Ok tor' ->
  CompareResultTOR.id tor' = CompareResultTOR.id tor
  /\ CompareResultTOR.remarks tor' = CompareResultTOR.remarks tor.
Proof.
  unfold evaluate_entry, rbind.
  destruct (Qleb _ _).
  - destruct best_match; [|discriminate].
    destruct (int_units _); [|discriminate].
    destruct (_ && _); [|destruct (Qleb _ _)];
      intros H; injection H as <-; now cbn.
  - intros H; injection H as <-; now cbn.
Qed.

(** The cells a matching call writes. *)
Lemma sync_cells (is_passing_grade : CompareResultTOR.t -> bool)
    (account_id : string) (d : db) :
  match fst (sync_curriculum_matching_body is_passing_grade account_id d) with
  | Ok _ =>
      exists updated_entries,
        cells_written (sync_curriculum_matching is_passing_grade account_id) d
        = bulk_cells updated_entries
            [summary_col; credit_evaluation_col; updated_at_col]
        /\ map CompareResultTOR.id updated_entries
           = map CompareResultTOR.id
               (filter_account account_id (compare_result_tor d))
  | Raise _ =>
      cells_written (sync_curriculum_matching is_passing_grade account_id) d = []
      /\ snd (sync_curriculum_matching_body is_passing_grade account_id d) = d
  end.
Proof.
  unfold sync_curriculum_matching.
  rewrite cells_written_atomic.
  generalize (sync_body_cases is_passing_grade account_id d).
  cbv zeta.
  destruct (falsy account_id); [now intros ->|].
  destruct (filter_account account_id (compare_result_tor d)) as [|t ts];
    [now intros ->|].
  destruct (for_each _ _) as [results|e] eqn:E; intros C; rewrite C;
    cbn [fst snd]; [|now split].
  exists (map fst results).
  split; [apply cells_written_ext; rewrite C; reflexivity|].
  apply for_each_Forall2 in E. clear C.
  revert E. generalize (t :: ts). intros l E.
  induction E as [|x [y r] l l' Hxy _ IH]; cbn; [reflexivity|].
  f_equal; [|exact IH].
  unfold sync_entry in Hxy. destruct (find_best_match _ _) as [bm acc].
  unfold rbind in Hxy.
  destruct (evaluate_entry _ _ _ _) as [t'|] eqn:Ev; [|discriminate].
  injection Hxy as <- _. now apply evaluate_entry_id in Ev.
Qed.

Lemma created_cells_together (n : nat) :
  together (map (fun c => (n, c)) all_columns).
Proof.
  intros i. cbn. split; intros H;
    repeat (destruct H as [H|H]; [try discriminate; injection H as <-|]);
    try contradiction; tauto.
Qed.

Lemma copy_loop_journal (default_notes : string) (now : nat)
    (l : list TorTransferee.t) :
  forall acc cnt d,
  exists journal,
    written (snd (copy_loop default_notes now l acc cnt d))
    = (written d ++ journal)%list
    /\ together journal.
Proof.
  induction l as [|e l IH]; intros acc cnt d; cbn.
  - exists []. rewrite app_nil_r. split; [reflexivity | apply together_nil].
  - unfold bind, get_or_create.
    destruct (filter _ (compare_result_tor d)) as [|r [|r' rest]].
    + match goal with
      | |- context [copy_loop _ _ l ?acc' ?cnt' ?d'] =>
          destruct (IH acc' cnt' d') as (j & Hj & Ht)
      end.
      cbn [fst snd written] in *. rewrite Hj, <- app_assoc.
      eexists. split; [reflexivity|].
      apply together_app; [apply created_cells_together | exact Ht].
    + cbn [fst snd]. apply IH.
    + exists []. cbn. rewrite app_nil_r.
      split; [reflexivity | apply together_nil].
Qed.

Lemma copy_cells_together (default_notes : string) (now : nat)
    (account_id : string) (d : db) :
  together (cells_written (copy_tor_entries default_notes now account_id) d).
Proof.
  unfold copy_tor_entries. rewrite cells_written_atomic.
  destruct (fst _); [|apply together_nil].
  unfold cells_written, copy_tor_entries_body.
  destruct (falsy account_id).
  - cbn. rewrite skipn_length. apply together_nil.
  - cbv beta zeta.
    destruct (filter _ (tor_transferee d)) as [|t ts].
    + cbn. rewrite skipn_length. apply together_nil.
    + destruct (copy_loop_journal default_notes now (t :: ts) [] 0 d)
        as (j & Hj & Ht).
      rewrite Hj, skipn_length_app. exact Ht.
Qed.

(** The rows [update_remarks] hits keep their identity. *)
Lemma update_remarks_rows (account_id subject_code remarks : string) (d : db)
    (r : CompareResultTOR.t) :
  In r (compare_result_tor d) ->
  exists r',
    In r' (compare_result_tor (snd (update_remarks account_id subject_code remarks d)))
    /\ CompareResultTOR.id r' = CompareResultTOR.id r
    /\ CompareResultTOR.account_id r' = CompareResultTOR.account_id r
    /\ CompareResultTOR.subject_code r' = CompareResultTOR.subject_code r.
Proof.
  intros H. unfold update_remarks. cbn [snd compare_result_tor].
  eexists. split; [apply in_map, H|]. now destruct (_ && _).
Qed.

Lemma update_loop_journal (account_id : string)
    (passed_subjects : list (string * string)) :
  forall cnt d,
  exists journal,
    written (snd (update_loop account_id passed_subjects cnt d))
    = (written d ++ journal)%list
    /\ (forall i, ~ In (i, summary_col) journal)
    /\ (forall code remarks r,
          In (code, remarks) passed_subjects ->
          In r (compare_result_tor d) ->
          CompareResultTOR.account_id r = account_id ->
          CompareResultTOR.subject_code r = code ->
          In (CompareResultTOR.id r, remarks_col) journal).
Proof.
  induction passed_subjects as [|[code0 rem0] l IH]; intros cnt d;
    cbn [update_loop fst snd].
  - exists []. cbn. rewrite app_nil_r. split; [reflexivity|].
    split; [intros i [] | intros code remarks r []].
  - unfold bind.
    destruct (update_remarks account_id code0 rem0 d) as [[n|e] d'] eqn:Eu;
      [|unfold update_remarks in Eu; discriminate].
    pose proof (f_equal snd Eu) as Ed. cbn [snd] in Ed.
    destruct (IH (cnt + n) d') as (j & Hj & Hno & Hyes).
    rewrite Hj, <- Ed. unfold update_remarks at 1. cbn [snd written].
    rewrite <- app_assoc. eexists. split; [reflexivity|]. split.
    + intros i Hi. apply in_app_or in Hi. destruct Hi as [Hi|Hi]; [|now apply (Hno i)].
      apply in_flat_map in Hi. destruct Hi as (r & _ & [Hi|[Hi|[]]]); discriminate.
    + intros code remarks r [Hp|Hp] Hr Ha Hc; apply in_or_app.
      * injection Hp as -> ->. left. apply in_flat_map. exists r.
        split; [|now left]. apply filter_In. split; [exact Hr|].
        rewrite Ha, Hc, !String.eqb_refl. reflexivity.
      * right.
        destruct (update_remarks_rows account_id code0 rem0 d r Hr)
          as (r' & Hr' & <- & Ha' & Hc').
        rewrite Ed in Hr'. apply (Hyes code remarks r' Hp Hr'); congruence.
Qed.

Lemma update_loop_returns (account_id : string)
    (passed_subjects : list (string * string)) :
  forall cnt d,
  exists n d', update_loop account_id passed_subjects cnt d = (Ok n, d').
Proof.
  induction passed_subjects as [|s l IH]; intros cnt d; cbn.
  - unfold ret. eauto.
  - unfold bind, update_remarks. apply IH.
Qed.

Lemma update_cells (account_id : string) (failed_subjects : list string)
    (passed_subjects : list (string * string)) (d : db) :
  (forall i,
      ~ In (i, summary_col)
          (cells_written
             (update_tor_results account_id failed_subjects passed_subjects) d))
  /\ (forall code remarks r,
        falsy account_id = false ->
        In (code, remarks) passed_subjects ->
        In r (compare_result_tor d) ->
        CompareResultTOR.account_id r = account_id ->
        CompareResultTOR.subject_code r = code ->
        existsb (String.eqb code) failed_subjects = false ->
        In (CompareResultTOR.id r, remarks_col)
           (cells_written
              (update_tor_results account_id failed_subjects passed_subjects) d)).
Proof.
  unfold update_tor_results. rewrite cells_written_atomic.
  unfold cells_written, update_tor_results_body.
  destruct (falsy account_id) eqn:Ea.
  - cbn. split; [auto | discriminate].
  - unfold bind, ret. cbn [delete_failed].
    match goal with
    | |- context [update_loop account_id passed_subjects 0 ?d'] =>
        set (d1 := d');
        destruct (update_loop_journal account_id passed_subjects 0 d1)
          as (j & Hj & Hno & Hyes);
        destruct (update_loop_returns account_id passed_subjects 0 d1)
          as (n & d2 & El); rewrite El in *
    end; cbn [fst snd] in *.
    change (written d1) with (written d) in Hj.
    rewrite Hj, skipn_length_app. split; [exact Hno|].
    intros code remarks r _ Hp Hr Hacc Hcode Hf.
    apply (Hyes code remarks r Hp); auto.
    subst d1. cbn [compare_result_tor]. apply filter_In. split; [exact Hr|].
    rewrite Hcode, Hf. now rewrite andb_false_r.
Qed.

Lemma bulk_cells_together (objs : list CompareResultTOR.t) :
  together (bulk_cells objs [remarks_col; summary_col; updated_at_col]).
Proof.
  intros i. rewrite !in_bulk_cells. cbn. intuition.
Qed.

Lemma grading_cells_together (is_passing_grade : CompareResultTOR.t -> bool)
    (scale : option Q -> result string) (account_id : string) (d : db) :
  together
    (cells_written
       (atomic_transaction (grading_body is_passing_grade scale account_id)) d).
Proof.
  pose proof (grading_cells is_passing_grade scale account_id d) as H.
  destruct (fst _) as [upd|e]; destruct H as [-> _];
    [apply bulk_cells_together | apply together_nil].
Qed.

Lemma grading_cells_entries (is_passing_grade : CompareResultTOR.t -> bool)
    (scale : option Q -> result string) (account_id : string) (d d' : db)
    (updated_entries : list CompareResultTOR.t) (r : CompareResultTOR.t) :
  atomic_transaction (grading_body is_passing_grade scale account_id) d
    = (Ok updated_entries, d') ->
  In r (filter_account account_id (compare_result_tor d)) ->
  forall c, In c [remarks_col; summary_col; updated_at_col] ->
  In (CompareResultTOR.id r, c)
     (cells_written
        (atomic_transaction (grading_body is_passing_grade scale account_id)) d).
Proof.
  intros Hok Hr c Hc.
  pose proof (grading_cells is_passing_grade scale account_id d) as H.
  unfold atomic_transaction in Hok.
  destruct (grading_body is_passing_grade scale account_id d) as [[upd|e] d1];
    [|discriminate].
  cbn [fst] in H. destruct H as [-> Hids].
  apply in_bulk_cells. split; [|exact Hc].
  apply (in_map CompareResultTOR.id) in Hr. rewrite <- Hids in Hr.
  apply in_map_iff in Hr. destruct Hr as (o & Ho & Hin). eauto.
Qed.

(** C3, as the code has it.  The two grading calls and the copy from the
    intake write the summary of a row exactly when they write its remarks,
    and a grading call that succeeds writes both for every entry of the
    account.  The matching call never writes remarks: when it succeeds it
    writes the summary and the credit evaluation of every entry of the
    account.  [update_tor_results] never writes a summary: it writes the
    remarks of every row of the account that is listed as passed and not
    as failed. *)
Theorem written_together_by_entry_point
    (is_passing_grade : CompareResultTOR.t -> bool) (default_notes : string)
    (now : nat) (d : db) :
  (forall a, together (cells_of is_passing_grade default_notes now
                         (ApplyStandardGrading a) d))
  /\ (forall a, together (cells_of is_passing_grade default_notes now
                            (ApplyReverseGrading a) d))
  /\ (forall a, together (cells_of is_passing_grade default_notes now
                            (CopyTorEntries a) d))
  /\ (forall a i,
        ~ In (i, remarks_col)
            (cells_of is_passing_grade default_notes now
               (SyncCurriculumMatching a) d))
  /\ (forall a failed passed i,
        ~ In (i, summary_col)
            (cells_of is_passing_grade default_notes now
               (UpdateTorResults a failed passed) d))
  /\ (forall a r,
        In r (filter_account a (compare_result_tor d)) ->
        (forall updated d',
            apply_standard_grading is_passing_grade a d = (Ok updated, d') ->
            In (CompareResultTOR.id r, remarks_col)
               (cells_of is_passing_grade default_notes now
                  (ApplyStandardGrading a) d)
            /\ In (CompareResultTOR.id r, summary_col)
                  (cells_of is_passing_grade default_notes now
                     (ApplyStandardGrading a) d))
        /\ (forall updated d',
              apply_reverse_grading is_passing_grade a d = (Ok updated, d') ->
              In (CompareResultTOR.id r, remarks_col)
                 (cells_of is_passing_grade default_notes now
                    (ApplyReverseGrading a) d)
              /\ In (CompareResultTOR.id r, summary_col)
                    (cells_of is_passing_grade default_notes now
                       (ApplyReverseGrading a) d))
        /\ (forall result_data d',
              sync_curriculum_matching is_passing_grade a d = (Ok result_data, d') ->
              In (CompareResultTOR.id r, summary_col)
                 (cells_of is_passing_grade default_notes now
                    (SyncCurriculumMatching a) d)
              /\ In (CompareResultTOR.id r, credit_evaluation_col)
                    (cells_of is_passing_grade default_notes now
                       (SyncCurriculumMatching a) d)))
  /\ (forall a failed passed code remarks r,
        falsy a = false ->
        In (code, remarks) passed ->
        In r (filter_account a (compare_result_tor d)) ->
        CompareResultTOR.subject_code r = code ->
        existsb (String.eqb code) failed = false ->
        In (CompareResultTOR.id r, remarks_col)
           (cells_of is_passing_grade default_notes now
              (UpdateTorResults a failed passed) d)).
Proof.
  repeat match goal with |- _ /\ _ => split end; cbn [cells_of].
  - intros a. apply grading_cells_together.
  - intros a. apply grading_cells_together.
  - intros a. apply copy_cells_together.
  - intros a i.
    pose proof (sync_cells is_passing_grade a d) as H.
    destruct (fst _).
    + destruct H as (upd & -> & _). rewrite in_bulk_cells. cbn.
      intros [_ [H|[H|[H|[]]]]]; discriminate.
    + destruct H as [-> _]. intros [].
  - intros a failed passed. apply update_cells.
  - intros a r Hr. split; [|split]; intros x d' Hok.
    1-2: split; eapply grading_cells_entries; eauto; cbn; auto.
    split.
    all: pose proof (sync_cells is_passing_grade a d) as H;
      unfold sync_curriculum_matching, atomic_transaction in Hok;
      destruct (sync_curriculum_matching_body is_passing_grade a d)
        as [[res|e] d1]; [|discriminate];
      cbn [fst] in H; destruct H as (upd & -> & Hids);
      apply in_bulk_cells; (split; [|cbn; auto]);
      apply (in_map CompareResultTOR.id) in Hr; rewrite <- Hids in Hr;
      apply in_map_iff in Hr; destruct Hr as (o & Ho & Hin); eauto.
  - intros a failed passed code remarks r Ha Hp Hr Hc Hf.
    apply filter_In in Hr. destruct Hr as [Hr Hacc].
    apply String.eqb_eq in Hacc.
    apply (proj2 (update_cells a failed passed d) code remarks r); auto.
Qed.

(** C3 as claimed fails: on the sample database the matching call writes
    the summary of the entry 1 and not its remarks. *)
Lemma remarks_summary_not_together :
  ~ always_together passing_by_remarks "" 0.
Proof.
  intros H. specialize (H (SyncCurriculumMatching "S100") sample_db 1).
  destruct H as [H _].
  assert (Hs : In (1, summary_col)
                 (cells_of passing_by_remarks "" 0
                    (SyncCurriculumMatching "S100") sample_db))
    by (vm_compute; tauto).
  apply H in Hs. vm_compute in Hs.
  repeat (destruct Hs as [Hs|Hs]; [discriminate|]). exact Hs.
Qed.

(** ** All or nothing *)

(** C7.  In the two grading calls and in the matching call every entry is
    computed before anything is written, and what is written is written by
    one [bulk_update]: the database a call leaves is either the one it
    started from or that one after the [bulk_update] of all the entries
    computed.  When computing some entry raises, the call raises and the
    database is the one it started from, with or without the transaction
    around it.  On a database whose second entry has no grade, standard
    grading raises and changes nothing. *)
Theorem batch_all_or_nothing (is_passing_grade : CompareResultTOR.t -> bool)
    (account_id : string) (d : db) :
  let entries := filter_account account_id (compare_result_tor d) in
  let cits := filter CitTorContent.is_active (cit_tor_content d) in
  (forall scale,
      (exists entry e,
          In entry entries
          /\ grading_entry is_passing_grade scale cits entry = Raise e) ->
      exists e,
        grading_body is_passing_grade scale account_id d = (Raise e, d)
        /\ atomic_transaction (grading_body is_passing_grade scale account_id) d
           = (Raise e, d))
  /\ ((exists entry e,
          In entry entries
          /\ sync_entry is_passing_grade cits entry = Raise e) ->
      exists e,
        sync_curriculum_matching_body is_passing_grade account_id d = (Raise e, d)
        /\ sync_curriculum_matching is_passing_grade account_id d = (Raise e, d))
  /\ (forall scale,
        snd (grading_body is_passing_grade scale account_id d) = d
        \/ exists updated,
             for_each (grading_entry is_passing_grade scale cits) entries
             = Ok updated
             /\ grading_body is_passing_grade scale account_id d
                = (Ok updated,
                   snd (bulk_update updated
                          [remarks_col; summary_col; updated_at_col] d)))
  /\ (snd (sync_curriculum_matching_body is_passing_grade account_id d) = d
      \/ exists results,
           for_each (sync_entry is_passing_grade cits) entries = Ok results
           /\ sync_curriculum_matching_body is_passing_grade account_id d
              = (Ok (map snd results),
                 snd (bulk_update (map fst results)
                        [summary_col; credit_evaluation_col; updated_at_col] d)))
  /\ apply_standard_grading passing_by_remarks "S100" ungraded_db
     = (Raise TypeError, ungraded_db).
Proof.
  intros entries cits.
  repeat match goal with |- _ /\ _ => split end.
  - intros scale Hex. apply for_each_raises in Hex. destruct Hex as [e He].
    pose proof (grading_body_cases is_passing_grade scale account_id d) as C.
    cbv zeta in C. fold entries cits in C. rewrite He in C.
    destruct (falsy account_id);
      [|destruct entries];
      eexists; (split; [exact C | now apply (atomic_transaction_raise _ _ C)]).
  - intros Hex. apply for_each_raises in Hex. destruct Hex as [e He].
    pose proof (sync_body_cases is_passing_grade account_id d) as C.
    cbv zeta in C. fold entries cits in C. rewrite He in C.
    destruct (falsy account_id);
      [|destruct entries];
      eexists; (split; [exact C | now apply (atomic_transaction_raise _ _ C)]).
  - intros scale.
    pose proof (grading_body_cases is_passing_grade scale account_id d) as C.
    cbv zeta in C. fold entries cits in C.
    destruct (falsy account_id); [left; now rewrite C|].
    destruct entries as [|t ts]; [left; now rewrite C|].
    destruct (for_each _ _) as [upd|e]; [right; eauto | left; now rewrite C].
  - pose proof (sync_body_cases is_passing_grade account_id d) as C.
    cbv zeta in C. fold entries cits in C.
    destruct (falsy account_id); [left; now rewrite C|].
    destruct entries as [|t ts]; [left; now rewrite C|].
    destruct (for_each _ _) as [res|e]; [right; eauto | left; now rewrite C].
  - reflexivity.
Qed.

(** ** The sequence matcher *)

Section MatcherFacts.

Variables a b : list ascii.
Variables alo ahi blo bhi : nat.

Lemma j2lenget_in (j2len : list (nat * nat)) (j : nat) :
  Difflib.j2lenget j2len j = 0 \/ In (j, Difflib.j2lenget j2len j) j2len.
Proof.
  induction j2len as [|[j' k] rest IH]; cbn; [now left|].
  destruct (j' =? j) eqn:E.
  - apply Nat.eqb_eq in E. subst. right. now left.
  - destruct IH as [IH|IH]; [now left | right; now right].
Qed.

Lemma inner_loop_ok (i : nat) (prev : list (nat * nat)) (js : list nat) :
  alo <= i -> i < ahi -> row_ok alo blo i prev ->
  forall new best,
    row_ok alo blo (S i) new -> within alo ahi blo bhi best ->
    row_ok alo blo (S i) (fst (Difflib.inner_loop i blo bhi prev js new best))
    /\ within alo ahi blo bhi (snd (Difflib.inner_loop i blo bhi prev js new best)).
Proof.
  intros Hlo Hhi Hprev.
  induction js as [|j js IH]; intros new best Hnew Hbest;
    cbn [Difflib.inner_loop]; [cbn; auto|].
  destruct (j <? blo) eqn:E1; [now apply IH|]. apply Nat.ltb_ge in E1.
  destruct (bhi <=? j) eqn:E2; [cbn; auto|]. apply Nat.leb_gt in E2.
  set (k := _ + 1).
  assert (Hk : k + alo <= S i /\ k + blo <= j + 1).
  { subst k. destruct j as [|j']; [lia|].
    destruct (j2lenget_in prev j') as [-> | Hin]; [lia|].
    apply Hprev in Hin. lia. }
  apply IH.
  - intros j0 k0 [H|H]; [injection H as <- <-; exact Hk | now apply Hnew].
  - destruct (Difflib.m_size best <? k); [|exact Hbest].
    unfold within. cbn. lia.
Qed.

Lemma outer_loop_ok (len : nat) :
  forall start j2len best,
    alo <= start -> start + len <= ahi ->
    row_ok alo blo start j2len -> within alo ahi blo bhi best ->
    within alo ahi blo bhi
      (Difflib.outer_loop a b blo bhi (seq start len) j2len best).
Proof.
  induction len as [|len IH]; intros start j2len best H1 H2 Hrow Hbest;
    cbn [seq Difflib.outer_loop]; [exact Hbest|].
  destruct (Difflib.inner_loop start blo bhi j2len _ [] best) as [new best'] eqn:E.
  pose proof (@inner_loop_ok start j2len
                (Difflib.b2j b (nth start a Difflib.dflt))
                H1 ltac:(lia) Hrow [] best) as H.
  rewrite E in H. cbn [fst snd] in H.
  destruct H as [Hn Hb]; [intros j k [] | exact Hbest |].
  apply IH; auto; lia.
Qed.

Lemma extend_left_ok (fuel : nat) : forall best,
  within alo ahi blo bhi best ->
  within alo ahi blo bhi (Difflib.extend_left a b fuel alo blo best).
Proof.
  induction fuel as [|fuel IH]; intros best H; cbn [Difflib.extend_left];
    [exact H|].
  destruct (_ && _) eqn:E; [|exact H].
  apply andb_true_iff in E. destruct E as [E _].
  apply andb_true_iff in E. destruct E as [E1 E2].
  apply Nat.ltb_lt in E1, E2.
  apply IH. unfold within in *. cbn. lia.
Qed.

Lemma extend_right_ok (fuel : nat) : forall best,
  within alo ahi blo bhi best ->
  within alo ahi blo bhi (Difflib.extend_right a b fuel ahi bhi best).
Proof.
  induction fuel as [|fuel IH]; intros best H; cbn [Difflib.extend_right];
    [exact H|].
  destruct (_ && _) eqn:E; [|exact H].
  apply andb_true_iff in E. destruct E as [E _].
  apply andb_true_iff in E. destruct E as [E1 E2].
  apply Nat.ltb_lt in E1, E2.
  apply IH. unfold within in *. cbn. lia.
Qed.

(** The longest block lies within the two ranges it is searched in. *)
Lemma find_longest_match_within :
  alo <= ahi -> blo <= bhi ->
  within alo ahi blo bhi (Difflib.find_longest_match a b alo ahi blo bhi).
Proof.
  intros H1 H2. unfold Difflib.find_longest_match.
  apply extend_right_ok, extend_left_ok, outer_loop_ok; try lia.
  - intros j k [].
  - unfold within. cbn. lia.
Qed.

End MatcherFacts.

(** The recursion over the blocks ends within its fuel, and the blocks
    found fit side by side in both ranges. *)
Lemma matching_size_returns (a b : list ascii) (fuel : nat) :
  forall alo ahi blo bhi,
    alo <= ahi -> blo <= bhi -> ahi - alo < fuel ->
    exists m,
      Difflib.matching_size a b fuel alo ahi blo bhi = Some m
      /\ m <= ahi - alo /\ m <= bhi - blo.
Proof.
  induction fuel as [|fuel IH]; intros alo ahi blo bhi H1 H2 Hf; [lia|].
  cbn [Difflib.matching_size].
  pose proof (find_longest_match_within a b H1 H2) as (W1 & W2 & W3 & W4).
  set (x := Difflib.find_longest_match a b alo ahi blo bhi) in *.
  destruct (Difflib.m_size x =? 0) eqn:Ek.
  - exists 0. repeat split; lia.
  - apply Nat.eqb_neq in Ek.
    assert (L : exists l,
               (if (alo <? Difflib.m_a x) && (blo <? Difflib.m_b x)
                then Difflib.matching_size a b fuel alo (Difflib.m_a x)
                       blo (Difflib.m_b x)
                else Some 0) = Some l
               /\ l <= Difflib.m_a x - alo /\ l <= Difflib.m_b x - blo).
    { destruct ((alo <? Difflib.m_a x) && (blo <? Difflib.m_b x));
        [apply IH; lia|].
      exists 0. repeat split; lia. }
    assert (R : exists r,
               (if (Difflib.m_a x + Difflib.m_size x <? ahi)
                   && (Difflib.m_b x + Difflib.m_size x <? bhi)
                then Difflib.matching_size a b fuel
                       (Difflib.m_a x + Difflib.m_size x) ahi
                       (Difflib.m_b x + Difflib.m_size x) bhi
                else Some 0) = Some r
               /\ r <= ahi - (Difflib.m_a x + Difflib.m_size x)
               /\ r <= bhi - (Difflib.m_b x + Difflib.m_size x)).
    { destruct ((Difflib.m_a x + Difflib.m_size x <? ahi)
                && (Difflib.m_b x + Difflib.m_size x <? bhi)); [apply IH; lia|].
      exists 0. repeat split; lia. }
    destruct L as (l & -> & L1 & L2). destruct R as (r & -> & R1 & R2).
    eexists. split; [reflexivity|]. lia.
Qed.

Lemma matches_bound (a b : list ascii) :
  Difflib.matching_size a b (S (List.length a)) 0 (List.length a) 0 (List.length b)
  = Some (Difflib.matches a b)
  /\ 2 * Difflib.matches a b <= List.length a + List.length b.
Proof.
  unfold Difflib.matches.
  destruct (@matching_size_returns a b (S (List.length a)) 0 (List.length a)
              0 (List.length b)) as (m & -> & H1 & H2); try lia.
  split; [reflexivity | lia].
Qed.

Lemma ratio_bounds (a b : list ascii) :
  (0 <= Difflib.ratio a b)%Q /\ (Difflib.ratio a b <= 1)%Q.
Proof.
  unfold Difflib.ratio.
  pose proof (matches_bound a b) as [_ H].
  destruct (List.length a + List.length b) as [|n] eqn:E; [split; lra|].
  rewrite Qred_correct. unfold Qle. cbn [Qnum Qden].
  rewrite Z.mul_1_r, Z.mul_1_l. split; [lia|].
  rewrite <- Pos.of_nat_succ, Zpos_P_of_succ_nat. lia.
Qed.

(** ** Similarity *)

Lemma calculate_similarity_empty (text1 text2 : string) :
  falsy text1 = true \/ falsy text2 = true ->
  calculate_similarity text1 text2 = 0%Q.
Proof.
  unfold calculate_similarity. intros [-> | ->]; [reflexivity|].
  now rewrite orb_true_r.
Qed.

(** C5, as the code has it.  The two orders give the same score when one
    of the strings is empty (the score is 0 both ways) and when the strings
    are equal up to letter case; in both orders the score lies between 0
    and 100.  Other pairs need not agree: "tide" against "diet" scores 25,
    "diet" against "tide" scores 50. *)
Theorem similarity_symmetry (a b : string) :
  (falsy a = true \/ falsy b = true ->
   calculate_similarity a b = 0%Q /\ calculate_similarity b a = 0%Q)
  /\ (lower a = lower b -> calculate_similarity a b = calculate_similarity b a)
  /\ (0 <= calculate_similarity a b)%Q /\ (calculate_similarity a b <= 100)%Q
  /\ calculate_similarity "tide" "diet" = 25%Q
  /\ calculate_similarity "diet" "tide" = 50%Q.
Proof.
  split; [|split; [|split; [|split; [|split]]]].
  - intros H. split; apply calculate_similarity_empty; tauto.
  - intros H. unfold calculate_similarity.
    rewrite (orb_comm (falsy b)), H. reflexivity.
  - unfold calculate_similarity. destruct (_ || _); [lra|].
    rewrite Qred_correct. pose proof (ratio_bounds (lower a) (lower b)). lra.
  - unfold calculate_similarity. destruct (_ || _); [lra|].
    rewrite Qred_correct. pose proof (ratio_bounds (lower a) (lower b)). lra.
  - reflexivity.
  - reflexivity.
Qed.

(** C5 as claimed fails: "tide" and "diet" are not empty and score 25 one
    way, 50 the other. *)
Lemma similarity_not_symmetric :
  ~ (forall a b : string,
        falsy a = false -> falsy b = false ->
        (calculate_similarity a b == calculate_similarity b a)%Q).
Proof.
  intros H. specialize (H "tide" "diet" eq_refl eq_refl).
  vm_compute in H. discriminate.
Qed.

(** ** Worked cases *)

Example similarity_of_empty :
  calculate_similarity "" "Calculus" = 0%Q
  /\ calculate_similarity "Calculus" "" = 0%Q.
Proof. split; reflexivity. Qed.

Example similarity_ignores_case :
  calculate_similarity "DATA Structures" "data structures" = 100%Q.
Proof. reflexivity. Qed.

Example similarity_of_introductions :
  calculate_similarity "Intro to Programming"
                       "Introduction to Computer Programming" = (500 # 7)%Q.
Proof. reflexivity. Qed.

Example classify_out_of_range :
  standard_remarks (Some (1 # 2)%Q) = Ok "INVALID GRADE"
  /\ standard_remarks (Some (59 # 20)%Q) = Ok "INVALID GRADE"
  /\ standard_remarks None = Raise TypeError.
Proof. repeat split; reflexivity. Qed.

Example best_match_of_empty_catalog :
  find_best_match sample_entry [] = (None, 0%Q).
Proof. reflexivity. Qed.

Example best_match_tie :
  let first := CitTorContent.mk "IT200" ["Data"; "Structures"] 3 true in
  let second := CitTorContent.mk "IT201" ["Data Structures"] 3 true in
  find_best_match sample_entry [first; second] = (Some first, 100%Q).
Proof. reflexivity. Qed.

Example disposition_boundaries :
  let cit := CitTorContent.mk "IT200" ["Data Structures"] 3 true in
  let evaluation s :=
    match evaluate_entry passing_by_remarks sample_entry (Some cit) s with
    | Ok tor => Some (CompareResultTOR.credit_evaluation tor)
    | Raise _ => None
    end in
  evaluation (199 # 10)%Q = Some INVESTIGATE
  /\ evaluation 20%Q = Some DENIED
  /\ evaluation (499 # 10)%Q = Some DENIED
  /\ evaluation 50%Q = Some VOID
  /\ evaluation (799 # 10)%Q = Some VOID
  /\ evaluation 80%Q = Some ACCEPTED.
Proof. repeat split; reflexivity. Qed.

Example sync_of_sample :
  let tor :=
    CompareResultTOR.set_credit_evaluation ACCEPTED
      (CompareResultTOR.set_summary (MatchFound "IT200" 100 3 3) sample_entry) in
  sync_curriculum_matching passing_by_remarks "S100" sample_db
  = (Ok [mk_sync_row "CS101" "Data Structures" (Some (7 # 2)%Q) (Some (3 # 2)%Q)
           "PASSED" (MatchFound "IT200" 100 3 3) ACCEPTED 100 (Some "IT200")],
     mkdb [tor] sample_catalog (tor_transferee sample_db) 2
          [(1, summary_col); (1, credit_evaluation_col); (1, updated_at_col)]).
Proof. reflexivity. Qed.

Example standard_grading_of_sample :
  fst (apply_standard_grading passing_by_remarks "S100" sample_db)
  = Ok [CompareResultTOR.set_summary
          (Report [SubjectCodeNoMatches;
                   DescriptionMatch 100 (Some "IT200");
                   UnitsMatch 3;
                   GradePassing (Some (3 # 2)%Q)])
          sample_entry].
Proof. reflexivity. Qed.

Example errors_before_any_write :
  apply_standard_grading passing_by_remarks "" sample_db
  = (Raise (ValidationException "Account ID is required"), sample_db)
  /\ sync_curriculum_matching passing_by_remarks "S999" sample_db
     = (Raise (ResourceNotFoundException "TOR entries" "S999"), sample_db)
  /\ copy_tor_entries "" 0 "S999" sample_db
     = (Raise (ResourceNotFoundException "Transferee TOR entries" "S999"),
        sample_db).
Proof. repeat split; reflexivity. Qed.

(** * Further properties of the service *)

(** ** The two scales *)

Lemma scale_of_number (g : Q) :
  (exists s, standard_remarks (Some g) = Ok s)
  /\ (exists s, reverse_remarks (Some g) = Ok s).
Proof.
  unfold standard_remarks, reverse_remarks, rbind, between.
  split;
    repeat match goal with
      | |- context [if ?c then _ else _] => destruct c
      end; eauto.
Qed.

(** The reverse scale is the standard scale with PASSED and FAILED
    exchanged: a grade is passing on one exactly when it is failing on the
    other, invalid on one exactly when it is invalid on the other, and a
    missing grade raises on both. *)
Theorem reverse_is_standard_swapped (final_grade : option Q) :
  reverse_remarks final_grade = swap_remarks (standard_remarks final_grade)
  /\ standard_remarks final_grade = swap_remarks (reverse_remarks final_grade).
Proof.
  destruct final_grade as [g|]; [|split; reflexivity].
  pose proof (@bands_disjoint g) as D.
  unfold standard_remarks, reverse_remarks, rbind.
  destruct (between_cases STANDARD_PASSING_MIN STANDARD_PASSING_MAX g)
    as [[E1 P]|[E1 P]];
    destruct (between_cases STANDARD_FAILING_MIN STANDARD_FAILING_MAX g)
      as [[E2 F]|[E2 F]];
    rewrite ?E1, ?E2; rewrite ?E1, ?E2; try tauto; split; reflexivity.
Qed.

(** ** Outcomes of a grading call *)

Lemma generate_summary_outcome (is_passing_grade : CompareResultTOR.t -> bool)
    (entry : CompareResultTOR.t) (cit_entries : list CitTorContent.t) :
  match CompareResultTOR.total_academic_units entry with
  | Some u =>
      exists units,
        generate_summary is_passing_grade entry cit_entries
        = Ok (Report [subject_code_line entry cit_entries;
                      description_line entry cit_entries;
                      units;
                      grade_line is_passing_grade entry])
  | None =>
      generate_summary is_passing_grade entry cit_entries = Raise TypeError
  end.
Proof.
  unfold generate_summary, units_line, rbind.
  destruct (CompareResultTOR.total_academic_units entry) as [u|]; cbn;
    [|reflexivity].
  destruct (existsb _ _); eauto.
Qed.

Lemma grading_entry_outcome (is_passing_grade : CompareResultTOR.t -> bool)
    (scale : option Q -> result string) (cit_entries : list CitTorContent.t)
    (entry : CompareResultTOR.t) :
  scale = standard_remarks \/ scale = reverse_remarks ->
  match CompareResultTOR.final_grade entry,
        CompareResultTOR.total_academic_units entry with
  | Some _, Some _ =>
      exists entry',
        grading_entry is_passing_grade scale cit_entries entry = Ok entry'
  | _, _ =>
      grading_entry is_passing_grade scale cit_entries entry = Raise TypeError
  end.
Proof.
  intros Hs. unfold grading_entry, rbind.
  destruct (CompareResultTOR.final_grade entry) as [g|] eqn:Eg.
  - destruct (scale_of_number g) as [[s1 H1] [s2 H2]].
    assert (exists s, scale (Some g) = Ok s) as [s ->]
      by (destruct Hs; subst; eauto).
    pose proof (generate_summary_outcome is_passing_grade
                  (CompareResultTOR.set_remarks s entry) cit_entries) as H.
    cbn [CompareResultTOR.set_remarks CompareResultTOR.total_academic_units] in H.
    destruct (CompareResultTOR.total_academic_units entry) as [u|].
    + destruct H as [l ->]. eauto.
    + now rewrite H.
  - destruct Hs; subst; reflexivity.
Qed.

Lemma for_each_raise_inv {A B} (body : A -> result B) (l : list A) (e : exn) :
  for_each body l = Raise e -> exists x, In x l /\ body x = Raise e.
Proof.
  induction l as [|x l IH]; cbn; [discriminate|].
  unfold rbind. destruct (body x) as [y|e'] eqn:E.
  - destruct (for_each body l) as [ys|e'']; [discriminate|].
    intros H. injection H as <-. destruct IH as (x0 & Hin & Hx); [reflexivity|].
    exists x0. split; [now right | exact Hx].
  - intros H. injection H as <-. exists x. split; [now left | exact E].
Qed.

(** A grading call, on either scale, ends in one of four ways, each decided
    by its input: [ValidationException] for an empty account id;
    [ResourceNotFoundException] for an account without entries;
    [TypeError] when some entry of the account has no grade or no units;
    otherwise it returns one updated entry per entry of the account.
    Whenever it raises, the database is the one it started from. *)
Theorem grading_outcome (is_passing_grade : CompareResultTOR.t -> bool)
    (scale : option Q -> result string) (account_id : string) (d : db) :
  scale = standard_remarks \/ scale = reverse_remarks ->
  let entries := filter_account account_id (compare_result_tor d) in
  let call := atomic_transaction (grading_body is_passing_grade scale account_id) in
  let complete entry :=
    CompareResultTOR.final_grade entry <> None
    /\ CompareResultTOR.total_academic_units entry <> None in
  (falsy account_id = true ->
   call d = (Raise (ValidationException "Account ID is required"), d))
  /\ (falsy account_id = false -> entries = [] ->
      call d = (Raise (ResourceNotFoundException "TOR entries" account_id), d))
  /\ (falsy account_id = false -> entries <> [] ->
      (exists entry, In entry entries /\ ~ complete entry) ->
      call d = (Raise TypeError, d))
  /\ (falsy account_id = false -> entries <> [] ->
      (forall entry, In entry entries -> complete entry) ->
      exists updated d',
        call d = (Ok updated, d')
        /\ List.length updated = List.length entries).
Proof.
  intros Hs entries call complete. subst call. unfold atomic_transaction.
  rewrite grading_body_cases. fold entries.
  repeat match goal with |- _ /\ _ => split end.
  - now intros ->.
  - now intros -> ->.
  - intros -> Hne (entry & Hin & Hc).
    destruct entries as [|t ts] eqn:Ee; [congruence|]. rewrite <- Ee in *.
    destruct (for_each _ entries) as [upd|e] eqn:E.
    + exfalso. apply for_each_Forall2 in E.
      assert (exists y, grading_entry is_passing_grade scale
                          (filter CitTorContent.is_active (cit_tor_content d))
                          entry = Ok y) as [y Hy].
      { clear -E Hin. induction E as [|x y l l' Hxy _ IH]; [destruct Hin|].
        destruct Hin as [<- | Hin]; eauto. }
      apply Hc. unfold complete.
      generalize (grading_entry_outcome is_passing_grade
                    (filter CitTorContent.is_active (cit_tor_content d))
                    entry Hs).
      destruct (CompareResultTOR.final_grade entry);
        destruct (CompareResultTOR.total_academic_units entry);
        intros H; try congruence. split; discriminate.
    + apply for_each_raise_inv in E. destruct E as (x & _ & Hx).
      generalize (grading_entry_outcome is_passing_grade
                    (filter CitTorContent.is_active (cit_tor_content d))
                    x Hs).
      destruct (CompareResultTOR.final_grade x);
        destruct (CompareResultTOR.total_academic_units x);
        intros H;
        try match type of H with ex _ => destruct H as [y H] end; congruence.
  - intros -> Hne Hall.
    destruct entries as [|t ts] eqn:Ee; [congruence|]. rewrite <- Ee in *.
    destruct (@for_each_returns _ _
                (grading_entry is_passing_grade scale
                   (filter CitTorContent.is_active (cit_tor_content d)))
                entries) as [upd E].
    { intros x Hx. destruct (Hall x Hx) as [Hg Hu].
      generalize (grading_entry_outcome is_passing_grade
                    (filter CitTorContent.is_active (cit_tor_content d))
                    x Hs).
      destruct (CompareResultTOR.final_grade x);
        destruct (CompareResultTOR.total_academic_units x);
        intros H; try congruence; exact H. }
    rewrite E. eexists. eexists. split; [reflexivity|].
    apply for_each_Forall2 in E. symmetry. eapply Forall2_length; eauto.
Qed.

(** ** What a bulk update leaves in the table *)

Lemma NoDup_map_eq {A B} (f : A -> B) (l : list A) (x y : A) :
  NoDup (map f l) -> In x l -> In y l -> f x = f y -> x = y.
Proof.
  induction l as [|z l IH]; cbn; intros Hnd Hx Hy E; [destruct Hx|].
  inversion Hnd as [|? ? Hnot Hnd']; subst.
  destruct Hx as [<- | Hx], Hy as [<- | Hy]; auto.
  - exfalso. apply Hnot. rewrite E. now apply in_map.
  - exfalso. apply Hnot. rewrite <- E. now apply in_map.
Qed.

Lemma Forall2_pointwise {A B} (R : A -> B -> Prop) (g : A -> B) (l : list A) :
  (forall x, In x l -> R x (g x)) -> Forall2 R l (map g l).
Proof.
  induction l as [|x l IH]; cbn; intros H; constructor; auto.
Qed.

Lemma Forall2_In_l {A B} (R : A -> B -> Prop) (l : list A) (l' : list B) (x : A) :
  Forall2 R l l' -> In x l -> exists y, In y l' /\ R x y.
Proof.
  induction 1 as [|a b l l' Hab _ IH]; intros Hin; [destruct Hin|].
  destruct Hin as [<- | Hin].
  - exists b. split; [now left | exact Hab].
  - destruct (IH Hin) as (y & Hy & HR). exists y. split; [now right | exact HR].
Qed.

Lemma Forall2_In_r {A B} (R : A -> B -> Prop) (l : list A) (l' : list B) (y : B) :
  Forall2 R l l' -> In y l' -> exists x, In x l /\ R x y.
Proof.
  induction 1 as [|a b l l' Hab _ IH]; intros Hin; [destruct Hin|].
  destruct Hin as [<- | Hin].
  - exists a. split; [now left | exact Hab].
  - destruct (IH Hin) as (x & Hx & HR). exists x. split; [now right | exact HR].
Qed.

Lemma write_column_id (o r : CompareResultTOR.t) (c : column) :
  CompareResultTOR.id (write_column o r c) = CompareResultTOR.id r
  /\ CompareResultTOR.account_id (write_column o r c) = CompareResultTOR.account_id r
  /\ CompareResultTOR.subject_code (write_column o r c)
     = CompareResultTOR.subject_code r.
Proof. destruct c; cbn; auto. Qed.

Lemma bulk_update_row_id (objs : list CompareResultTOR.t) (fields : list column)
    (r : CompareResultTOR.t) :
  CompareResultTOR.id (bulk_update_row objs fields r) = CompareResultTOR.id r
  /\ CompareResultTOR.account_id (bulk_update_row objs fields r)
     = CompareResultTOR.account_id r
  /\ CompareResultTOR.subject_code (bulk_update_row objs fields r)
     = CompareResultTOR.subject_code r.
Proof.
  unfold bulk_update_row. destruct (find _ objs) as [o|]; [|auto].
  revert r. induction fields as [|c fields IH]; intros r; cbn [fold_left]; [auto|].
  destruct (IH (write_column o r c)) as (-> & -> & ->).
  apply write_column_id.
Qed.

(** When the objects written back come from the selected rows of a table
    with distinct ids, each by a step that keeps the id and changes only
    the columns listed, every selected row becomes its object and every
    other row stays as it is. *)
Lemma bulk_update_aligned (rows : list CompareResultTOR.t)
    (sel : CompareResultTOR.t -> bool)
    (body : CompareResultTOR.t -> result CompareResultTOR.t)
    (fields : list column) (objs : list CompareResultTOR.t) :
  NoDup (map CompareResultTOR.id rows) ->
  for_each body (filter sel rows) = Ok objs ->
  (forall x y, body x = Ok y ->
     CompareResultTOR.id y = CompareResultTOR.id x
     /\ fold_left (write_column y) fields x = y) ->
  forall r, In r rows ->
    if sel r then body r = Ok (bulk_update_row objs fields r)
    else bulk_update_row objs fields r = r.
Proof.
  intros Hnd Hfe Hbody r Hr.
  apply for_each_Forall2 in Hfe.
  assert (Hsrc : forall o, In o objs ->
            exists x, In x rows /\ sel x = true /\ body x = Ok o).
  { intros o Ho. destruct (Forall2_In_r _ Hfe Ho) as (x & Hx & Hxo).
    apply filter_In in Hx. destruct Hx. eauto. }
  unfold bulk_update_row.
  destruct (find _ objs) as [o|] eqn:Ef.
  - apply find_some in Ef. destruct Ef as [Ho Hid]. apply Nat.eqb_eq in Hid.
    destruct (Hsrc o Ho) as (x & Hx & Hsel & Hxo).
    destruct (Hbody _ _ Hxo) as [Hidx Hfold].
    assert (x = r) as ->
      by (apply (NoDup_map_eq CompareResultTOR.id rows); congruence).
    rewrite Hsel, Hfold. exact Hxo.
  - destruct (sel r) eqn:Hsel; [|reflexivity]. exfalso.
    assert (Hin : In r (filter sel rows)) by (apply filter_In; auto).
    destruct (Forall2_In_l _ Hfe Hin) as (y & Hy & Hry).
    pose proof (find_none _ _ Ef y Hy) as Hn. cbn in Hn.
    destruct (Hbody _ _ Hry) as [Hidy _]. rewrite Hidy, Nat.eqb_refl in Hn.
    discriminate.
Qed.

(** The objects returned are the selected rows of the table afterwards. *)
Lemma for_each_is_filter (rows : list CompareResultTOR.t)
    (sel : CompareResultTOR.t -> bool)
    (body : CompareResultTOR.t -> result CompareResultTOR.t)
    (g : CompareResultTOR.t -> CompareResultTOR.t) :
  (forall x y, body x = Ok y -> sel y = sel x) ->
  forall objs,
    (forall r, In r rows -> if sel r then body r = Ok (g r) else g r = r) ->
    for_each body (filter sel rows) = Ok objs ->
    objs = filter sel (map g rows).
Proof.
  intros Hsel. induction rows as [|x rows IH]; intros objs Hg Hfe; cbn in *.
  - now injection Hfe as <-.
  - pose proof (Hg x (or_introl eq_refl)) as Hx.
    destruct (sel x) eqn:Ex.
    + cbn in Hfe. unfold rbind in Hfe. rewrite Hx in Hfe.
      destruct (for_each body (filter sel rows)) as [ys|] eqn:E; [|discriminate].
      injection Hfe as <-. rewrite (Hsel _ _ Hx), Ex. f_equal.
      apply IH; auto. intros r Hr. apply Hg. now right.
    + rewrite Hx, Ex. apply IH; auto. intros r Hr. apply Hg. now right.
Qed.

Lemma grading_entry_shape (is_passing_grade : CompareResultTOR.t -> bool)
    (scale : option Q -> result string) (cit_entries : list CitTorContent.t)
    (x y : CompareResultTOR.t) :
  grading_entry is_passing_grade scale cit_entries x = Ok y ->
  y = CompareResultTOR.set_summary (CompareResultTOR.summary y)
        (CompareResultTOR.set_remarks (CompareResultTOR.remarks y) x).
Proof.
  unfold grading_entry, rbind.
  destruct (scale _); [|discriminate].
  destruct (generate_summary _ _ _); [|discriminate].
  intros H. injection H as <-. reflexivity.
Qed.

(** A grading call that succeeds on a table with distinct ids leaves every
    entry of the account as its turn of the loop computed it and every
    other row as it was; a row changes in its remarks and summary at most;
    the list returned is the entries of the account as they are stored
    afterwards; the other tables and the id sequence are untouched. *)
Theorem grading_writes_back (is_passing_grade : CompareResultTOR.t -> bool)
    (scale : option Q -> result string) (account_id : string) (d d' : db)
    (updated : list CompareResultTOR.t) :
  NoDup (map CompareResultTOR.id (compare_result_tor d)) ->
  atomic_transaction (grading_body is_passing_grade scale account_id) d
    = (Ok updated, d') ->
  Forall2
    (fun r r' =>
       (if String.eqb (CompareResultTOR.account_id r) account_id
        then grading_entry is_passing_grade scale
               (filter CitTorContent.is_active (cit_tor_content d)) r = Ok r'
        else r' = r)
       /\ r' = CompareResultTOR.set_summary (CompareResultTOR.summary r')
                 (CompareResultTOR.set_remarks (CompareResultTOR.remarks r') r))
    (compare_result_tor d) (compare_result_tor d')
  /\ updated = filter_account account_id (compare_result_tor d')
  /\ cit_tor_content d' = cit_tor_content d
  /\ tor_transferee d' = tor_transferee d
  /\ next_id d' = next_id d.
Proof.
  intros Hnd. unfold atomic_transaction. rewrite grading_body_cases.
  destruct (falsy account_id); [discriminate|].
  destruct (filter_account account_id (compare_result_tor d)) as [|t ts] eqn:Ee;
    [discriminate|].
  rewrite <- Ee. clear Ee t ts.
  destruct (for_each _ _) as [upd|e] eqn:E; [|discriminate].
  intros H. injection H as <- <-. cbn [snd bulk_update compare_result_tor
    cit_tor_content tor_transferee next_id].
  unfold filter_account in E.
  set (body := grading_entry is_passing_grade scale
                 (filter CitTorContent.is_active (cit_tor_content d))) in *.
  assert (Hbody : forall x y, body x = Ok y ->
            CompareResultTOR.id y = CompareResultTOR.id x
            /\ fold_left (write_column y)
                 [remarks_col; summary_col; updated_at_col] x = y).
  { intros x y Hxy. pose proof (grading_entry_shape _ _ _ _ Hxy) as Hs.
    apply grading_entry_remarks in Hxy. destruct Hxy as (_ & _ & Hid).
    split; [exact Hid|]. rewrite Hs. destruct x; reflexivity. }
  pose proof (@bulk_update_aligned _ _ _ _ _ Hnd E Hbody) as Hal.
  repeat split; auto.
  - apply Forall2_pointwise. intros r Hr. specialize (Hal r Hr). cbv beta in Hal.
    split; [exact Hal|].
    destruct (String.eqb (CompareResultTOR.account_id r) account_id).
    + now apply grading_entry_shape in Hal.
    + rewrite Hal. destruct r; reflexivity.
  - unfold filter_account. apply (for_each_is_filter _ _ body); auto.
    intros x y Hxy. pose proof (grading_entry_shape _ _ _ _ Hxy) as Hs.
    rewrite Hs. reflexivity.
Qed.

(** ** Outcomes of the matching call *)

Lemma similarity_bounds (text1 text2 : string) :
  (0 <= calculate_similarity text1 text2)%Q
  /\ (calculate_similarity text1 text2 <= 100)%Q.
Proof.
  unfold calculate_similarity. destruct (_ || _); [split; lra|].
  rewrite Qred_correct.
  pose proof (ratio_bounds (lower text1) (lower text2)). split; lra.
Qed.

Lemma best_accuracy_bounds (tor : CompareResultTOR.t)
    (cit_contents : list CitTorContent.t) :
  (0 <= snd (find_best_match tor cit_contents))%Q
  /\ (snd (find_best_match tor cit_contents) <= 100)%Q.
Proof.
  destruct (find_best_match_cases tor cit_contents)
    as [[-> _] | (l1 & c & l2 & _ & -> & _)]; cbn [snd].
  - split; lra.
  - apply similarity_bounds.
Qed.

Lemma int_of_percentage (x : Q) :
  (0 <= x)%Q -> (x <= 100)%Q -> (0 <= int_of x <= 100)%Z.
Proof.
  intros H0 H100. destruct (int_of_truncates x) as [H _].
  destruct (H H0) as [Hlo Hhi]. clear H.
  assert (H1 : (inject_Z (int_of x) <= 100)%Q) by lra.
  assert (H2 : (-1 < inject_Z (int_of x))%Q) by lra.
  unfold Qle, Qlt in H1, H2. cbn in H1, H2. lia.
Qed.

(** One entry of the matching call raises only [TypeError], and exactly
    when its units are null while the best score reaches the threshold:
    an entry without units and without a match is still evaluated. *)
Theorem sync_entry_outcome (is_passing_grade : CompareResultTOR.t -> bool)
    (cit_contents : list CitTorContent.t) (tor : CompareResultTOR.t) :
  let s := snd (find_best_match tor cit_contents) in
  match sync_entry is_passing_grade cit_contents tor with
  | Raise e =>
      e = TypeError
      /\ CompareResultTOR.total_academic_units tor = None
      /\ (20 <= s)%Q
  | Ok _ =>
      CompareResultTOR.total_academic_units tor <> None \/ (s < 20)%Q
  end.
Proof.
  intros s. subst s. unfold sync_entry.
  destruct (find_best_match_cases tor cit_contents)
    as [[-> _] | (l1 & c & l2 & _ & -> & Hpos & _)]; cbn [snd].
  - cbn. right. lra.
  - unfold evaluate_entry, rbind, SIMILARITY_THRESHOLD.
    destruct (Qleb 20 (match_score tor c)) eqn:E20;
      [apply Qleb_le in E20 | apply Qleb_gt in E20; cbn; now right].
    destruct (CompareResultTOR.total_academic_units tor) as [u|]; cbn [int_units].
    + destruct (_ && _); [|destruct (Qleb 50 _)]; left; discriminate.
    + auto.
Qed.

Lemma sync_entry_shape (is_passing_grade : CompareResultTOR.t -> bool)
    (cit_contents : list CitTorContent.t) (tor tor' : CompareResultTOR.t)
    (row : sync_row) :
  sync_entry is_passing_grade cit_contents tor = Ok (tor', row) ->
  tor' = CompareResultTOR.set_credit_evaluation
           (CompareResultTOR.credit_evaluation tor')
           (CompareResultTOR.set_summary (CompareResultTOR.summary tor') tor)
  /\ row = mk_sync_row
             (CompareResultTOR.subject_code tor')
             (CompareResultTOR.subject_description tor')
             (CompareResultTOR.total_academic_units tor')
             (CompareResultTOR.final_grade tor')
             (CompareResultTOR.remarks tor')
             (CompareResultTOR.summary tor')
             (CompareResultTOR.credit_evaluation tor')
             (row_match_accuracy row) (row_matched_subject row).
Proof.
  unfold sync_entry. destruct (find_best_match tor cit_contents) as [bm acc].
  unfold rbind. destruct (evaluate_entry _ _ _ _) as [t|] eqn:E; [|discriminate].
  intros H. injection H as <- <-. split; [|reflexivity].
  unfold evaluate_entry, rbind in E.
  destruct (Qleb _ _).
  - destruct bm; [|discriminate]. destruct (int_units _); [|discriminate].
    destruct (_ && _); [|destruct (Qleb _ _)]; injection E as <-; reflexivity.
  - injection E as <-. reflexivity.
Qed.

(** What a result row of the matching call says.  The accuracy is a whole
    percentage between 0 and 100.  There is no matched subject exactly when
    no subject of the catalog scores above 0, and then the accuracy is 0.
    The evaluation is INVESTIGATE exactly when the summary is the
    no-match text; otherwise the summary is the match text, for the
    matched subject, with the accuracy of the row, which is at least 20. *)
Theorem sync_row_consistent (is_passing_grade : CompareResultTOR.t -> bool)
    (cit_contents : list CitTorContent.t) (tor tor' : CompareResultTOR.t)
    (row : sync_row) :
  sync_entry is_passing_grade cit_contents tor = Ok (tor', row) ->
  (0 <= row_match_accuracy row <= 100)%Z
  /\ (row_matched_subject row = None
      <-> forall cit, In cit cit_contents -> (match_score tor cit <= 0)%Q)
  /\ (row_matched_subject row = None -> row_match_accuracy row = 0%Z)
  /\ match row_credit_evaluation row with
     | INVESTIGATE =>
         row_summary row
         = NoMatchFound (row_matched_subject row) (row_match_accuracy row)
         /\ (row_match_accuracy row < 20)%Z
     | _ =>
         exists subject units cit_units,
           row_matched_subject row = Some subject
           /\ row_summary row
              = MatchFound subject (row_match_accuracy row) units cit_units
           /\ (20 <= row_match_accuracy row)%Z
     end.
Proof.
  unfold sync_entry.
  pose proof (best_accuracy_bounds tor cit_contents) as [B0 B100].
  pose proof (int_of_percentage B0 B100) as Hint.
  pose proof (int_of_truncates (snd (find_best_match tor cit_contents)))
    as [Htr _]. specialize (Htr B0).
  destruct (find_best_match_cases tor cit_contents)
    as [[E Hall] | (l1 & c & l2 & Hl & E & Hpos & H1 & H2)];
    rewrite E in *; cbn [snd] in *.
  - cbn. intros H. injection H as <- <-. cbn.
    repeat split; auto; try lia.
  - unfold rbind.
    destruct (evaluate_entry _ _ _ _) as [t|] eqn:Ev; [|discriminate].
    intros H. injection H as <- <-.
    cbn [row_match_accuracy row_matched_subject row_credit_evaluation
         row_summary option_map].
    split; [exact Hint|]. split; [|split; [discriminate|]].
    + split; [discriminate|]. intros Hall. exfalso.
      specialize (Hall c). rewrite Hl in Hall.
      specialize (Hall (in_elt _ _ _)). lra.
    + unfold evaluate_entry, rbind, SIMILARITY_THRESHOLD in Ev.
      destruct (Qleb 20 (match_score tor c)) eqn:E20;
        [apply Qleb_le in E20 | apply Qleb_gt in E20].
      * assert (H20 : (20 <= int_of (match_score tor c))%Z).
        { destruct Htr as [_ Hhi].
          assert (Hq : (19 < inject_Z (int_of (match_score tor c)))%Q) by lra.
          unfold Qlt in Hq. cbn in Hq. lia. }
        destruct (int_units _) as [u|]; [|discriminate].
        destruct (_ && _); [|destruct (Qleb 50 _)];
          injection Ev as <-; cbn; eauto 6.
      * injection Ev as <-. cbn. split; [reflexivity|].
        destruct Htr as [Hlo _].
        assert (Hq : (inject_Z (int_of (match_score tor c)) < 20)%Q) by lra.
        unfold Qlt in Hq. cbn in Hq. lia.
Qed.

Lemma for_each_fst {A B C} (body : A -> result (B * C)) (l : list A)
    (results : list (B * C)) :
  for_each body l = Ok results ->
  for_each (fun x => p <~ body x ;; Ok (fst p)) l = Ok (map fst results).
Proof.
  revert results. induction l as [|x l IH]; cbn; intros results H.
  - now injection H as <-.
  - unfold rbind in *. destruct (body x) as [p|]; [|discriminate].
    destruct (for_each body l) as [ps|]; [|discriminate].
    injection H as <-. now rewrite (IH ps eq_refl).
Qed.

(** A matching call that succeeds on a table with distinct ids leaves every
    entry of the account as its turn of the loop computed it and every
    other row as it was; a row changes in its summary and credit
    evaluation at most (its remarks, grade and units stay); each row
    returned shows the entry as it is stored afterwards, in the order of
    the table; the other tables and the id sequence are untouched. *)
Theorem sync_writes_back (is_passing_grade : CompareResultTOR.t -> bool)
    (account_id : string) (d d' : db) (result_data : list sync_row) :
  NoDup (map CompareResultTOR.id (compare_result_tor d)) ->
  sync_curriculum_matching is_passing_grade account_id d = (Ok result_data, d') ->
  Forall2
    (fun r r' =>
       (if String.eqb (CompareResultTOR.account_id r) account_id
        then exists row,
               sync_entry is_passing_grade
                 (filter CitTorContent.is_active (cit_tor_content d)) r
               = Ok (r', row)
        else r' = r)
       /\ r' = CompareResultTOR.set_credit_evaluation
                 (CompareResultTOR.credit_evaluation r')
                 (CompareResultTOR.set_summary (CompareResultTOR.summary r') r))
    (compare_result_tor d) (compare_result_tor d')
  /\ Forall2
       (fun r' row =>
          row = mk_sync_row
                  (CompareResultTOR.subject_code r')
                  (CompareResultTOR.subject_description r')
                  (CompareResultTOR.total_academic_units r')
                  (CompareResultTOR.final_grade r')
                  (CompareResultTOR.remarks r')
                  (CompareResultTOR.summary r')
                  (CompareResultTOR.credit_evaluation r')
                  (row_match_accuracy row) (row_matched_subject row))
       (filter_account account_id (compare_result_tor d')) result_data
  /\ cit_tor_content d' = cit_tor_content d
  /\ tor_transferee d' = tor_transferee d
  /\ next_id d' = next_id d.
Proof.
  intros Hnd. unfold sync_curriculum_matching, atomic_transaction.
  rewrite sync_body_cases.
  destruct (falsy account_id); [discriminate|].
  destruct (filter_account account_id (compare_result_tor d)) as [|t ts] eqn:Ee;
    [discriminate|].
  rewrite <- Ee. clear Ee t ts.
  destruct (for_each _ _) as [results|e] eqn:E; [|discriminate].
  intros H. injection H as <- <-. cbn [snd bulk_update compare_result_tor
    cit_tor_content tor_transferee next_id].
  unfold filter_account in E.
  set (cits := filter CitTorContent.is_active (cit_tor_content d)) in *.
  set (body := fun x => p <~ sync_entry is_passing_grade cits x ;; Ok (fst p)).
  assert (Hinv : forall x y, body x = Ok y ->
            exists row, sync_entry is_passing_grade cits x = Ok (y, row)).
  { intros x y. unfold body, rbind.
    destruct (sync_entry is_passing_grade cits x) as [[y' row]|]; [|discriminate].
    intros H. injection H as <-. eauto. }
  assert (Hbody : forall x y, body x = Ok y ->
            CompareResultTOR.id y = CompareResultTOR.id x
            /\ fold_left (write_column y)
                 [summary_col; credit_evaluation_col; updated_at_col] x = y).
  { intros x y Hxy. destruct (Hinv _ _ Hxy) as [row Hs].
    apply sync_entry_shape in Hs. destruct Hs as [Hs _].
    rewrite Hs. destruct x; split; reflexivity. }
  pose proof (for_each_fst _ _ E) as E'. fold body in E'.
  pose proof (@bulk_update_aligned _ _ _ _ _ Hnd E' Hbody) as Hal.
  repeat split; auto.
  - apply Forall2_pointwise. intros r Hr. specialize (Hal r Hr). cbv beta in Hal.
    destruct (String.eqb (CompareResultTOR.account_id r) account_id).
    + destruct (Hinv _ _ Hal) as [row Hs]. split; [eauto|].
      now apply sync_entry_shape in Hs.
    + rewrite Hal. split; [reflexivity|]. destruct r; reflexivity.
  - unfold filter_account.
    rewrite <- (for_each_is_filter _ _ body
                  (bulk_update_row (map fst results)
                     [summary_col; credit_evaluation_col; updated_at_col]))
      with (objs := map fst results); auto.
    + apply for_each_Forall2 in E. clear -E.
      induction E as [|x [y row] l l' Hxy _ IH]; cbn; constructor; auto.
      now apply sync_entry_shape in Hxy.
    + intros x y Hxy. destruct (Hinv _ _ Hxy) as [row Hs].
      apply sync_entry_shape in Hs. destruct Hs as [Hs _]. rewrite Hs.
      reflexivity.
Qed.

(** ** Primary keys *)

Lemma ids_fresh_same_ids (d d' : db) :
  map CompareResultTOR.id (compare_result_tor d')
  = map CompareResultTOR.id (compare_result_tor d) ->
  next_id d' = next_id d ->
  ids_fresh d -> ids_fresh d'.
Proof.
  unfold ids_fresh. intros Hm Hn [Hnd Hlt]. rewrite Hm, Hn. split; [exact Hnd|].
  intros r Hr. apply (in_map CompareResultTOR.id) in Hr. rewrite Hm in Hr.
  apply in_map_iff in Hr. destruct Hr as (r0 & <- & Hr0). auto.
Qed.

Lemma bulk_update_ids (objs : list CompareResultTOR.t) (fields : list column)
    (d : db) :
  ids_fresh d -> ids_fresh (snd (bulk_update objs fields d)).
Proof.
  apply ids_fresh_same_ids; [|reflexivity]. cbn. rewrite map_map.
  apply map_ext. intros r. apply bulk_update_row_id.
Qed.

Lemma get_or_create_ids (default_notes : string) (now : nat)
    (e : TorTransferee.t) (d : db) :
  ids_fresh d -> ids_fresh (snd (get_or_create default_notes now e d)).
Proof.
  intros [Hnd Hlt]. unfold get_or_create.
  destruct (filter _ (compare_result_tor d)) as [|r [|r' rest]];
    cbn [snd]; try (split; assumption).
  unfold ids_fresh. cbn [compare_result_tor next_id]. split.
  - rewrite map_app. cbn.
    assert (Hn : ~ In (next_id d) (map CompareResultTOR.id (compare_result_tor d))).
    { intros Hin. apply in_map_iff in Hin. destruct Hin as (r & Hr & Hin).
      specialize (Hlt r Hin). lia. }
    clear Hlt. induction (map CompareResultTOR.id (compare_result_tor d))
      as [|i l IH]; cbn.
    + constructor; [intros []|constructor].
    + inversion Hnd; subst. constructor.
      * rewrite in_app_iff. cbn. intros [H|[H|[]]]; [auto|].
        apply Hn. now left.
      * apply IH; auto. intros H. apply Hn. now right.
  - intros r Hr. apply in_app_or in Hr. destruct Hr as [Hr|[<-|[]]].
    + specialize (Hlt r Hr). lia.
    + cbn. lia.
Qed.

Lemma copy_loop_ids (default_notes : string) (now : nat)
    (l : list TorTransferee.t) :
  forall acc cnt d,
    ids_fresh d -> ids_fresh (snd (copy_loop default_notes now l acc cnt d)).
Proof.
  induction l as [|e l IH]; intros acc cnt d H; cbn [copy_loop]; [exact H|].
  unfold bind.
  pose proof (get_or_create_ids default_notes now e H) as H'.
  destruct (get_or_create default_notes now e d) as [[p|ex] d1]; cbn [snd] in *;
    [now apply IH | exact H'].
Qed.

Lemma update_loop_ids (account_id : string)
    (passed_subjects : list (string * string)) :
  forall cnt d,
    ids_fresh d -> ids_fresh (snd (update_loop account_id passed_subjects cnt d)).
Proof.
  induction passed_subjects as [|s l IH]; intros cnt d H;
    cbn [update_loop]; [exact H|].
  unfold bind, update_remarks. apply IH.
  revert H. apply ids_fresh_same_ids; [|reflexivity]. cbn. rewrite map_map.
  apply map_ext. intros r. now destruct (_ && _).
Qed.

Lemma delete_failed_ids (account_id : string) (failed_subjects : list string)
    (d : db) :
  ids_fresh d -> ids_fresh (snd (delete_failed account_id failed_subjects d)).
Proof.
  intros [Hnd Hlt]. unfold delete_failed, ids_fresh.
  cbn [snd compare_result_tor next_id]. split.
  - clear Hlt. induction (compare_result_tor d) as [|r rows IH]; cbn; [constructor|].
    inversion Hnd as [|? ? Hnot Hnd']; subst.
    destruct (negb _); [|auto]. cbn. constructor; [|auto].
    intros Hin. apply Hnot. apply in_map_iff in Hin.
    destruct Hin as (x & Hx & Hin). apply filter_In in Hin.
    apply in_map_iff. exists x. tauto.
  - intros r Hr. apply filter_In in Hr. apply Hlt. tauto.
Qed.

Lemma atomic_transaction_keeps {A} (P : db -> Prop) (c : M A) (d : db) :
  P d -> P (snd (c d)) -> P (snd (atomic_transaction c d)).
Proof.
  unfold atomic_transaction. destruct (c d) as [[a|e] d']; auto.
Qed.

(** Primary keys stay primary keys: if the ids of the rows are distinct and
    below the next id of the sequence, they still are after any call of an
    entry point, whether it returns or raises, and after an evaluation
    override. *)
Theorem ids_stay_fresh (is_passing_grade : CompareResultTOR.t -> bool)
    (default_notes : string) (now : nat) (d : db) :
  ids_fresh d ->
  (forall a, ids_fresh (snd (apply_standard_grading is_passing_grade a d)))
  /\ (forall a, ids_fresh (snd (apply_reverse_grading is_passing_grade a d)))
  /\ (forall a, ids_fresh (snd (sync_curriculum_matching is_passing_grade a d)))
  /\ (forall a, ids_fresh (snd (copy_tor_entries default_notes now a d)))
  /\ (forall a failed passed,
        ids_fresh (snd (update_tor_results a failed passed d)))
  /\ (forall choices saved_at entry_id evaluation notes,
        ids_fresh (snd (update_credit_evaluation choices saved_at
                          entry_id evaluation notes d))).
Proof.
  intros H. repeat match goal with |- _ /\ _ => split end.
  - intros a. unfold apply_standard_grading.
    apply (atomic_transaction_keeps ids_fresh); [exact H|].
    unfold apply_standard_grading_body. rewrite grading_body_cases.
    destruct (falsy a); [exact H|]. destruct (filter_account _ _); [exact H|].
    destruct (for_each _ _); [now apply bulk_update_ids | exact H].
  - intros a. unfold apply_reverse_grading.
    apply (atomic_transaction_keeps ids_fresh); [exact H|].
    unfold apply_reverse_grading_body. rewrite grading_body_cases.
    destruct (falsy a); [exact H|]. destruct (filter_account _ _); [exact H|].
    destruct (for_each _ _); [now apply bulk_update_ids | exact H].
  - intros a. unfold sync_curriculum_matching.
    apply (atomic_transaction_keeps ids_fresh); [exact H|].
    rewrite sync_body_cases.
    destruct (falsy a); [exact H|]. destruct (filter_account _ _); [exact H|].
    destruct (for_each _ _); [now apply bulk_update_ids | exact H].
  - intros a. unfold copy_tor_entries.
    apply (atomic_transaction_keeps ids_fresh); [exact H|].
    unfold copy_tor_entries_body. destruct (falsy a); [exact H|].
    destruct (filter _ (tor_transferee d)); [exact H|].
    now apply copy_loop_ids.
  - intros a failed passed. unfold update_tor_results.
    apply (atomic_transaction_keeps ids_fresh); [exact H|].
    unfold update_tor_results_body. destruct (falsy a); [exact H|].
    unfold bind. cbn [delete_failed].
    pose proof (delete_failed_ids a failed H) as H1.
    unfold delete_failed in H1. cbn [snd] in H1.
    pose proof (update_loop_ids a passed 0 H1) as H2.
    destruct (update_loop a passed 0 _) as [[n|e] d2]; exact H2.
  - intros choices saved_at entry_id evaluation notes.
    unfold update_credit_evaluation.
    destruct (filter _ (compare_result_tor d)) as [|entry [|e2 rest]];
      try exact H.
    destruct (evaluation_of choices evaluation); [|exact H].
    cbn [save_evaluation snd]. revert H.
    apply ids_fresh_same_ids; [|reflexivity]. cbn. rewrite map_map.
    apply map_ext. intros r. now destruct (_ =? _).
Qed.

(** ** What the copy returns *)

Lemma copy_loop_origin (default_notes : string) (now : nat)
    (l : list TorTransferee.t) :
  forall d acc cnt es cnt' d1,
    copy_loop default_notes now l acc cnt d = (Ok (es, cnt'), d1) ->
    exists rs,
      es = (acc ++ rs)%list
      /\ cnt <= cnt' /\ cnt' <= cnt + List.length l
      /\ Forall2
           (fun (e : TorTransferee.t) r =>
              In r (compare_result_tor d)
              \/ exists e' n, In e' l /\ r = new_row default_notes now n e')
           l rs.
Proof.
  induction l as [|e l IH]; intros d acc cnt es cnt' d1; cbn [copy_loop].
  - unfold ret. intros H. injection H as <- <- <-. exists [].
    rewrite app_nil_r. cbn. repeat split; auto; try lia; constructor.
  - unfold bind, get_or_create.
    destruct (filter _ (compare_result_tor d)) as [|r [|r' rest]] eqn:Ef;
      [| |discriminate].
    + cbn [fst snd]. intros H. apply IH in H.
      destruct H as (rs & -> & Hlo & Hhi & Hall).
      cbn [compare_result_tor] in Hall.
      eexists (_ :: rs). split; [now rewrite <- app_assoc|].
      split; [lia|]. split; [cbn [List.length]; lia|].
      constructor.
      * right. exists e, (next_id d). split; [now left | reflexivity].
      * eapply Forall2_impl; [|exact Hall]. cbv beta.
        intros e2 r2 [Hin | (e' & n & He' & ->)].
        -- apply in_app_or in Hin. destruct Hin as [Hin | [<- | []]]; [now left|].
           right. exists e, (next_id d). split; [now left | reflexivity].
        -- right. exists e', n. split; [now right | reflexivity].
    + cbn [fst snd]. intros H. apply IH in H.
      destruct H as (rs & -> & Hlo & Hhi & Hall).
      exists (r :: rs). split; [now rewrite <- app_assoc|].
      split; [lia|]. split; [cbn [List.length]; lia|].
      constructor.
      * left. assert (Hr : In r (filter
          (fun r0 => String.eqb (CompareResultTOR.account_id r0)
                                (TorTransferee.account_id e)
                     && String.eqb (CompareResultTOR.subject_code r0)
                                   (TorTransferee.subject_code e))
          (compare_result_tor d))) by (rewrite Ef; now left).
        apply filter_In in Hr. tauto.
      * eapply Forall2_impl; [|exact Hall]. cbv beta.
        intros e2 r2 [Hin | (e' & n & He' & ->)]; [now left|].
        right. exists e', n. split; [now right | reflexivity].
Qed.

Lemma Forall2_and {A B} (R S : A -> B -> Prop) (l : list A) (l' : list B) :
  Forall2 R l l' -> Forall2 S l l' -> Forall2 (fun x y => R x y /\ S x y) l l'.
Proof.
  induction 1 as [|x y l l' Hxy _ IH]; intros HS; inversion HS; subst;
    constructor; auto.
Qed.

(** A copy that succeeds returns one entry per intake row of the account,
    in the order of the intake.  The entry returned for an intake row has
    its account id and subject code and is, afterwards, the only row of the
    table with them.  It is either a row that was in the table before the
    call, returned as it was, or a row built from an intake row of the
    call with the defaults: its description, units and grade, its remarks
    (the empty text when it has none), an empty summary and the evaluation
    VOID.  At most one row is created per intake row. *)
Theorem copy_returns_one_per_intake (default_notes : string) (now : nat)
    (account_id : string) (d d' : db) (entries : list CompareResultTOR.t)
    (created_count : nat) :
  copy_tor_entries default_notes now account_id d
    = (Ok (entries, created_count), d') ->
  let intake :=
    filter (fun e => String.eqb (TorTransferee.account_id e) account_id)
           (tor_transferee d) in
  intake <> []
  /\ created_count <= List.length intake
  /\ Forall2
       (fun e r =>
          (CompareResultTOR.account_id r = TorTransferee.account_id e
           /\ CompareResultTOR.subject_code r = TorTransferee.subject_code e
           /\ filter (has_key e) (compare_result_tor d') = [r])
          /\ (In r (compare_result_tor d)
              \/ exists e' n, In e' intake /\ r = new_row default_notes now n e'))
       intake entries.
Proof.
  unfold copy_tor_entries, atomic_transaction.
  destruct (copy_tor_entries_body default_notes now account_id d)
    as [[[es cnt]|e] d1] eqn:E; [|discriminate].
  intros H. injection H as -> -> ->. cbv zeta.
  unfold copy_tor_entries_body in E.
  destruct (falsy account_id); [discriminate|].
  destruct (filter _ (tor_transferee d)) as [|t ts] eqn:Ef; [discriminate|].
  pose proof (copy_loop_first _ _ _ _ _ _ E)
    as (rs & created & Hes & Hrows & _ & _ & _ & _ & Hall).
  pose proof (copy_loop_origin _ _ _ _ _ _ E) as (rs' & Hes' & _ & Hhi & Horig).
  cbn [app] in Hes, Hes'. subst rs rs'.
  split; [discriminate|]. split; [cbn in *; lia|].
  apply Forall2_and; [|exact Horig].
  eapply Forall2_impl; [|exact Hall]. cbv beta. intros e r Hf.
  assert (Hr : In r (filter (has_key e) (compare_result_tor d')))
    by (rewrite Hf; now left).
  apply filter_In in Hr. destruct Hr as [_ Hr]. apply has_key_spec in Hr.
  tauto.
Qed.

(** ** Deleting the failed and remarking the passed *)

Lemma set_remarks_own (r : CompareResultTOR.t) :
  CompareResultTOR.set_remarks (CompareResultTOR.remarks r) r = r.
Proof. destruct r; reflexivity. Qed.

Lemma count_after_remarks (account_id code rem code2 : string)
    (rows : list CompareResultTOR.t) :
  List.length
    (filter (fun r =>
               String.eqb (CompareResultTOR.account_id r) account_id
               && String.eqb (CompareResultTOR.subject_code r) code2)
            (map (fun r =>
                    if String.eqb (CompareResultTOR.account_id r) account_id
                       && String.eqb (CompareResultTOR.subject_code r) code
                    then CompareResultTOR.set_remarks rem r else r)
                 rows))
  = List.length
      (filter (fun r =>
                 String.eqb (CompareResultTOR.account_id r) account_id
                 && String.eqb (CompareResultTOR.subject_code r) code2)
              rows).
Proof.
  induction rows as [|r rows IH]; cbn [map filter]; [reflexivity|].
  assert (Hk : CompareResultTOR.account_id
                 (if String.eqb (CompareResultTOR.account_id r) account_id
                     && String.eqb (CompareResultTOR.subject_code r) code
                  then CompareResultTOR.set_remarks rem r else r)
               = CompareResultTOR.account_id r
               /\ CompareResultTOR.subject_code
                    (if String.eqb (CompareResultTOR.account_id r) account_id
                        && String.eqb (CompareResultTOR.subject_code r) code
                     then CompareResultTOR.set_remarks rem r else r)
                  = CompareResultTOR.subject_code r)
    by (destruct (_ && _); split; reflexivity).
  destruct Hk as [-> ->].
  destruct (String.eqb (CompareResultTOR.account_id r) account_id
            && String.eqb (CompareResultTOR.subject_code r) code2);
    cbn [List.length]; now rewrite IH.
Qed.

Lemma update_loop_spec (account_id : string)
    (passed_subjects : list (string * string)) :
  forall cnt d,
    fst (update_loop account_id passed_subjects cnt d)
    = Ok (cnt + list_sum
                  (map (fun subject =>
                          List.length
                            (filter (fun r =>
                                       String.eqb (CompareResultTOR.account_id r) account_id
                                       && String.eqb (CompareResultTOR.subject_code r)
                                                     (fst subject))
                                    (compare_result_tor d)))
                       passed_subjects))
    /\ compare_result_tor (snd (update_loop account_id passed_subjects cnt d))
       = map (fun r =>
                CompareResultTOR.set_remarks
                  (final_remarks account_id passed_subjects r) r)
             (compare_result_tor d)
    /\ cit_tor_content (snd (update_loop account_id passed_subjects cnt d))
       = cit_tor_content d
    /\ tor_transferee (snd (update_loop account_id passed_subjects cnt d))
       = tor_transferee d
    /\ next_id (snd (update_loop account_id passed_subjects cnt d)) = next_id d.
Proof.
  induction passed_subjects as [|[code rem] l IH]; intros cnt d;
    cbn [update_loop map list_sum fst snd].
  - unfold ret. cbn. rewrite Nat.add_0_r. repeat split.
    rewrite <- (map_id (compare_result_tor d)) at 1.
    apply map_ext. intros r. now rewrite set_remarks_own.
  - unfold bind, update_remarks.
    match goal with
    | |- context [update_loop account_id l ?c ?d1] =>
        destruct (IH c d1) as (H1 & H2 & H3 & H4 & H5)
    end.
    cbn [compare_result_tor cit_tor_content tor_transferee next_id] in *.
    rewrite H1, H2, H3, H4, H5. clear H1 H2 H3 H4 H5.
    repeat split.
    + unfold list_sum. cbn [fold_right]. rewrite Nat.add_assoc.
      erewrite map_ext; [reflexivity|]. intros s. cbv beta.
      apply (count_after_remarks account_id code rem).
    + rewrite map_map. apply map_ext. intros r.
      unfold final_remarks. cbn [fold_left fst snd].
      destruct (String.eqb (CompareResultTOR.account_id r) account_id
                && String.eqb (CompareResultTOR.subject_code r) code);
        destruct r; reflexivity.
Qed.

(** [update_tor_results] with an account id never raises.  It deletes the
    rows of the account whose subject is listed as failed and returns their
    number; of the rows that stay, it changes the remarks only, to those of
    the last listing of the row's subject among the passed (a subject
    listed both as failed and as passed is deleted); rows of other
    accounts stay as they are; a row counts as updated once per listing of
    its subject. *)
Theorem update_tor_results_effect (account_id : string)
    (failed_subjects : list string) (passed_subjects : list (string * string))
    (d : db) :
  falsy account_id = false ->
  let kept := filter (fun r => negb (doomed account_id failed_subjects r))
                     (compare_result_tor d) in
  exists d',
    update_tor_results account_id failed_subjects passed_subjects d
    = (Ok (List.length (filter (doomed account_id failed_subjects)
                               (compare_result_tor d)),
           list_sum
             (map (fun subject =>
                     List.length
                       (filter (fun r =>
                                  String.eqb (CompareResultTOR.account_id r) account_id
                                  && String.eqb (CompareResultTOR.subject_code r)
                                                (fst subject))
                               kept))
                  passed_subjects)),
       d')
    /\ compare_result_tor d'
       = map (fun r =>
                CompareResultTOR.set_remarks
                  (final_remarks account_id passed_subjects r) r)
             kept
    /\ (forall r, In r (compare_result_tor d) ->
          CompareResultTOR.account_id r <> account_id ->
          In r (compare_result_tor d'))
    /\ (forall r', In r' (compare_result_tor d') ->
          CompareResultTOR.account_id r' = account_id ->
          ~ In (CompareResultTOR.subject_code r') failed_subjects)
    /\ cit_tor_content d' = cit_tor_content d
    /\ tor_transferee d' = tor_transferee d
    /\ next_id d' = next_id d.
Proof.
  intros Ha kept. unfold update_tor_results, atomic_transaction,
    update_tor_results_body. rewrite Ha. unfold bind, ret.
  cbn [delete_failed]. fold (doomed account_id failed_subjects).
  match goal with
  | |- context [update_loop account_id passed_subjects 0 ?d1] =>
      pose proof (update_loop_spec account_id passed_subjects 0 d1)
        as (H1 & H2 & H3 & H4 & H5);
      destruct (update_loop account_id passed_subjects 0 d1) as [[n|e] d2]
  end; cbn [fst snd compare_result_tor cit_tor_content tor_transferee next_id] in *;
    [|discriminate].
  injection H1 as ->. fold kept in H2 |- *.
  exists d2. repeat split; auto.
  - intros r Hr Hacc. rewrite H2. apply in_map_iff. exists r. split.
    + unfold final_remarks.
      assert (E : String.eqb (CompareResultTOR.account_id r) account_id = false)
        by now apply String.eqb_neq.
      rewrite E. cbn [andb]. clear.
      induction passed_subjects; cbn; [apply set_remarks_own | assumption].
    + apply filter_In. split; [exact Hr|]. unfold doomed.
      apply String.eqb_neq in Hacc. now rewrite Hacc.
  - intros r' Hr' Hacc Hin. rewrite H2 in Hr'. apply in_map_iff in Hr'.
    destruct Hr' as (r & <- & Hr). apply filter_In in Hr. destruct Hr as [_ Hk].
    cbn in Hacc, Hin. unfold doomed in Hk.
    rewrite Hacc, String.eqb_refl in Hk. cbn in Hk.
    apply negb_true_iff in Hk.
    assert (existsb (String.eqb (CompareResultTOR.subject_code r)) failed_subjects
            = true); [|congruence].
    apply existsb_exists. exists (CompareResultTOR.subject_code r).
    split; [exact Hin | apply String.eqb_refl].
Qed.

(** ** Statistics and tracker *)

Lemma evaluations_partition (entries : list CompareResultTOR.t) :
  List.length entries
  = count_evaluation ACCEPTED entries + count_evaluation DENIED entries
    + count_evaluation VOID entries + count_evaluation INVESTIGATE entries.
Proof.
  unfold count_evaluation.
  induction entries as [|r l IH]; cbn [filter List.length]; [reflexivity|].
  destruct (CompareResultTOR.credit_evaluation r); cbn; lia.
Qed.

Lemma remarks_counts_bound (entries : list CompareResultTOR.t) :
  count_remarks "PASSED" entries + count_remarks "FAILED" entries
  <= List.length entries.
Proof.
  unfold count_remarks.
  induction entries as [|r l IH]; cbn [filter List.length]; [lia|].
  destruct (String.eqb (CompareResultTOR.remarks r) "PASSED") eqn:E1.
  - apply String.eqb_eq in E1. rewrite E1. cbn. lia.
  - destruct (String.eqb (CompareResultTOR.remarks r) "FAILED"); cbn; lia.
Qed.

(** The statistics never name the entries to investigate, but determine
    their number: in the dictionary returned, [total] is the sum of
    [accepted], [denied], [void] and the number of entries of the account
    evaluated INVESTIGATE, and [passed] plus [failed] is at most [total].
    For an account without entries (an unknown or empty account id
    included) nothing is raised: every count is 0, and so are the average
    grade and the total units. *)
Theorem statistics_total_splits (account_id : string) (d : db) :
  let entries := filter_account account_id (compare_result_tor d) in
  match fst (get_comparison_statistics account_id d) with
  | Ok stats =>
      exists total accepted denied void passed failed,
        dict_get "total" stats = Some (Count total)
        /\ dict_get "accepted" stats = Some (Count accepted)
        /\ dict_get "denied" stats = Some (Count denied)
        /\ dict_get "void" stats = Some (Count void)
        /\ dict_get "passed" stats = Some (Count passed)
        /\ dict_get "failed" stats = Some (Count failed)
        /\ total = accepted + denied + void + count_evaluation INVESTIGATE entries
        /\ passed + failed <= total
  | Raise _ => entries <> []
  end
  /\ (entries = [] ->
      get_comparison_statistics account_id d
      = (Ok [("total", Count 0); ("accepted", Count 0); ("denied", Count 0);
             ("void", Count 0); ("passed", Count 0); ("failed", Count 0);
             ("average_grade", Number 0%Q); ("total_units", Number 0%Q)], d)).
Proof.
  intros entries.
  unfold get_comparison_statistics, bind, objects_filter, lift, ret.
  cbn [fst snd]. fold entries. split.
  - destruct (sum_units entries 0) as [u|e] eqn:E; cbn [fst].
    + cbn. do 6 eexists. repeat split; try reflexivity.
      * apply evaluations_partition.
      * apply remarks_counts_bound.
    + intros ->. discriminate.
  - intros ->. reflexivity.
Qed.

(** The tracker and the statistics agree: the tracker has one row per entry
    counted in [total], and as many rows with each of the evaluations
    ACCEPTED, DENIED and VOID as the statistics count; both leave the
    database as it is. *)
Theorem tracker_agrees_with_statistics (account_id : string) (d : db)
    (stats : list (string * stat)) :
  fst (get_comparison_statistics account_id d) = Ok stats ->
  exists rows,
    get_tracker_accreditation account_id d = (Ok rows, d)
    /\ snd (get_comparison_statistics account_id d) = d
    /\ dict_get "total" stats = Some (Count (List.length rows))
    /\ forall v,
         v <> INVESTIGATE ->
         dict_get (evaluation_key v) stats
         = Some (Count (List.length
                          (filter (fun t => CreditEvaluation_eqb
                                              (tracker_credit_evaluation t) v)
                                  rows))).
Proof.
  unfold get_comparison_statistics, get_tracker_accreditation, bind,
    objects_filter, lift, ret. cbn [fst snd].
  set (entries := filter_account account_id (compare_result_tor d)).
  destruct (sum_units entries 0) as [u|e]; cbn [fst snd]; [|discriminate].
  intros H. injection H as <-. eexists. split; [reflexivity|].
  split; [reflexivity|]. split; [cbn; now rewrite length_map|].
  assert (Hc : forall v,
             List.length
               (filter (fun t => CreditEvaluation_eqb (tracker_credit_evaluation t) v)
                  (map (fun r =>
                          mk_tracker_row (CompareResultTOR.account_id r)
                            (CompareResultTOR.subject_code r)
                            (CompareResultTOR.subject_description r)
                            (CompareResultTOR.credit_evaluation r)) entries))
             = count_evaluation v entries).
  { intros v. unfold count_evaluation.
    induction entries as [|r l IH]; cbn; [reflexivity|].
    destruct (CreditEvaluation_eqb _ v); cbn; now rewrite IH. }
  intros v Hv. rewrite Hc. destruct v; try congruence; reflexivity.
Qed.

(** ** Overriding an evaluation *)

Lemma filter_by_id (rows : list CompareResultTOR.t) (entry : CompareResultTOR.t) :
  NoDup (map CompareResultTOR.id rows) -> In entry rows ->
  filter (fun r => CompareResultTOR.id r =? CompareResultTOR.id entry) rows
  = [entry].
Proof.
  induction rows as [|r rows IH]; cbn; intros Hnd Hin; [destruct Hin|].
  inversion Hnd as [|? ? Hnot Hnd']; subst.
  destruct Hin as [-> | Hin].
  - rewrite Nat.eqb_refl. f_equal. apply filter_none. intros x Hx.
    apply Nat.eqb_neq. intros E. apply Hnot. rewrite <- E. now apply in_map.
  - destruct (CompareResultTOR.id r =? CompareResultTOR.id entry) eqn:E;
      [|now apply IH].
    apply Nat.eqb_eq in E. exfalso. apply Hnot. rewrite E. now apply in_map.
Qed.

Lemma evaluation_of_valid (choices : list (CreditEvaluation * string))
    (evaluation : string) :
  (evaluation_of choices evaluation = None
   <-> ~ In evaluation (valid_evaluations choices))
  /\ (forall v, evaluation_of choices evaluation = Some v ->
                In (v, evaluation) choices).
Proof.
  unfold evaluation_of, valid_evaluations.
  induction choices as [|[v0 s0] l [IH1 IH2]]; cbn.
  - split; [tauto | discriminate].
  - destruct (String.eqb s0 evaluation) eqn:E.
    + apply String.eqb_eq in E. subst. cbn. split.
      * split; [discriminate | tauto].
      * intros v H. injection H as <-. now left.
    + apply String.eqb_neq in E. split.
      * rewrite IH1. tauto.
      * intros v H. right. now apply IH2.
Qed.

(** Overriding the evaluation of an entry, on a table with distinct ids.
    The entry is looked up before the evaluation is validated: an unknown
    id raises [ResourceNotFoundException] even with an invalid evaluation,
    and an evaluation that is not a value of the enumeration raises
    [ValidationException]; either way nothing is written.  Otherwise the
    entry gets the member the value stands for, the notes given (it keeps
    its notes when none are given) and the saved [updated_at]; its other
    columns and every other row stay as they are, and the entry returned
    is the row as stored. *)
Theorem update_credit_evaluation_effect
    (choices : list (CreditEvaluation * string)) (saved_at : nat -> nat)
    (entry_id : nat) (evaluation : string) (notes : option string) (d : db) :
  NoDup (map CompareResultTOR.id (compare_result_tor d)) ->
  let call := update_credit_evaluation choices saved_at entry_id evaluation notes in
  ((forall r, In r (compare_result_tor d) -> CompareResultTOR.id r <> entry_id) ->
   call d = (Raise (ResourceNotFoundException "CompareResultTOR"
                      (str_of_nat entry_id)), d))
  /\ (forall entry,
        In entry (compare_result_tor d) ->
        CompareResultTOR.id entry = entry_id ->
        (~ In evaluation (valid_evaluations choices) ->
         call d = (Raise (ValidationException
                            ("Invalid evaluation. Must be one of: "
                             ++ join ", " (valid_evaluations choices))), d))
        /\ (In evaluation (valid_evaluations choices) ->
            exists v entry' d',
              call d = (Ok entry', d')
              /\ In (v, evaluation) choices
              /\ entry' = CompareResultTOR.set_updated_at
                            (saved_at (CompareResultTOR.updated_at entry))
                            (set_notes
                               (match notes with
                                | Some n => n
                                | None => CompareResultTOR.notes entry
                                end)
                               (CompareResultTOR.set_credit_evaluation v entry))
              /\ compare_result_tor d'
                 = map (fun r => if CompareResultTOR.id r =? entry_id
                                 then entry' else r)
                       (compare_result_tor d)
              /\ In entry' (compare_result_tor d')
              /\ (forall r, In r (compare_result_tor d) ->
                            CompareResultTOR.id r <> entry_id ->
                            In r (compare_result_tor d')))).
Proof.
  intros Hnd call. subst call. unfold update_credit_evaluation. split.
  - intros Hno.
    assert (E : filter (fun r => CompareResultTOR.id r =? entry_id)
                  (compare_result_tor d) = []).
    { apply filter_none. intros r Hr. apply Nat.eqb_neq. auto. }
    now rewrite E.
  - intros entry Hin <-. rewrite (filter_by_id _ _ Hnd Hin).
    destruct (evaluation_of_valid choices evaluation) as [Hv1 Hv2].
    split.
    + intros Hbad. apply Hv1 in Hbad. now rewrite Hbad.
    + intros Hok.
      destruct (evaluation_of choices evaluation) as [v|] eqn:Ev;
        [|exfalso; now apply (proj1 Hv1)].
      cbn [save_evaluation].
      set (entry' := CompareResultTOR.set_updated_at _ _).
      assert (He : entry' = CompareResultTOR.set_updated_at
                              (saved_at (CompareResultTOR.updated_at entry))
                              (set_notes
                                 (match notes with
                                  | Some n => n
                                  | None => CompareResultTOR.notes entry
                                  end)
                                 (CompareResultTOR.set_credit_evaluation v entry)))
        by (subst entry'; destruct notes, entry; reflexivity).
      assert (Hrows : map (fun r =>
                 if CompareResultTOR.id r =?
                    CompareResultTOR.id
                      match notes with
                      | Some n => set_notes n (CompareResultTOR.set_credit_evaluation v entry)
                      | None => CompareResultTOR.set_credit_evaluation v entry
                      end
                 then CompareResultTOR.set_credit_evaluation
                        (CompareResultTOR.credit_evaluation
                           match notes with
                           | Some n => set_notes n (CompareResultTOR.set_credit_evaluation v entry)
                           | None => CompareResultTOR.set_credit_evaluation v entry
                           end)
                        (set_notes
                           (CompareResultTOR.notes
                              match notes with
                              | Some n => set_notes n (CompareResultTOR.set_credit_evaluation v entry)
                              | None => CompareResultTOR.set_credit_evaluation v entry
                              end)
                           (CompareResultTOR.set_updated_at
                              (saved_at
                                 (CompareResultTOR.updated_at
                                    match notes with
                                    | Some n => set_notes n (CompareResultTOR.set_credit_evaluation v entry)
                                    | None => CompareResultTOR.set_credit_evaluation v entry
                                    end)) r))
                 else r) (compare_result_tor d)
               = map (fun r => if CompareResultTOR.id r =? CompareResultTOR.id entry
                               then entry' else r) (compare_result_tor d)).
      { apply map_ext_in. intros r Hr.
        assert (Hid : CompareResultTOR.id
                        match notes with
                        | Some n => set_notes n (CompareResultTOR.set_credit_evaluation v entry)
                        | None => CompareResultTOR.set_credit_evaluation v entry
                        end = CompareResultTOR.id entry)
          by (destruct notes; reflexivity).
        rewrite Hid.
        destruct (CompareResultTOR.id r =? CompareResultTOR.id entry) eqn:E;
          [|reflexivity].
        apply Nat.eqb_eq in E.
        assert (r = entry) as ->
          by (apply (NoDup_map_eq CompareResultTOR.id (compare_result_tor d)); auto).
        rewrite He. destruct notes, entry; reflexivity. }
      exists v, entry'. eexists. split; [reflexivity|].
      cbn [compare_result_tor]. rewrite Hrows.
      split; [now apply Hv2|]. split; [exact He|]. split; [reflexivity|].
      split.
      * apply in_map_iff. exists entry. now rewrite Nat.eqb_refl.
      * intros r Hr Hne. apply in_map_iff. exists r.
        apply Nat.eqb_neq in Hne. now rewrite Hne.
Qed.

(** ** A text against itself *)

Lemma indices_split (l : list ascii) : forall pos i c,
  pos <= i -> i < pos + List.length l ->
  nth (i - pos) l Difflib.dflt = c ->
  exists js1 js2,
    Difflib.indices_from pos c l = (js1 ++ i :: js2)%list
    /\ Forall (fun j => j < i) js1
    /\ Forall (fun j => i < j) js2.
Proof.
  induction l as [|x l IH]; intros pos i c Hlo Hhi Hc; cbn in Hhi; [lia|].
  cbn [Difflib.indices_from].
  destruct (Nat.eq_dec i pos) as [-> | Hne].
  - rewrite Nat.sub_diag in Hc. cbn in Hc. subst c. rewrite Ascii.eqb_refl.
    exists [], (Difflib.indices_from (S pos) x l). split; [reflexivity|].
    split; [constructor|].
    clear. generalize (S pos) (Nat.lt_succ_diag_r pos).
    induction l as [|y l IH]; intros p Hp; cbn; [constructor|].
    destruct (Ascii.eqb y x); [constructor; [exact Hp|]|]; apply IH; lia.
  - destruct (IH (S pos) i c) as (js1 & js2 & E & H1 & H2); try lia.
    { replace (i - pos) with (S (i - S pos)) in Hc by lia. exact Hc. }
    rewrite E. destruct (Ascii.eqb x c).
    + exists (pos :: js1), js2. split; [reflexivity|].
      split; [constructor; [lia | exact H1] | exact H2].
    + exists js1, js2. auto.
Qed.

Section SelfMatch.

Variable x : list ascii.
Variable i : nat.
Variable prev : list (nat * nat).

Hypothesis i_in_range : i < List.length x.
Hypothesis prev_ok : row_ok 0 0 i prev.
Hypothesis prev_diagonal : forall i', i = S i' -> Difflib.j2lenget prev i' = i.

Lemma inner_loop_before (js1 rest : list nat) : forall new best,
  Forall (fun j => j < i) js1 -> Difflib.m_size best = i ->
  exists new',
    Difflib.inner_loop i 0 (List.length x) prev (js1 ++ rest) new best
    = Difflib.inner_loop i 0 (List.length x) prev rest new' best.
Proof.
  induction js1 as [|j js1 IH]; intros new best Hall Hbest; cbn [app].
  - eauto.
  - inversion Hall as [|? ? Hj Hall']; subst. cbn [Difflib.inner_loop].
    replace (j <? 0) with false by (symmetry; apply Nat.ltb_ge; lia).
    replace (List.length x <=? j) with false by (symmetry; apply Nat.leb_gt; lia).
    set (k := _ + 1).
    assert (Hk : k <= j + 1).
    { subst k. destruct j as [|j']; [lia|].
      destruct (j2lenget_in prev j') as [-> | Hin]; [lia|].
      apply prev_ok in Hin. lia. }
    replace (Difflib.m_size best <? k) with false
      by (symmetry; apply Nat.ltb_ge; lia).
    apply IH; auto.
Qed.

Lemma inner_loop_after (js2 : list nat) : forall new best,
  Forall (fun j => i < j) js2 -> Difflib.m_size best = i + 1 ->
  snd (Difflib.inner_loop i 0 (List.length x) prev js2 new best) = best
  /\ Difflib.j2lenget
       (fst (Difflib.inner_loop i 0 (List.length x) prev js2 new best)) i
     = Difflib.j2lenget new i.
Proof.
  induction js2 as [|j js2 IH]; intros new best Hall Hbest;
    cbn [Difflib.inner_loop]; [now cbn|].
  inversion Hall as [|? ? Hj Hall']; subst.
  replace (j <? 0) with false by (symmetry; apply Nat.ltb_ge; lia).
  destruct (List.length x <=? j); [now cbn|].
  set (k := _ + 1).
  assert (Hk : k <= i + 1).
  { subst k. destruct j as [|j']; [lia|].
    destruct (j2lenget_in prev j') as [-> | Hin]; [lia|].
    apply prev_ok in Hin. lia. }
  replace (Difflib.m_size best <? k) with false
    by (symmetry; apply Nat.ltb_ge; lia).
  destruct (IH ((j, k) :: new) best Hall' Hbest) as [-> ->].
  split; [reflexivity|]. cbn [Difflib.j2lenget].
  replace (j =? i) with false by (symmetry; apply Nat.eqb_neq; lia).
  reflexivity.
Qed.

(** One row of the table, for a short text against itself: the best block
    grows by one along the diagonal. *)
Lemma inner_loop_diagonal :
  List.length x < 200 ->
  let r := Difflib.inner_loop i 0 (List.length x) prev
             (Difflib.b2j x (nth i x Difflib.dflt)) [] (Difflib.mkMatch 0 0 i) in
  snd r = Difflib.mkMatch 0 0 (i + 1)
  /\ Difflib.j2lenget (fst r) i = i + 1.
Proof.
  intros Hshort. cbv zeta. unfold Difflib.b2j, Difflib.is_popular.
  replace (200 <=? List.length x) with false
    by (symmetry; apply Nat.leb_gt; exact Hshort).
  cbn [andb].
  destruct (@indices_split x 0 i (nth i x Difflib.dflt))
    as (js1 & js2 & -> & H1 & H2); try lia.
  { now rewrite Nat.sub_0_r. }
  destruct (@inner_loop_before js1 (i :: js2) [] (Difflib.mkMatch 0 0 i) H1 eq_refl)
    as [new' ->].
  cbn [Difflib.inner_loop].
  replace (i <? 0) with false by (symmetry; apply Nat.ltb_ge; lia).
  replace (List.length x <=? i) with false by (symmetry; apply Nat.leb_gt; lia).
  assert (Hk : match i with 0 => 0 | S i' => Difflib.j2lenget prev i' end + 1
               = i + 1).
  { destruct i as [|i'] eqn:Ei; [reflexivity|]. now rewrite (prev_diagonal eq_refl). }
  rewrite Hk. cbn [Difflib.m_size].
  replace (i <? i + 1) with true by (symmetry; apply Nat.ltb_lt; lia).
  replace (i + 1 - (i + 1)) with 0 by lia.
  destruct (@inner_loop_after js2 ((i, i + 1) :: new')
              (Difflib.mkMatch 0 0 (i + 1)) H2 eq_refl) as [-> ->].
  split; [reflexivity|]. cbn. now rewrite Nat.eqb_refl.
Qed.

End SelfMatch.

Lemma outer_loop_diagonal (x : list ascii) (len : nat) :
  List.length x < 200 ->
  forall i prev,
    i + len <= List.length x ->
    row_ok 0 0 i prev ->
    (forall i', i = S i' -> Difflib.j2lenget prev i' = i) ->
    Difflib.outer_loop x x 0 (List.length x) (seq i len) prev
      (Difflib.mkMatch 0 0 i)
    = Difflib.mkMatch 0 0 (i + len).
Proof.
  intros Hshort. induction len as [|len IH]; intros i prev Hlen Hok Hdiag;
    cbn [seq Difflib.outer_loop]; [now rewrite Nat.add_0_r|].
  assert (Hi : i < List.length x) by lia.
  pose proof (@inner_loop_diagonal x i prev Hi Hok Hdiag Hshort) as [Hb Hd].
  pose proof (@inner_loop_ok 0 (List.length x) 0 (List.length x) i prev
                (Difflib.b2j x (nth i x Difflib.dflt))
                ltac:(lia) Hi Hok [] (Difflib.mkMatch 0 0 i)) as [Hrow _].
  { intros j k []. }
  { unfold within. cbn. lia. }
  destruct (Difflib.inner_loop i 0 (List.length x) prev _ [] _) as [new best].
  cbn [fst snd] in *. subst best.
  replace (i + 1) with (S i) by lia.
  rewrite (IH (S i) new); [f_equal; lia | lia | exact Hrow |].
  intros i' E. injection E as <-. rewrite Hd. lia.
Qed.

Lemma matches_self (x : list ascii) :
  List.length x < 200 -> Difflib.matches x x = List.length x.
Proof.
  intros Hshort. unfold Difflib.matches. cbn [Difflib.matching_size].
  assert (Hf : Difflib.find_longest_match x x 0 (List.length x) 0 (List.length x)
               = Difflib.mkMatch 0 0 (List.length x)).
  { unfold Difflib.find_longest_match. rewrite Nat.sub_0_r.
    assert (Ho : Difflib.outer_loop x x 0 (List.length x)
                   (seq 0 (List.length x)) [] (Difflib.mkMatch 0 0 0)
                 = Difflib.mkMatch 0 0 (0 + List.length x)).
    { apply (@outer_loop_diagonal x (List.length x) Hshort 0 []);
        [lia | intros j k [] | discriminate]. }
    rewrite Ho.
    cbn [Difflib.m_a Difflib.m_size Difflib.extend_left].
    now rewrite Nat.add_0_l, Nat.sub_diag. }
  rewrite Hf. cbn [Difflib.m_a Difflib.m_b Difflib.m_size].
  destruct (List.length x =? 0) eqn:E; [apply Nat.eqb_eq in E; lia|].
  rewrite Nat.ltb_irrefl. cbn [andb].
  rewrite Nat.add_0_l, Nat.ltb_irrefl. cbn [andb]. lia.
Qed.

(** Two texts of fewer than 200 characters that are equal up to letter
    case, and not empty, score exactly 100. *)
Theorem similarity_of_equal_texts (text1 text2 : string) :
  lower text1 = lower text2 ->
  falsy text1 = false ->
  List.length (lower text1) < 200 ->
  calculate_similarity text1 text2 = 100%Q.
Proof.
  intros Heq Hne Hshort. unfold calculate_similarity.
  assert (Hne2 : falsy text2 = false).
  { destruct text2; [|reflexivity]. destruct text1; discriminate. }
  rewrite Hne, Hne2. cbn [orb]. rewrite <- Heq.
  unfold Difflib.ratio. rewrite (@matches_self (lower text1) Hshort).
  assert (Hpos : List.length (lower text1) <> 0)
    by (destruct text1; [discriminate | cbn; lia]).
  destruct (List.length (lower text1) + List.length (lower text1)) as [|m] eqn:E;
    [lia|].
  assert (Hq : Qred (Z.of_nat (2 * List.length (lower text1)) # Pos.of_nat (S m))
               = 1%Q).
  { change 1%Q with (Qred 1). apply Qred_complete.
    unfold Qeq. cbn [Qnum Qden].
    rewrite <- Pos.of_nat_succ, Zpos_P_of_succ_nat. lia. }
  rewrite Hq. reflexivity.
Qed.

(** ** Running a call again *)

Lemma for_each_fixed {A} (body : A -> result A) (l : list A) :
  (forall x, In x l -> body x = Ok x) -> for_each body l = Ok l.
Proof.
  induction l as [|x l IH]; intros H; cbn; [reflexivity|].
  rewrite (H x (or_introl eq_refl)). cbn.
  rewrite IH; [reflexivity|]. intros y Hy. apply H. now right.
Qed.

(** A bulk update whose step, applied to its own result, gives it back:
    run again on the table it left, it computes the same objects and
    leaves the table as it is. *)
Lemma bulk_update_rerun (rows : list CompareResultTOR.t)
    (sel : CompareResultTOR.t -> bool)
    (body : CompareResultTOR.t -> result CompareResultTOR.t)
    (fields : list column) (objs : list CompareResultTOR.t) :
  NoDup (map CompareResultTOR.id rows) ->
  for_each body (filter sel rows) = Ok objs ->
  (forall x y, body x = Ok y ->
     CompareResultTOR.id y = CompareResultTOR.id x
     /\ fold_left (write_column y) fields x = y) ->
  (forall x y, body x = Ok y -> sel y = sel x) ->
  (forall x y, body x = Ok y -> body y = Ok y) ->
  let rows' := map (bulk_update_row objs fields) rows in
  filter sel rows' = objs
  /\ for_each body (filter sel rows') = Ok objs
  /\ map (bulk_update_row objs fields) rows' = rows'.
Proof.
  intros Hnd Hfe Hbody Hsel Hfix rows'.
  pose proof (@bulk_update_aligned _ _ _ _ _ Hnd Hfe Hbody) as Hal.
  assert (Hf : filter sel rows' = objs).
  { symmetry. apply (for_each_is_filter rows sel body); auto. }
  assert (Hown : forall y, In y objs -> body y = Ok y).
  { intros y Hy. apply for_each_Forall2 in Hfe.
    destruct (Forall2_In_r _ Hfe Hy) as (x & _ & Hxy). eauto. }
  assert (Hfe' : for_each body (filter sel rows') = Ok objs).
  { rewrite Hf. now apply for_each_fixed. }
  split; [exact Hf|]. split; [exact Hfe'|].
  assert (Hnd' : NoDup (map CompareResultTOR.id rows')).
  { subst rows'. rewrite map_map.
    erewrite map_ext; [exact Hnd|]. intros r. apply bulk_update_row_id. }
  pose proof (@bulk_update_aligned _ _ _ _ _ Hnd' Hfe' Hbody) as Hal'.
  rewrite <- (map_id rows') at 2. apply map_ext_in. intros r' Hr'.
  specialize (Hal' r' Hr'). destruct (sel r') eqn:Es; [|exact Hal'].
  assert (Hin : In r' objs) by (rewrite <- Hf; apply filter_In; auto).
  rewrite (Hown r' Hin) in Hal'. now injection Hal'.
Qed.

Lemma generate_summary_ignores_summary
    (is_passing_grade : CompareResultTOR.t -> bool)
    (entry : CompareResultTOR.t) (s : summary_text)
    (cit_entries : list CitTorContent.t) :
  is_passing_grade (CompareResultTOR.set_summary s entry) = is_passing_grade entry ->
  generate_summary is_passing_grade (CompareResultTOR.set_summary s entry) cit_entries
  = generate_summary is_passing_grade entry cit_entries.
Proof.
  intros Hip. unfold generate_summary, grade_line. rewrite Hip. reflexivity.
Qed.

(** Grading is idempotent when the passing property of an entry does not
    depend on its summary: on a table with distinct ids, a grading call
    that succeeded, made again on the database it left, returns the same
    entries and leaves every row as it is. *)
Theorem grading_twice (is_passing_grade : CompareResultTOR.t -> bool)
    (scale : option Q -> result string) (account_id : string) (d d' : db)
    (updated : list CompareResultTOR.t) :
  (forall s e, is_passing_grade (CompareResultTOR.set_summary s e)
               = is_passing_grade e) ->
  NoDup (map CompareResultTOR.id (compare_result_tor d)) ->
  atomic_transaction (grading_body is_passing_grade scale account_id) d
    = (Ok updated, d') ->
  exists d'',
    atomic_transaction (grading_body is_passing_grade scale account_id) d'
    = (Ok updated, d'')
    /\ compare_result_tor d'' = compare_result_tor d'.
Proof.
  intros Hip Hnd. unfold atomic_transaction. rewrite !grading_body_cases.
  destruct (falsy account_id); [discriminate|].
  destruct (filter_account account_id (compare_result_tor d)) as [|t ts] eqn:Ee;
    [discriminate|].
  rewrite <- Ee.
  destruct (for_each _ (filter_account account_id (compare_result_tor d)))
    as [upd|e] eqn:E; [|discriminate].
  intros H. injection H as <- <-.
  cbn [snd bulk_update compare_result_tor cit_tor_content].
  set (cits := filter CitTorContent.is_active (cit_tor_content d)) in *.
  set (body := grading_entry is_passing_grade scale cits) in *.
  unfold filter_account in *.
  assert (Hne : upd <> []).
  { apply for_each_Forall2 in E. rewrite Ee in E. inversion E. discriminate. }
  destruct (@bulk_update_rerun (compare_result_tor d)
              (fun r => String.eqb (CompareResultTOR.account_id r) account_id)
              body [remarks_col; summary_col; updated_at_col] upd Hnd E)
    as (Hf & Hfe & Hmap).
  - intros x y Hxy. pose proof (grading_entry_shape _ _ _ _ Hxy) as Hs.
    apply grading_entry_remarks in Hxy. destruct Hxy as (_ & _ & Hid).
    split; [exact Hid|]. rewrite Hs. destruct x; reflexivity.
  - intros x y Hxy. pose proof (grading_entry_shape _ _ _ _ Hxy) as Hs.
    rewrite Hs. reflexivity.
  - intros x y Hxy. pose proof (grading_entry_shape _ _ _ _ Hxy) as Hs.
    apply grading_entry_remarks in Hxy. destruct Hxy as (Hsc & Hgs & _).
    subst body. unfold grading_entry, rbind.
    assert (Hg : CompareResultTOR.final_grade y = CompareResultTOR.final_grade x)
      by (rewrite Hs; reflexivity).
    rewrite Hg, Hsc. rewrite set_remarks_own.
    rewrite Hs at 1. rewrite generate_summary_ignores_summary by apply Hip.
    rewrite Hgs. rewrite Hs at 2. rewrite Hs. reflexivity.
  - cbv zeta in Hf, Hfe, Hmap. rewrite Hf in *.
    destruct upd as [|u us]; [congruence|]. rewrite Hfe.
    eexists. split; [reflexivity|]. cbn [snd bulk_update compare_result_tor].
    exact Hmap.
Qed.

Lemma evaluate_entry_again (is_passing_grade : CompareResultTOR.t -> bool)
    (x y : CompareResultTOR.t) (best_match : option CitTorContent.t) (s : Q) :
  (forall t e, is_passing_grade (CompareResultTOR.set_summary t e)
               = is_passing_grade e) ->
  (forall v e, is_passing_grade (CompareResultTOR.set_credit_evaluation v e)
               = is_passing_grade e) ->
  evaluate_entry is_passing_grade x best_match s = Ok y ->
  evaluate_entry is_passing_grade y best_match s = Ok y.
Proof.
  intros Hs Hv. unfold evaluate_entry, rbind.
  destruct (Qleb SIMILARITY_THRESHOLD s).
  - destruct best_match as [cit|]; [|discriminate].
    destruct (int_units (CompareResultTOR.total_academic_units x)) as [u|] eqn:Eu;
      [|discriminate].
    rewrite Hs.
    destruct (Qleb 80 s && is_passing_grade x) eqn:Ea;
      [|destruct (Qleb 50 s) eqn:E50]; intros H; injection H as <-.
    all: match goal with
         | |- context [int_units (CompareResultTOR.total_academic_units ?Y)] =>
             change (CompareResultTOR.total_academic_units Y)
               with (CompareResultTOR.total_academic_units x)
         end; rewrite Eu; cbv beta iota zeta.
    all: rewrite Hs, Hv, Hs, Ea, ?E50; destruct x; reflexivity.
  - intros H. injection H as <-. destruct x; reflexivity.
Qed.

Lemma sync_entry_again (is_passing_grade : CompareResultTOR.t -> bool)
    (cit_contents : list CitTorContent.t) (x y : CompareResultTOR.t)
    (row : sync_row) :
  (forall t e, is_passing_grade (CompareResultTOR.set_summary t e)
               = is_passing_grade e) ->
  (forall v e, is_passing_grade (CompareResultTOR.set_credit_evaluation v e)
               = is_passing_grade e) ->
  sync_entry is_passing_grade cit_contents x = Ok (y, row) ->
  sync_entry is_passing_grade cit_contents y = Ok (y, row).
Proof.
  intros Hs Hv H. pose proof (sync_entry_shape _ _ _ H) as [Hy _].
  assert (Hf : find_best_match y cit_contents = find_best_match x cit_contents)
    by (rewrite Hy; reflexivity).
  unfold sync_entry in *. rewrite Hf.
  destruct (find_best_match x cit_contents) as [bm acc]. unfold rbind in *.
  destruct (evaluate_entry is_passing_grade x bm acc) as [t|] eqn:E;
    [|discriminate].
  injection H as -> <-.
  now rewrite (@evaluate_entry_again _ _ _ _ _ Hs Hv E).
Qed.

(** The matching call is idempotent when the passing property of an entry
    depends neither on its summary nor on its credit evaluation: on a table
    with distinct ids, a call that succeeded, made again on the database it
    left, returns the same rows and leaves every row of the table as it
    is. *)
Theorem sync_twice (is_passing_grade : CompareResultTOR.t -> bool)
    (account_id : string) (d d' : db) (result_data : list sync_row) :
  (forall t e, is_passing_grade (CompareResultTOR.set_summary t e)
               = is_passing_grade e) ->
  (forall v e, is_passing_grade (CompareResultTOR.set_credit_evaluation v e)
               = is_passing_grade e) ->
  NoDup (map CompareResultTOR.id (compare_result_tor d)) ->
  sync_curriculum_matching is_passing_grade account_id d = (Ok result_data, d') ->
  exists d'',
    sync_curriculum_matching is_passing_grade account_id d' = (Ok result_data, d'')
    /\ compare_result_tor d'' = compare_result_tor d'.
Proof.
  intros Hs Hv Hnd. unfold sync_curriculum_matching, atomic_transaction.
  rewrite !sync_body_cases.
  destruct (falsy account_id); [discriminate|].
  destruct (filter_account account_id (compare_result_tor d)) as [|t ts] eqn:Ee;
    [discriminate|].
  rewrite <- Ee.
  destruct (for_each _ (filter_account account_id (compare_result_tor d)))
    as [results|e] eqn:E; [|discriminate].
  intros H. injection H as <- <-.
  cbn [snd bulk_update compare_result_tor cit_tor_content].
  set (cits := filter CitTorContent.is_active (cit_tor_content d)) in *.
  set (body := fun x => p <~ sync_entry is_passing_grade cits x ;; Ok (fst p)).
  unfold filter_account in *.
  assert (Hinv : forall x y, body x = Ok y ->
            exists row, sync_entry is_passing_grade cits x = Ok (y, row)).
  { intros x y. unfold body, rbind.
    destruct (sync_entry is_passing_grade cits x) as [[y' row]|]; [|discriminate].
    intros H. injection H as <-. eauto. }
  pose proof (for_each_fst _ _ E) as E'. fold body in E'.
  assert (Hne : results <> []).
  { apply for_each_Forall2 in E. rewrite Ee in E. inversion E. discriminate. }
  destruct (@bulk_update_rerun (compare_result_tor d)
              (fun r => String.eqb (CompareResultTOR.account_id r) account_id)
              body [summary_col; credit_evaluation_col; updated_at_col]
              (map fst results) Hnd E')
    as (Hf & _ & Hmap).
  - intros x y Hxy. destruct (Hinv _ _ Hxy) as [row Hr].
    apply sync_entry_shape in Hr. destruct Hr as [Hr _].
    rewrite Hr. destruct x; split; reflexivity.
  - intros x y Hxy. destruct (Hinv _ _ Hxy) as [row Hr].
    apply sync_entry_shape in Hr. destruct Hr as [Hr _]. rewrite Hr. reflexivity.
  - intros x y Hxy. destruct (Hinv _ _ Hxy) as [row Hr].
    unfold body. now rewrite (@sync_entry_again _ _ _ _ _ Hs Hv Hr).
  - cbv zeta in Hf, Hmap. rewrite Hf.
    assert (Hagain : for_each (sync_entry is_passing_grade cits) (map fst results)
                     = Ok results).
    { apply for_each_Forall2 in E. clear -E Hs Hv.
      induction E as [|x [y row] l l' Hxy _ IH]; cbn; [reflexivity|].
      rewrite (@sync_entry_again _ _ _ _ _ Hs Hv Hxy). cbn. now rewrite IH. }
    rewrite Hagain.
    destruct results as [|p ps]; [congruence|]. cbn [map].
    eexists. split; [reflexivity|]. cbn [snd bulk_update compare_result_tor].
    exact Hmap.
Qed.

(** ** Only active subjects are matched *)



(** ** The further properties at work on the sample data *)

Lemma sample_ids : NoDup (map CompareResultTOR.id (compare_result_tor sample_db)).
Proof. cbn. constructor; [intros [] | constructor]. Qed.

Lemma sample_graded_run :
  atomic_transaction (grading_body passing_by_remarks standard_remarks "S100")
    sample_db = (Ok sample_graded, sample_graded_db).
Proof. reflexivity. Qed.

Lemma sample_synced_run :
  sync_curriculum_matching passing_by_remarks "S100" sample_db
  = (Ok [sample_sync_row], sample_synced_db).
Proof. reflexivity. Qed.

Lemma passing_by_remarks_ignores :
  (forall t e, passing_by_remarks (CompareResultTOR.set_summary t e)
               = passing_by_remarks e)
  /\ (forall v e, passing_by_remarks (CompareResultTOR.set_credit_evaluation v e)
                  = passing_by_remarks e).
Proof. split; reflexivity. Qed.

Lemma grading_outcome_witness :
  (standard_remarks = standard_remarks \/ standard_remarks = reverse_remarks)
  /\ exists updated d',
       atomic_transaction
         (grading_body passing_by_remarks standard_remarks "S100") sample_db
       = (Ok updated, d')
       /\ List.length updated
          = List.length (filter_account "S100" (compare_result_tor sample_db)).
Proof.
  split; [now left|].
  apply (proj2 (proj2 (proj2
           (@grading_outcome passing_by_remarks standard_remarks "S100" sample_db
              (or_introl eq_refl))))).
  - reflexivity.
  - vm_compute. discriminate.
  - intros entry [<- | []]. split; discriminate.
Defined.

Lemma grading_writes_back_witness :
  NoDup (map CompareResultTOR.id (compare_result_tor sample_db))
  /\ atomic_transaction (grading_body passing_by_remarks standard_remarks "S100")
       sample_db = (Ok sample_graded, sample_graded_db)
  /\ sample_graded = filter_account "S100" (compare_result_tor sample_graded_db).
Proof.
  split; [exact sample_ids|]. split; [exact sample_graded_run|].
  exact (proj1 (proj2 (@grading_writes_back _ _ _ _ _ _ sample_ids sample_graded_run))).
Defined.

Lemma sync_row_consistent_witness :
  sync_entry passing_by_remarks sample_catalog sample_entry
  = Ok (sample_synced_entry, sample_sync_row)
  /\ (0 <= row_match_accuracy sample_sync_row <= 100)%Z.
Proof.
  assert (H : sync_entry passing_by_remarks sample_catalog sample_entry
              = Ok (sample_synced_entry, sample_sync_row)) by reflexivity.
  split; [exact H|]. exact (proj1 (@sync_row_consistent _ _ _ _ _ H)).
Defined.

Lemma sync_writes_back_witness :
  NoDup (map CompareResultTOR.id (compare_result_tor sample_db))
  /\ sync_curriculum_matching passing_by_remarks "S100" sample_db
     = (Ok [sample_sync_row], sample_synced_db)
  /\ next_id sample_synced_db = next_id sample_db.
Proof.
  split; [exact sample_ids|]. split; [exact sample_synced_run|].
  exact (proj2 (proj2 (proj2 (proj2
           (@sync_writes_back _ _ _ _ _ sample_ids sample_synced_run))))).
Defined.

Lemma ids_stay_fresh_witness :
  ids_fresh sample_db
  /\ ids_fresh (snd (copy_tor_entries "" 7 "S100" sample_db)).
Proof.
  assert (H : ids_fresh sample_db).
  { split; [exact sample_ids|]. intros r [<- | []]. cbn. lia. }
  split; [exact H|].
  exact (proj1 (proj2 (proj2 (proj2
           (@ids_stay_fresh passing_by_remarks "" 7 sample_db H)))) "S100").
Defined.

Lemma copy_returns_one_per_intake_witness :
  copy_tor_entries "" 7 "S100" sample_db = (Ok (sample_copied, 1), sample_db_copied)
  /\ 1 <= List.length
            (filter (fun e => String.eqb (TorTransferee.account_id e) "S100")
                    (tor_transferee sample_db)).
Proof.
  assert (H : copy_tor_entries "" 7 "S100" sample_db
              = (Ok (sample_copied, 1), sample_db_copied)) by reflexivity.
  split; [exact H|].
  exact (proj1 (proj2 (@copy_returns_one_per_intake _ _ _ _ _ _ _ H))).
Defined.

Lemma update_tor_results_effect_witness :
  falsy "S100" = false
  /\ exists d',
       update_tor_results "S100" ["MATH1"] [("CS101", "CREDITED")] sample_db_copied
       = (Ok (1, 1), d')
       /\ compare_result_tor d'
          = [CompareResultTOR.set_remarks "CREDITED" sample_entry].
Proof.
  split; [reflexivity|].
  destruct (@update_tor_results_effect "S100" ["MATH1"] [("CS101", "CREDITED")]
              sample_db_copied eq_refl) as (d' & H1 & H2 & _).
  exists d'. split; [exact H1 | exact H2].
Defined.

Lemma tracker_agrees_with_statistics_witness :
  fst (get_comparison_statistics "S100" sample_db) = Ok sample_stats
  /\ exists rows,
       get_tracker_accreditation "S100" sample_db = (Ok rows, sample_db)
       /\ dict_get "total" sample_stats = Some (Count (List.length rows)).
Proof.
  assert (H : fst (get_comparison_statistics "S100" sample_db) = Ok sample_stats)
    by reflexivity.
  split; [exact H|].
  destruct (@tracker_agrees_with_statistics _ _ _ H)
    as (rows & H1 & _ & H2 & _).
  exists rows. split; [exact H1 | exact H2].
Defined.

Lemma update_credit_evaluation_effect_witness :
  NoDup (map CompareResultTOR.id (compare_result_tor sample_db))
  /\ update_credit_evaluation sample_choices S 9 "Bogus" None sample_db
     = (Raise (ResourceNotFoundException "CompareResultTOR" "9"), sample_db).
Proof.
  split; [exact sample_ids|].
  apply (proj1 (@update_credit_evaluation_effect sample_choices S 9 "Bogus" None
                  sample_db sample_ids)).
  intros r [<- | []]. discriminate.
Defined.

Lemma similarity_of_equal_texts_witness :
  lower "Data Structures" = lower "DATA STRUCTURES"
  /\ falsy "Data Structures" = false
  /\ List.length (lower "Data Structures") < 200
  /\ calculate_similarity "Data Structures" "DATA STRUCTURES" = 100%Q.
Proof.
  assert (H1 : lower "Data Structures" = lower "DATA STRUCTURES") by reflexivity.
  assert (H3 : List.length (lower "Data Structures") < 200) by (cbn; lia).
  split; [exact H1|]. split; [reflexivity|]. split; [exact H3|].
  exact (@similarity_of_equal_texts "Data Structures" "DATA STRUCTURES"
           H1 eq_refl H3).
Defined.

Lemma grading_twice_witness :
  (forall s e, passing_by_remarks (CompareResultTOR.set_summary s e)
               = passing_by_remarks e)
  /\ NoDup (map CompareResultTOR.id (compare_result_tor sample_db))
  /\ atomic_transaction (grading_body passing_by_remarks standard_remarks "S100")
       sample_db = (Ok sample_graded, sample_graded_db)
  /\ exists d'',
       atomic_transaction
         (grading_body passing_by_remarks standard_remarks "S100") sample_graded_db
       = (Ok sample_graded, d'')
       /\ compare_result_tor d'' = compare_result_tor sample_graded_db.
Proof.
  split; [exact (proj1 passing_by_remarks_ignores)|].
  split; [exact sample_ids|]. split; [exact sample_graded_run|].
  exact (@grading_twice _ _ _ _ _ _ (proj1 passing_by_remarks_ignores) sample_ids
           sample_graded_run).
Defined.

Lemma sync_twice_witness :
  (forall t e, passing_by_remarks (CompareResultTOR.set_summary t e)
               = passing_by_remarks e)
  /\ (forall v e, passing_by_remarks (CompareResultTOR.set_credit_evaluation v e)
                  = passing_by_remarks e)
  /\ NoDup (map CompareResultTOR.id (compare_result_tor sample_db))
  /\ sync_curriculum_matching passing_by_remarks "S100" sample_db
     = (Ok [sample_sync_row], sample_synced_db)
  /\ exists d'',
       sync_curriculum_matching passing_by_remarks "S100" sample_synced_db
       = (Ok [sample_sync_row], d'')
       /\ compare_result_tor d'' = compare_result_tor sample_synced_db.
Proof.
  split; [exact (proj1 passing_by_remarks_ignores)|].
  split; [exact (proj2 passing_by_remarks_ignores)|].
  split; [exact sample_ids|]. split; [exact sample_synced_run|].
  exact (@sync_twice _ _ _ _ _ (proj1 passing_by_remarks_ignores)
           (proj2 passing_by_remarks_ignores) sample_ids sample_synced_run).
Defined.


(** * Properties of the profile service *)

Lemma filter_unique {A K} (f : A -> K) (eqb : K -> K -> bool) (l : list A) (x : A) :
  (forall a b, eqb a b = true <-> a = b) ->
  NoDup (map f l) -> In x l ->
  filter (fun r => eqb (f r) (f x)) l = [x].
Proof.
  intros Heqb. induction l as [|r l IH]; cbn; intros Hnd Hin; [destruct Hin|].
  inversion Hnd as [|? ? Hnot Hnd']; subst.
  destruct Hin as [-> | Hin].
  - rewrite (proj2 (Heqb _ _) eq_refl). f_equal. apply filter_none.
    intros y Hy. destruct (eqb (f y) (f x)) eqn:E; [|reflexivity].
    apply Heqb in E. exfalso. apply Hnot. rewrite <- E. now apply in_map.
  - destruct (eqb (f r) (f x)) eqn:E; [|now apply IH].
    apply Heqb in E. exfalso. apply Hnot. rewrite E. now apply in_map.
Qed.

Lemma profiles_of_member (s : profile_db) (p : Profile.t) :
  NoDup (map Profile.user_id (profiles s)) -> In p (profiles s) ->
  profiles_of (Profile.user_id p) s = [p].
Proof.
  intros Hnd Hin. unfold profiles_of.
  apply (filter_unique Profile.user_id String.eqb); auto.
  intros a b. apply String.eqb_eq.
Qed.

Lemma profiles_of_absent (s : profile_db) (u : string) :
  profiles_of u s = [] <-> forall p, In p (profiles s) -> Profile.user_id p <> u.
Proof.
  unfold profiles_of. rewrite filter_none. split; intros H p Hp.
  - apply String.eqb_neq. auto.
  - apply String.eqb_neq. auto.
Qed.

(** Creating a profile for a user who has none returns the profile under a
    fresh id, with the fields exactly as they were given (an empty text
    stays an empty text), and appends it to the table; when saving keeps
    the user id, the profile can then be read back, the user exists, and a
    second creation for the user raises [DuplicateResourceException]
    without changing anything. *)
Theorem create_profile_then_found (model_save : Profile.t -> Profile.t)
    (is_complete_default : bool) (user_id : string)
    (name school_name email phone address date_of_birth : option string)
    (s : profile_db) :
  keeps_user_id model_save ->
  falsy user_id = false ->
  check_profile_exists user_id s = false ->
  let profile :=
    Profile.set_id (next_profile_id s)
      (model_save
         (Profile.mk 0 user_id name school_name email phone address
            date_of_birth is_complete_default)) in
  let s' := mk_profile_db (profiles s ++ [profile]) (S (next_profile_id s)) in
  create_profile model_save is_complete_default user_id name school_name
    email phone address date_of_birth s = (POk profile, s')
  /\ get_profile user_id s' = (POk profile, s')
  /\ check_profile_exists user_id s' = true
  /\ forall name' school_name' email' phone' address' date_of_birth',
       create_profile model_save is_complete_default user_id name' school_name'
         email' phone' address' date_of_birth' s'
       = (PRaise (ProfileDuplicate "Profile" user_id), s').
Proof.
  intros Hk Hu Hex profile s'.
  assert (Hnone : profiles_of user_id s = []).
  { unfold check_profile_exists in Hex.
    destruct (profiles_of user_id s); [reflexivity | discriminate]. }
  assert (Hone : profiles_of user_id s' = [profile]).
  { unfold profiles_of in *. subst s'. cbn [profiles].
    rewrite filter_app, Hnone. cbn [filter app].
    assert (E : Profile.user_id profile = user_id) by (subst profile; cbn; apply Hk).
    rewrite E, String.eqb_refl. reflexivity. }
  repeat split.
  - unfold create_profile, atomic_profile, create_profile_body.
    now rewrite Hu, Hex.
  - unfold get_profile. now rewrite Hone.
  - unfold check_profile_exists. now rewrite Hone.
  - intros. unfold create_profile, atomic_profile, create_profile_body.
    rewrite Hu. unfold check_profile_exists. now rewrite Hone.
Qed.

(** Updating the profile of a user, on a table with one row per user id and
    distinct ids: the fields that are given replace the stored ones, the
    fields that are not given are passed on as stored, the row keeps its id
    and its user id, and every other row stays as it is.  For a user
    without a profile the call raises [ResourceNotFoundException] and
    changes nothing. *)
Theorem update_profile_effect (model_save : Profile.t -> Profile.t)
    (user_id : string)
    (name school_name email phone address date_of_birth : option string)
    (s : profile_db) :
  profiles_ok s ->
  let call :=
    update_profile model_save user_id name school_name email phone address
      date_of_birth in
  ((forall p, In p (profiles s) -> Profile.user_id p <> user_id) ->
   call s = (PRaise (ProfileNotFound "Profile" user_id), s))
  /\ (forall p,
        In p (profiles s) -> Profile.user_id p = user_id ->
        let profile :=
          Profile.set_id (Profile.id p)
            (model_save
               (Profile.mk (Profile.id p) user_id
                  (provided name (Profile.name p))
                  (provided school_name (Profile.school_name p))
                  (provided email (Profile.email p))
                  (provided phone (Profile.phone p))
                  (provided address (Profile.address p))
                  (provided date_of_birth (Profile.date_of_birth p))
                  (Profile.is_complete p))) in
        exists s',
          call s = (POk profile, s')
          /\ Forall2 (fun r r' => if Profile.id r =? Profile.id p
                                  then r = p /\ r' = profile else r' = r)
               (profiles s) (profiles s')
          /\ next_profile_id s' = next_profile_id s).
Proof.
  intros (Hu & Hi & _) call. subst call.
  unfold update_profile, atomic_profile, update_profile_body, get_profile.
  split.
  - intros Hno. apply profiles_of_absent in Hno. now rewrite Hno.
  - intros p Hin <-. rewrite (profiles_of_member _ _ Hu Hin).
    eexists. split; [reflexivity|]. split; [|reflexivity].
    unfold save_row. cbn [profiles]. apply Forall2_pointwise. intros r Hr.
    change (Profile.id (Profile.set_id (Profile.id p) _)) with (Profile.id p).
    destruct (Profile.id r =? Profile.id p) eqn:E; [|reflexivity].
    apply Nat.eqb_eq in E. split; [|reflexivity].
    apply (NoDup_map_eq Profile.id (profiles s)); auto.
Qed.

(** Deleting a profile never returns [False]: it returns [True] or raises.
    On a table with one row per user id and distinct ids, deleting the
    profile of a user removes that row and no other, after which the user
    no longer exists; for a user without a profile the call raises
    [ResourceNotFoundException] and changes nothing. *)
Theorem delete_profile_effect (user_id : string) (s : profile_db) :
  profiles_ok s ->
  (forall b s', delete_profile user_id s = (POk b, s') -> b = true)
  /\ ((forall p, In p (profiles s) -> Profile.user_id p <> user_id) ->
      delete_profile user_id s = (PRaise (ProfileNotFound "Profile" user_id), s))
  /\ (forall p,
        In p (profiles s) -> Profile.user_id p = user_id ->
        exists s',
          delete_profile user_id s = (POk true, s')
          /\ check_profile_exists user_id s' = false
          /\ (forall q, In q (profiles s') <-> In q (profiles s) /\ q <> p)
          /\ next_profile_id s' = next_profile_id s).
Proof.
  intros (Hu & Hi & _). unfold delete_profile, get_profile.
  repeat split.
  - intros b s'.
    destruct (profiles_of user_id s) as [|p [|q l]]; intros H;
      try discriminate. now injection H as <- _.
  - intros Hno. apply profiles_of_absent in Hno. now rewrite Hno.
  - intros p Hin <-. rewrite (profiles_of_member _ _ Hu Hin).
    eexists. split; [reflexivity|].
    assert (Hq : forall q,
               In q (filter (fun r => negb (Profile.id r =? Profile.id p))
                            (profiles s))
               <-> In q (profiles s) /\ q <> p).
    { intros q. rewrite filter_In, negb_true_iff, Nat.eqb_neq. split.
      - intros [H1 H2]. split; [exact H1|]. intros ->. now apply H2.
      - intros [H1 H2]. split; [exact H1|]. intros E. apply H2.
        apply (NoDup_map_eq Profile.id (profiles s)); auto. }
    split; [|split; [exact Hq | reflexivity]].
    unfold check_profile_exists.
    assert (E : profiles_of (Profile.user_id p)
                  (mk_profile_db
                     (filter (fun r => negb (Profile.id r =? Profile.id p))
                             (profiles s)) (next_profile_id s)) = []).
    { apply profiles_of_absent. cbn [profiles]. intros q Hq' E.
      apply Hq in Hq'. destruct Hq' as [Hq1 Hq2]. apply Hq2.
      apply (NoDup_map_eq Profile.user_id (profiles s)); auto. }
    now rewrite E.
Qed.

Lemma NoDup_map_filter {A B} (f : A -> B) (g : A -> bool) (l : list A) :
  NoDup (map f l) -> NoDup (map f (filter g l)).
Proof.
  induction l as [|x l IH]; cbn; intros Hnd; [constructor|].
  inversion Hnd as [|? ? Hnot Hnd']; subst.
  destruct (g x); [|auto]. cbn. constructor; [|auto].
  intros Hin. apply Hnot. apply in_map_iff in Hin.
  destruct Hin as (y & Hy & Hin). apply filter_In in Hin.
  apply in_map_iff. exists y. tauto.
Qed.

Lemma NoDup_snoc {A} (l : list A) (x : A) :
  NoDup l -> ~ In x l -> NoDup (l ++ [x]).
Proof.
  induction l as [|y l IH]; cbn; intros Hnd Hx.
  - constructor; [intros [] | constructor].
  - inversion Hnd; subst. constructor.
    + rewrite in_app_iff. cbn. intros [H|[H|[]]]; [auto|]. apply Hx. now left.
    + apply IH; auto.
Qed.

(** The profile table keeps one row per user id, with distinct ids below
    the next id, through every creation, update and deletion, whether the
    call returns or raises, provided saving keeps the user id of the
    instance. *)
Theorem profiles_stay_ok (model_save : Profile.t -> Profile.t)
    (is_complete_default : bool) (s : profile_db) :
  keeps_user_id model_save ->
  profiles_ok s ->
  (forall user_id name school_name email phone address date_of_birth,
      profiles_ok
        (snd (create_profile model_save is_complete_default user_id name
                school_name email phone address date_of_birth s)))
  /\ (forall user_id name school_name email phone address date_of_birth,
        profiles_ok
          (snd (update_profile model_save user_id name school_name email
                  phone address date_of_birth s)))
  /\ (forall user_id, profiles_ok (snd (delete_profile user_id s))).
Proof.
  intros Hk Hok. pose proof Hok as (Hu & Hi & Hlt). repeat split.
  - unfold create_profile, atomic_profile, create_profile_body.
    destruct (falsy user_id); [exact Hu|].
    destruct (check_profile_exists user_id s) eqn:Ex; [exact Hu|].
    cbn [snd profiles]. rewrite map_app. cbn [map Profile.user_id Profile.set_id].
    rewrite Hk. cbn [Profile.user_id]. apply NoDup_snoc; [exact Hu|].
    intros Hin. apply in_map_iff in Hin. destruct Hin as (p & Hp & Hin).
    unfold check_profile_exists in Ex.
    destruct (profiles_of user_id s) eqn:E; [|discriminate].
    apply (proj1 (profiles_of_absent s user_id) E p Hin Hp).
  - unfold create_profile, atomic_profile, create_profile_body.
    destruct (falsy user_id); [exact Hi|].
    destruct (check_profile_exists user_id s); [exact Hi|].
    cbn [snd profiles]. rewrite map_app. cbn [map Profile.id Profile.set_id].
    apply NoDup_snoc; [exact Hi|].
    intros Hin. apply in_map_iff in Hin. destruct Hin as (p & Hp & Hin).
    specialize (Hlt p Hin). lia.
  - unfold create_profile, atomic_profile, create_profile_body.
    destruct (falsy user_id); [exact Hlt|].
    destruct (check_profile_exists user_id s); [exact Hlt|].
    cbn [snd profiles next_profile_id]. intros p Hp.
    apply in_app_or in Hp. destruct Hp as [Hp | [<- | []]].
    + specialize (Hlt p Hp). lia.
    + cbn. lia.
  - unfold update_profile, atomic_profile, update_profile_body, get_profile.
    destruct (profiles_of user_id s) as [|p [|q l]] eqn:E; try exact Hu.
    cbn [snd save_row profiles].
    assert (Hp : In p (profiles s)).
    { assert (H : In p (profiles_of user_id s)) by (rewrite E; now left).
      apply filter_In in H. tauto. }
    rewrite map_map. erewrite map_ext_in; [exact Hu|]. intros r Hr. cbv beta.
    change (Profile.id (Profile.set_id (Profile.id p) _)) with (Profile.id p).
    destruct (Profile.id r =? Profile.id p) eqn:Eid; [|reflexivity].
    apply Nat.eqb_eq in Eid.
    assert (r = p) as -> by (apply (NoDup_map_eq Profile.id (profiles s)); auto).
    cbn [Profile.user_id Profile.set_id]. now rewrite Hk.
  - unfold update_profile, atomic_profile, update_profile_body, get_profile.
    destruct (profiles_of user_id s) as [|p [|q l]] eqn:E; try exact Hi.
    cbn [snd save_row profiles].
    rewrite map_map. erewrite map_ext; [exact Hi|]. intros r. cbv beta.
    change (Profile.id (Profile.set_id (Profile.id p) _)) with (Profile.id p).
    destruct (Profile.id r =? Profile.id p) eqn:Eid; [|reflexivity].
    apply Nat.eqb_eq in Eid. cbn. now symmetry.
  - unfold update_profile, atomic_profile, update_profile_body, get_profile.
    destruct (profiles_of user_id s) as [|p [|q l]] eqn:E; try exact Hlt.
    cbn [snd save_row profiles next_profile_id]. intros r Hr.
    apply in_map_iff in Hr. destruct Hr as (r0 & Hr0 & Hin).
    change (Profile.id (Profile.set_id (Profile.id p) _)) with (Profile.id p) in Hr0.
    destruct (Profile.id r0 =? Profile.id p) eqn:Eid.
    + apply Nat.eqb_eq in Eid. subst r. cbn. rewrite <- Eid. auto.
    + subst r. auto.
  - unfold delete_profile, get_profile.
    destruct (profiles_of user_id s) as [|p [|q l]]; try exact Hu.
    cbn [snd profiles]. now apply NoDup_map_filter.
  - unfold delete_profile, get_profile.
    destruct (profiles_of user_id s) as [|p [|q l]]; try exact Hi.
    cbn [snd profiles]. now apply NoDup_map_filter.
  - unfold delete_profile, get_profile.
    destruct (profiles_of user_id s) as [|p [|q l]]; try exact Hlt.
    cbn [snd profiles next_profile_id]. intros r Hr. apply filter_In in Hr.
    apply Hlt. tauto.
Qed.

(** Listing profiles.  Every listing is a selection of the table, in the
    order of the table; a completion flag keeps the profiles with that
    flag; no flag and no search text, or an empty one, list the whole
    table; the incomplete profiles are the listing for the flag false. *)
Theorem profile_listings (icontains : option string -> string -> bool)
    (s : profile_db) :
  get_all_profiles icontains None None s = profiles s
  /\ get_all_profiles icontains None (Some "") s = profiles s
  /\ get_incomplete_profiles s = get_all_profiles icontains (Some false) None s
  /\ (forall flag search p,
        In p (get_all_profiles icontains flag search s) ->
        In p (profiles s)
        /\ (forall b, flag = Some b -> Profile.is_complete p = b)
        /\ (forall text, search = Some text -> falsy text = false ->
              icontains (Profile.name p) text
              || icontains (Profile.email p) text
              || icontains (Profile.school_name p) text
              || icontains (Some (Profile.user_id p)) text = true))
  /\ (forall flag search,
        exists keep, get_all_profiles icontains flag search s
                     = filter keep (profiles s)).
Proof.
  assert (Hsub : forall flag search p,
             In p (get_all_profiles icontains flag search s) ->
             In p (match flag with
                   | Some b => filter (fun p => Bool.eqb (Profile.is_complete p) b)
                                 (profiles s)
                   | None => profiles s
                   end)).
  { intros flag search p H. unfold get_all_profiles in H.
    destruct search as [text|]; [destruct (falsy text)|]; try exact H.
    apply filter_In in H. tauto. }
  split; [reflexivity|]. split; [reflexivity|]. split; [reflexivity|].
  split.
  - intros flag search p H. split; [|split].
    + apply Hsub in H. destruct flag; [apply filter_In in H|]; tauto.
    + intros b ->. apply Hsub in H. apply filter_In in H.
      destruct H as [_ H]. now apply Bool.eqb_prop in H.
    + intros text -> Hf. unfold get_all_profiles in H. rewrite Hf in H.
      apply filter_In in H. tauto.
  - intros flag search. unfold get_all_profiles.
    assert (Hall : forall l : list Profile.t, l = filter (fun _ => true) l).
    { induction l as [|y l IH]; cbn; congruence. }
    assert (Hand : forall (f g : Profile.t -> bool) l,
               filter f (filter g l) = filter (fun x => g x && f x) l).
    { intros f g. induction l as [|y l IH]; cbn; [reflexivity|].
      destruct (g y); cbn; [destruct (f y)|]; congruence. }
    destruct flag as [b|], search as [text|]; try destruct (falsy text).
    all: try rewrite Hand.
    all: try (eexists; reflexivity).
    all: exists (fun _ => true); apply Hall.
Qed.

(** ** The profile service on the sample table *)

Lemma sample_profiles_ok : profiles_ok sample_profiles.
Proof.
  unfold profiles_ok, sample_profiles. cbn. split; [|split].
  - constructor; [intros [] | constructor].
  - constructor; [intros [] | constructor].
  - intros p [<- | []]. cbn. lia.
Qed.

Lemma identity_keeps_user_id : keeps_user_id (fun p => p).
Proof. intros p. reflexivity. Qed.

Lemma create_profile_then_found_witness :
  keeps_user_id (fun p => p)
  /\ falsy "U2" = false
  /\ check_profile_exists "U2" sample_profiles = false
  /\ check_profile_exists "U2"
       (snd (create_profile (fun p => p) false "U2" (Some "Ben") None None
               None None None sample_profiles)) = true.
Proof.
  split; [exact identity_keeps_user_id|].
  split; [reflexivity|]. split; [reflexivity|].
  pose proof (@create_profile_then_found (fun p => p) false "U2" (Some "Ben")
                None None None None None sample_profiles
                identity_keeps_user_id eq_refl eq_refl) as H.
  cbv zeta in H. destruct H as (E & _ & Hex & _).
  rewrite E. exact Hex.
Defined.

Lemma update_profile_effect_witness :
  profiles_ok sample_profiles
  /\ exists profile s',
       update_profile (fun p => p) "U1" None (Some "CIT") None None None None
         sample_profiles = (POk profile, s')
       /\ next_profile_id s' = next_profile_id sample_profiles.
Proof.
  split; [exact sample_profiles_ok|].
  pose proof (@update_profile_effect (fun p => p) "U1" None (Some "CIT") None
                None None None sample_profiles sample_profiles_ok) as H.
  cbv zeta in H. destruct H as [_ H].
  destruct (H (Profile.mk 1 "U1" (Some "Ana") None (Some "ana@example.org")
                 None None None false) (or_introl eq_refl) eq_refl)
    as (s' & E & _ & Hn).
  eexists. exists s'. split; [exact E | exact Hn].
Defined.

Lemma delete_profile_effect_witness :
  profiles_ok sample_profiles
  /\ exists s',
       delete_profile "U1" sample_profiles = (POk true, s')
       /\ check_profile_exists "U1" s' = false.
Proof.
  split; [exact sample_profiles_ok|].
  destruct (@delete_profile_effect "U1" sample_profiles sample_profiles_ok)
    as (_ & _ & H).
  destruct (H (Profile.mk 1 "U1" (Some "Ana") None (Some "ana@example.org")
                 None None None false) (or_introl eq_refl) eq_refl)
    as (s' & E & Hex & _).
  exists s'. split; [exact E | exact Hex].
Defined.

Lemma profiles_stay_ok_witness :
  keeps_user_id (fun p => p)
  /\ profiles_ok sample_profiles
  /\ profiles_ok
       (snd (create_profile (fun p => p) false "U2" None None None None None
               None sample_profiles)).
Proof.
  split; [exact identity_keeps_user_id|].
  split; [exact sample_profiles_ok|].
  destruct (@profiles_stay_ok (fun p => p) false sample_profiles
              identity_keeps_user_id sample_profiles_ok) as (H & _ & _).
  apply H.
Defined.

(** ** Profile statistics *)

Lemma round2_exact (x : Q) (k : Z) : (x == k # 100)%Q -> round2 x = Qred (k # 100).
Proof.
  unfold Qeq, round2. cbn [Qnum Qden]. intros E.
  assert (En : (Qnum x * 100 = k * Zpos (Qden x))%Z) by lia.
  rewrite En, Z.div_mul, Z.mod_mul by lia.
  replace (2 * 0 ?= Zpos (Qden x))%Z with Lt; [reflexivity|].
  symmetry. apply Z.compare_lt_iff. lia.
Qed.

Lemma round2_bounds (x : Q) :
  (0 <= x)%Q -> (x <= 100)%Q -> (0 <= round2 x)%Q /\ (round2 x <= 100)%Q.
Proof.
  unfold round2. intros H0 H1.
  set (n := (Qnum x * 100)%Z). set (d := Zpos (Qden x)).
  assert (Hd : (0 < d)%Z) by (subst d; lia).
  assert (Hn0 : (0 <= n)%Z).
  { unfold Qle in H0. cbn in H0. subst n. lia. }
  assert (Hn1 : (n <= 10000 * d)%Z).
  { unfold Qle in H1. cbn in H1. subst n d. lia. }
  pose proof (Z.div_mod n d ltac:(lia)) as Hdm.
  pose proof (Z.mod_pos_bound n d Hd) as Hr.
  set (q := (n / d)%Z) in *. set (r := (n mod d)%Z) in *.
  assert (Hq0 : (0 <= q)%Z) by nia.
  assert (Hq1 : (q <= 10000)%Z) by nia.
  rewrite !Qred_correct.
  destruct (2 * r ?= d)%Z eqn:C.
  - apply Z.compare_eq_iff in C.
    assert (q < 10000)%Z by nia.
    destruct (Z.odd q); unfold Qle; cbn; lia.
  - unfold Qle; cbn; lia.
  - apply Z.compare_gt_iff in C.
    assert (q < 10000)%Z by nia.
    unfold Qle; cbn; lia.
Qed.

Lemma filter_length_split {A} (f : A -> bool) (l : list A) :
  List.length l
  = List.length (filter f l) + List.length (filter (fun x => negb (f x)) l).
Proof.
  induction l as [|x l IH]; cbn; [reflexivity|].
  destruct (f x); cbn; lia.
Qed.

(** The profile statistics never raise, the empty table included, where
    both rates are the integer 0.  [total] is the number of profiles,
    [complete] the size of the listing of complete profiles and
    [incomplete] the size of the listing of incomplete ones, so never
    negative.  On a table that is not empty the completion rate is a
    float between 0 and 100: exactly 100 when every profile is complete
    and exactly 0 when none is. *)
Theorem profile_statistics_counts (icontains : option string -> string -> bool)
    (completion_percentage : Profile.t -> Q) (s : profile_db) :
  let stats := get_profile_statistics completion_percentage s in
  let complete := get_all_profiles icontains (Some true) None s in
  dict_get "total" stats = Some (PInt (Z.of_nat (List.length (profiles s))))
  /\ dict_get "complete" stats = Some (PInt (Z.of_nat (List.length complete)))
  /\ dict_get "incomplete" stats
     = Some (PInt (Z.of_nat (List.length (get_incomplete_profiles s))))
  /\ (profiles s = [] ->
      dict_get "completion_rate" stats = Some (PInt 0)
      /\ dict_get "average_completion" stats = Some (PInt 0))
  /\ (profiles s <> [] ->
      exists rate average,
        dict_get "completion_rate" stats = Some (PFloat rate)
        /\ dict_get "average_completion" stats = Some (PFloat average)
        /\ (0 <= rate)%Q /\ (rate <= 100)%Q
        /\ (get_incomplete_profiles s = [] -> rate = 100%Q)
        /\ (complete = [] -> rate = 0%Q)).
Proof.
  intros stats complete. subst stats complete.
  unfold get_profile_statistics, get_all_profiles, get_incomplete_profiles.
  set (rows := profiles s).
  set (c := List.length (filter (fun p => Bool.eqb (Profile.is_complete p) true) rows)).
  assert (Hsplit : List.length rows
                   = c + List.length
                           (filter (fun p => Bool.eqb (Profile.is_complete p) false)
                                   rows)).
  { subst c. rewrite (filter_length_split
                        (fun p => Bool.eqb (Profile.is_complete p) true) rows).
    f_equal. f_equal. apply filter_ext. intros p.
    now destruct (Profile.is_complete p). }
  cbn [dict_get String.eqb Ascii.eqb Bool.eqb].
  split; [reflexivity|]. split; [reflexivity|].
  split; [do 2 f_equal; lia|].
  split.
  - intros E. rewrite E. cbn. auto.
  - intros Hne.
    assert (Ht : (0 < Z.of_nat (List.length rows))%Z).
    { destruct rows; [congruence | cbn [List.length]; lia]. }
    apply Z.ltb_lt in Ht. rewrite Ht. apply Z.ltb_lt in Ht.
    eexists. eexists. split; [reflexivity|]. split; [reflexivity|].
    set (t := Z.of_nat (List.length rows)) in *.
    assert (Hc : (0 <= Z.of_nat c <= t)%Z) by (subst t; lia).
    assert (Hx : (0 <= inject_Z (Z.of_nat c) / inject_Z t * 100)%Q
                 /\ (inject_Z (Z.of_nat c) / inject_Z t * 100 <= 100)%Q).
    { unfold Qdiv, Qmult, Qinv, Qle, inject_Z. cbn [Qnum Qden].
      destruct t as [|tp|tp] eqn:Et; try lia. cbn [Qnum Qden]. nia. }
    destruct (round2_bounds (proj1 Hx) (proj2 Hx)) as [B0 B1].
    split; [exact B0|]. split; [exact B1|]. split.
    + intros Hnone.
      assert (Ec : Z.of_nat c = t).
      { subst t. rewrite Hsplit. fold rows in Hnone. rewrite Hnone. cbn. lia. }
      rewrite (@round2_exact _ 10000); [reflexivity|].
      rewrite Ec. unfold Qdiv, Qmult, Qinv, Qeq, inject_Z. cbn [Qnum Qden].
      destruct t as [|tp|tp]; try lia; cbn [Qnum Qden]; nia.
    + intros Hnone.
      assert (Ec : c = 0) by (subst c; fold rows in Hnone; now rewrite Hnone).
      rewrite (@round2_exact _ 0); [reflexivity|].
      rewrite Ec. unfold Qdiv, Qmult, Qinv, Qeq, inject_Z. cbn [Qnum Qden].
      destruct t as [|tp|tp]; try lia; cbn [Qnum Qden]; nia.
Qed.
